(** * Arbitrage scanner: the opportunity engine of [arbitrage_scanner.py]

    A shallow embedding of [MarketPrice.mid] and of
    [ArbitrageEngine.process_prices], with the properties the
    specification states about them.

    Number model.  The program computes on Python floats.  They are
    embedded as exact rationals ([Q]): every arithmetic step is the
    mathematical one, [x / y] raises [ZeroDivisionError] when [y] is zero
    as in Python, and the truth value of a number is "different from
    zero".  Rounding, infinities and NaN are outside this model.

    Containers.  Python dictionaries iterate in insertion order, and the
    order decides both the emission order and which platform of a tie is
    the buyer, so dictionaries are association lists that keep the
    position of a key on update.

    Objects.  [process_prices] is embedded twice: as a function of the
    engine's attributes and of the quotes, on which most statements are
    made, and as a method on a heap of objects that it reads, allocates
    and writes.  The second embedding is proved to compute the first and
    to leave the caller's objects alone. *)

From Stdlib Require Import List String Ascii Bool Arith Lia.
From Stdlib Require Import ZArith QArith Lqa.
From Stdlib Require DecimalString.
Import ListNotations.

Local Open Scope string_scope.
Local Open Scope list_scope.

(** ** Exceptions *)

Inductive exn : Type :=
| ZeroDivisionError
| IndexError.

Inductive result (A : Type) : Type :=
| Ok (a : A)
| Raise (e : exn).

Arguments Ok {A} a.
Arguments Raise {A} e.

Definition bind {A B : Type} (r : result A) (k : A -> result B) : result B :=
  match r with
  | Ok a => k a
  | Raise e => Raise e
  end.

Notation "x <- c1 ;; c2" := (bind c1 (fun x => c2))
  (at level 61, c1 at next level, right associativity).

(** [for x in xs: body], threading the loop-carried state [s]; an
    exception raised by an iteration ends the loop. *)
Fixpoint for_each {A S : Type} (xs : list A) (body : A -> S -> result S) (s : S)
  : result S :=
  match xs with
  | [] => Ok s
  | x :: rest => s' <- body x s ;; for_each rest body s'
  end.

(** [range(lo, hi)] *)
Definition range (lo hi : nat) : list nat := seq lo (hi - lo).

(** [l[i]] *)
Definition getitem {A : Type} (l : list A) (i : nat) : result A :=
  match nth_error l i with
  | Some a => Ok a
  | None => Raise IndexError
  end.

(** ** Python dictionaries, in insertion order *)

Section Dict.
Context {V : Type}.

(** [d[k] = v]: a present key keeps its position and takes the new
    value, a new key goes last. *)
Fixpoint dict_set (d : list (string * V)) (k : string) (v : V)
  : list (string * V) :=
  match d with
  | [] => [(k, v)]
  | (k', v') :: d' =>
      if String.eqb k' k then (k', v) :: d'
      else (k', v') :: dict_set d' k v
  end.

(** [d.get(k)]; the program does not call it, the statements about the
    dictionaries do. *)
Fixpoint dict_get (d : list (string * V)) (k : string) : option V :=
  match d with
  | [] => None
  | (k', v') :: d' => if String.eqb k' k then Some v' else dict_get d' k
  end.

(** [d[k].append(v)] on a [defaultdict(list)]: a missing key is first
    bound to the empty list, at the end of the dictionary. *)
Fixpoint defaultdict_append (d : list (string * list V)) (k : string) (v : V)
  : list (string * list V) :=
  match d with
  | [] => [(k, [v])]
  | (k', l) :: d' =>
      if String.eqb k' k then (k', l ++ [v]) :: d'
      else (k', l) :: defaultdict_append d' k v
  end.
End Dict.

(** ** Strings *)

(** [str.lower] on ASCII text: the letters A-Z go to a-z, every other
    character is unchanged. *)
Definition lower_ascii (c : ascii) : ascii :=
  let n := nat_of_ascii c in
  if (65 <=? n)%nat && (n <=? 90)%nat then ascii_of_nat (n + 32) else c.

Fixpoint lower (s : string) : string :=
  match s with
  | EmptyString => EmptyString
  | String c s' => String (lower_ascii c) (lower s')
  end.

(** ** Data model *)

Definition MIN_SPREAD_PCT : Q := 2.5.

Record MarketPrice : Type := {
  platform : string;
  event_id : string;
  event_name : string;
  outcome : string;
  bid : Q;
  ask : Q;
  timestamp : Q
}.

(** The truth value of a float: [bool(x)] is [x != 0]. *)
Definition truthy (x : Q) : bool := negb (Qeq_bool x 0).

(** [MarketPrice.mid] *)
Definition mid (self : MarketPrice) : Q :=
  if truthy (bid self) && truthy (ask self)
  then (bid self + ask self) / 2
  else 0.5.

(** The dictionary appended to [opportunities]. *)
Record Opportunity : Type := {
  event : string;
  buy_platform : string;
  buy_price : Q;
  sell_platform : string;
  sell_price : Q;
  net_spread : Q
}.

Record ArbitrageEngine : Type := {
  min_spread : Q;
  fee_pct : Q
}.

(** [ArbitrageEngine.__init__] *)
Definition ArbitrageEngine_init (min_spread : Q) : ArbitrageEngine :=
  {| min_spread := min_spread; fee_pct := 1.0 |}.

(** ** Arithmetic of one comparison *)

(** [x / y] on floats *)
Definition truediv (x y : Q) : result Q :=
  if Qeq_bool y 0 then Raise ZeroDivisionError else Ok (x / y).

(** [x > y] and [x >= y] *)
Definition gtb (x y : Q) : bool := negb (Qle_bool x y).
Definition geb (x y : Q) : bool := Qle_bool y x.

(** [spread = ((price2 - price1) / price1) * 100] *)
Definition spread_pct (price1 price2 : Q) : result Q :=
  q <- truediv (price2 - price1) price1 ;;
  Ok (q * 100).

(** [net_spread = spread - (2 * self.fee_pct)] *)
Definition net_spread_pct (self : ArbitrageEngine) (spread : Q) : Q :=
  spread - 2 * fee_pct self.

(** The key of a quote: [f"{price.event_name.lower()}|{price.outcome}"] *)
Definition key_of (price : MarketPrice) : string :=
  lower (event_name price) ++ "|" ++ outcome price.

(** ** [ArbitrageEngine.process_prices] *)

(** The first loop: [grouped[key].append(price)] for every quote. *)
Definition group_prices (prices : list MarketPrice)
  : list (string * list MarketPrice) :=
  fold_left (fun grouped price => defaultdict_append grouped (key_of price) price)
            prices [].

(** [{p.platform: p for p in event_prices}] *)
Definition platforms_of (event_prices : list MarketPrice)
  : list (string * MarketPrice) :=
  fold_left (fun platforms p => dict_set platforms (platform p) p)
            event_prices [].

(** The body of the two inner loops, for the items [e1 = platform_list[i]]
    and [e2 = platform_list[j]]. *)
Definition compare_pair (self : ArbitrageEngine) (event_key : string)
    (e1 e2 : string * MarketPrice) (opportunities : list Opportunity)
  : result (list Opportunity) :=
  let '(p1_name, p1) := e1 in
  let '(p2_name, p2) := e2 in
  let price1 := mid p1 in
  let price2 := mid p2 in
  let '(price1, price2, p1_name, p2_name) :=
    if gtb price1 price2
    then (price2, price1, p2_name, p1_name)
    else (price1, price2, p1_name, p2_name) in
  spread <- spread_pct price1 price2 ;;
  let net_spread := net_spread_pct self spread in
  if geb net_spread (min_spread self)
  then Ok (opportunities ++
           [ {| event := event_key;
                buy_platform := p1_name;
                buy_price := price1;
                sell_platform := p2_name;
                sell_price := price2;
                net_spread := net_spread |} ])
  else Ok opportunities.

(** [for i in range(len(platform_list)):
       for j in range(i + 1, len(platform_list)): ...] *)
Definition compare_platforms (self : ArbitrageEngine) (event_key : string)
    (platform_list : list (string * MarketPrice))
    (opportunities : list Opportunity) : result (list Opportunity) :=
  for_each (range 0 (List.length platform_list)) (fun i opportunities =>
    for_each (range (i + 1) (List.length platform_list)) (fun j opportunities =>
      e1 <- getitem platform_list i ;;
      e2 <- getitem platform_list j ;;
      compare_pair self event_key e1 e2 opportunities)
    opportunities)
  opportunities.

(** The body of [for event_key, event_prices in grouped.items()]. *)
Definition process_group (self : ArbitrageEngine)
    (item : string * list MarketPrice) (opportunities : list Opportunity)
  : result (list Opportunity) :=
  let '(event_key, event_prices) := item in
  if (List.length event_prices <? 2)%nat then Ok opportunities
  else
    let platforms := platforms_of event_prices in
    let platform_list := platforms in
    compare_platforms self event_key platform_list opportunities.

Definition process_prices (self : ArbitrageEngine) (prices : list MarketPrice)
  : result (list Opportunity) :=
  let opportunities := [] in
  let grouped := group_prices prices in
  for_each grouped (process_group self) opportunities.

(** ** Views of the loops used by the statements *)

(** The pairs [(l[i], l[j])] with [i < j], in the order the two inner
    loops visit them. *)
Fixpoint pairs_of {A : Type} (l : list A) : list (A * A) :=
  match l with
  | [] => []
  | x :: rest => map (pair x) rest ++ pairs_of rest
  end.

(** A comparison made by [process_prices]: the group key and the two
    [platforms.items()] entries. *)
Definition comparison : Type :=
  (string * (string * MarketPrice) * (string * MarketPrice))%type.

Definition group_comparisons (item : string * list MarketPrice)
  : list comparison :=
  let '(event_key, event_prices) := item in
  if (List.length event_prices <? 2)%nat then []
  else map (fun '(e1, e2) => (event_key, e1, e2))
           (pairs_of (platforms_of event_prices)).

(** Every comparison of a call that returns, in execution order; a call
    that raises makes them up to the first one whose divisor is zero. *)
Definition compared_pairs (prices : list MarketPrice) : list comparison :=
  flat_map group_comparisons (group_prices prices).

Definition compare (self : ArbitrageEngine) (c : comparison)
    (opportunities : list Opportunity) : result (list Opportunity) :=
  let '(event_key, e1, e2) := c in
  compare_pair self event_key e1 e2 opportunities.

(** The lower and the higher of the two mid-prices of a pair, chosen as
    the swap of [compare_pair] chooses them. *)
Definition buy_mid (p1 p2 : MarketPrice) : Q :=
  if gtb (mid p1) (mid p2) then mid p2 else mid p1.

Definition sell_mid (p1 p2 : MarketPrice) : Q :=
  if gtb (mid p1) (mid p2) then mid p1 else mid p2.

Definition buy_name (e1 e2 : string * MarketPrice) : string :=
  if gtb (mid (snd e1)) (mid (snd e2)) then fst e2 else fst e1.

Definition sell_name (e1 e2 : string * MarketPrice) : string :=
  if gtb (mid (snd e1)) (mid (snd e2)) then fst e1 else fst e2.

(** The net spread of a pair with buy price [b] and sell price [s], as the
    specification writes it. *)
Definition net_of (self : ArbitrageEngine) (b s : Q) : Q :=
  ((s - b) / b) * 100 - 2 * fee_pct self.

(** The last quote of [l] whose platform is [n]. *)
Definition last_of_platform (n : string) (l : list MarketPrice)
  : option MarketPrice :=
  find (fun p => String.eqb (platform p) n) (rev l).

(** The quotes of [prices] whose key is [k], in input order. *)
Definition quotes_of_key (k : string) (prices : list MarketPrice)
  : list MarketPrice :=
  filter (fun p => String.eqb (key_of p) k) prices.

(** The character ['|'] does not occur in [s]. *)
Fixpoint no_bar (s : string) : bool :=
  match s with
  | EmptyString => true
  | String c s' => negb (Ascii.eqb c "|"%char) && no_bar s'
  end.

(** The keys of a dictionary, in iteration order. *)
Definition keys {V : Type} (d : list (string * V)) : list string := map fst d.

(** Both dictionary writes are an update of the value under one key. *)
Fixpoint dict_update {V : Type} (d : list (string * V)) (k : string)
    (f : option V -> V) : list (string * V) :=
  match d with
  | [] => [(k, f None)]
  | (k', v') :: d' =>
      if String.eqb k' k then (k', f (Some v')) :: d'
      else (k', v') :: dict_update d' k f
  end.

Definition append_to {V : Type} (v : V) (o : option (list V)) : list V :=
  match o with
  | Some l => l ++ [v]
  | None => [v]
  end.

(** The record a comparison appends when it passes the threshold. *)
Definition opportunity_of (self : ArbitrageEngine) (c : comparison)
  : Opportunity :=
  let '(event_key, e1, e2) := c in
  {| event := event_key;
     buy_platform := buy_name e1 e2;
     buy_price := buy_mid (snd e1) (snd e2);
     sell_platform := sell_name e1 e2;
     sell_price := sell_mid (snd e1) (snd e2);
     net_spread := net_of self (buy_mid (snd e1) (snd e2))
                               (sell_mid (snd e1) (snd e2)) |}.

(** The divisor of a comparison, and whether it is zero. *)
Definition divisor_of (c : comparison) : Q :=
  let '(_, e1, e2) := c in buy_mid (snd e1) (snd e2).

Definition zero_divisor (c : comparison) : bool :=
  Qeq_bool (divisor_of c) 0.

(** Whether a comparison with a non-zero divisor reaches the threshold. *)
Definition passes (self : ArbitrageEngine) (c : comparison) : bool :=
  geb (net_spread (opportunity_of self c)) (min_spread self).

(** The records of the comparisons that pass, in order. *)
Definition emitted (self : ArbitrageEngine) (cs : list comparison)
  : list Opportunity :=
  map (opportunity_of self) (filter (passes self) cs).

(** ** Sample inputs *)

(** A quote for the outcome YES, as the collectors build them. *)
Definition quote (platform event_name : string) (bid ask : Q) : MarketPrice :=
  {| platform := platform; event_id := ""; event_name := event_name;
     outcome := "YES"; bid := bid; ask := ask; timestamp := 0 |}.

(** The example of the specification: mid-prices 0.41 and 0.51. *)
Definition kalshi_041 : MarketPrice := quote "Kalshi" "Rain in NYC" 0.40 0.42.
Definition polymarket_051 : MarketPrice :=
  quote "Polymarket" "rain in nyc" 0.50 0.52.
Definition spec_example : list MarketPrice := [kalshi_041; polymarket_051].

(** A bid of -0.25 against an ask of 0.25: the mid-price is zero. *)
Definition kalshi_zero_mid : MarketPrice :=
  quote "Kalshi" "Rain in NYC" (-0.25) 0.25.
Definition polymarket_half : MarketPrice :=
  quote "Polymarket" "rain in nyc" 0.5 0.5.
Definition zero_mid_quotes : list MarketPrice :=
  [kalshi_zero_mid; polymarket_half].

(** Two quotes of one platform for one event. *)
Definition kalshi_twice : list MarketPrice :=
  [ quote "Kalshi" "Rain in NYC" 0.10 0.12;
    quote "Kalshi" "rain in nyc" 0.50 0.52 ].

(** Two quotes whose event names and outcomes differ and whose keys are
    both ["rain|nyc|YES"]. *)
Definition kalshi_bar : MarketPrice :=
  {| platform := "Kalshi"; event_id := ""; event_name := "rain";
     outcome := "nyc|YES"; bid := 0.40; ask := 0.42; timestamp := 0 |}.
Definition polymarket_bar : MarketPrice :=
  {| platform := "Polymarket"; event_id := ""; event_name := "rain|nyc";
     outcome := "YES"; bid := 0.50; ask := 0.52; timestamp := 0 |}.
Definition bar_quotes : list MarketPrice := [kalshi_bar; polymarket_bar].

(** A quote of mid-price -0.5, and an engine with threshold -300. *)
Definition kalshi_negative : MarketPrice :=
  quote "Kalshi" "Rain in NYC" (-0.25) (-0.75).
Definition negative_quotes : list MarketPrice :=
  [kalshi_negative; polymarket_half].
Definition loose_engine : ArbitrageEngine := ArbitrageEngine_init (-300).

(** A change of the quotes that keeps platform, event name and outcome
    (it may change bid and ask), applied to both sides of a comparison. *)
Definition keeps_identity (f : MarketPrice -> MarketPrice) : Prop :=
  forall p, platform (f p) = platform p /\
            event_name (f p) = event_name p /\
            outcome (f p) = outcome p.

Definition map_comparison (f : MarketPrice -> MarketPrice) (c : comparison)
  : comparison :=
  let '(k, (n1, p1), (n2, p2)) := c in (k, (n1, f p1), (n2, f p2)).

Definition map_values {V W : Type} (f : V -> W) (d : list (string * V))
  : list (string * W) :=
  map (fun '(k, v) => (k, f v)) d.

(** The same quote with bid and ask negated. *)
Definition negate_prices (p : MarketPrice) : MarketPrice :=
  {| platform := platform p; event_id := event_id p;
     event_name := event_name p; outcome := outcome p;
     bid := - bid p; ask := - ask p; timestamp := timestamp p |}.

(** Two platforms with the same mid-price 0.41. *)
Definition identical_mids : list MarketPrice :=
  [ kalshi_041; quote "Polymarket" "rain in nyc" 0.40 0.42 ].

(** The same quote with another identifier and capture time. *)
Definition restamp (p : MarketPrice) : MarketPrice :=
  {| platform := platform p; event_id := "other";
     event_name := event_name p; outcome := outcome p;
     bid := bid p; ask := ask p; timestamp := 99 |}.

(** What identifies a comparison: its key and its two platform names. *)
Definition comparison_names (c : comparison) : string * string * string :=
  let '(k, e1, e2) := c in (k, fst e1, fst e2).

(** Whether the record [o] is for the key [k] and the two platforms [a]
    and [b], whichever of them buys. *)
Definition record_between (k a b : string) (o : Opportunity) : bool :=
  String.eqb (event o) k &&
  ((String.eqb (buy_platform o) a && String.eqb (sell_platform o) b) ||
   (String.eqb (buy_platform o) b && String.eqb (sell_platform o) a)).

(** A second platform at mid-price 0.61. *)
Definition polymarket_061 : MarketPrice :=
  quote "Polymarket" "rain in nyc" 0.60 0.62.

(** The engine of [main]: [ArbitrageEngine(min_spread=MIN_SPREAD_PCT)]. *)
Definition default_engine : ArbitrageEngine :=
  ArbitrageEngine_init MIN_SPREAD_PCT.

(** * The engine on Python objects

    [process_prices] is a method: it receives references to an engine
    and to a list of quotes, and everything it builds (the list of
    opportunities, the dictionary of groups and its lists, the
    dictionary and the list of platforms, the records) is an object it
    allocates and writes to.  Here the objects live in a heap, a
    reference is an address, and every statement of the method is the
    read, the write or the allocation it performs. *)

(** ** Objects *)

Definition addr : Type := nat.

Inductive value : Type :=
| VNum (x : Q)
| VStr (s : string)
| VRef (a : addr)
| VTuple (v1 v2 : value).

Arguments VRef a%_nat.

Inductive object : Type :=
| Engine (attrs : ArbitrageEngine)
| Quote (attrs : MarketPrice)
| PyList (items : list value)
| PyDict (entries : list (string * value)).

(** The address of an object is its position; a new object goes last. *)
Definition heap : Type := list object.

(** What ends a statement other than its value: the exceptions of
    [exn]; [WrongClass] for the [AttributeError] or [TypeError] of an
    object that is not of the class the annotations promise;
    [RuntimeError] for a dictionary that changed size while a loop ran
    over it; [OutOfFuel] for a loop over a list that outgrew the steps
    granted to it. *)
Inductive signal : Type :=
| Exception (e : exn)
| WrongClass
| RuntimeError
| OutOfFuel.

Inductive completion (A : Type) : Type :=
| Returns (a : A)
| Stops (s : signal).

Arguments Returns {A} a.
Arguments Stops {A} s.

Definition Run (A : Type) : Type := heap -> completion A * heap.

Definition ret {A : Type} (a : A) : Run A := fun h => (Returns a, h).

Definition stop {A : Type} (s : signal) : Run A := fun h => (Stops s, h).

Definition run_bind {A B : Type} (c : Run A) (k : A -> Run B) : Run B :=
  fun h =>
    match c h with
    | (Returns a, h') => k a h'
    | (Stops s, h') => (Stops s, h')
    end.

Notation "x <-- c1 ;; c2" := (run_bind c1 (fun x => c2))
  (at level 61, c1 at next level, right associativity).

(** A computation on values, inside a statement. *)
Definition lift {A : Type} (r : result A) : Run A :=
  match r with
  | Ok a => ret a
  | Raise e => stop (Exception e)
  end.

(** ** Reads, writes and allocations *)

Definition alloc (o : object) : Run value :=
  fun h => (Returns (VRef (List.length h)), h ++ [o]).

Definition load (v : value) : Run object :=
  fun h =>
    match v with
    | VRef a =>
        match nth_error h a with
        | Some o => (Returns o, h)
        | None => (Stops WrongClass, h)
        end
    | _ => (Stops WrongClass, h)
    end.

Fixpoint update (a : addr) (o : object) (h : heap) : heap :=
  match h, a with
  | [], _ => []
  | _ :: rest, O => o :: rest
  | o' :: rest, S a' => o' :: update a' o rest
  end.

Definition store (v : value) (o : object) : Run unit :=
  fun h =>
    match v with
    | VRef a =>
        if (a <? List.length h)%nat then (Returns tt, update a o h)
        else (Stops WrongClass, h)
    | _ => (Stops WrongClass, h)
    end.

Definition load_list (v : value) : Run (list value) :=
  o <-- load v ;;
  match o with
  | PyList items => ret items
  | _ => stop WrongClass
  end.

Definition load_dict (v : value) : Run (list (string * value)) :=
  o <-- load v ;;
  match o with
  | PyDict entries => ret entries
  | _ => stop WrongClass
  end.

(** [price.field] on a [MarketPrice], [self.field] on an engine. *)
Definition quote_attr {A : Type} (field : MarketPrice -> A) (v : value)
  : Run A :=
  o <-- load v ;;
  match o with
  | Quote attrs => ret (field attrs)
  | _ => stop WrongClass
  end.

Definition engine_attr {A : Type} (field : ArbitrageEngine -> A) (v : value)
  : Run A :=
  o <-- load v ;;
  match o with
  | Engine attrs => ret (field attrs)
  | _ => stop WrongClass
  end.

(** [l.append(x)] *)
Definition list_append (l x : value) : Run unit :=
  items <-- load_list l ;;
  store l (PyList (items ++ [x])).

(** [len(l)] and [l[i]] *)
Definition list_len (l : value) : Run nat :=
  items <-- load_list l ;;
  ret (List.length items).

Definition list_getitem (l : value) (i : nat) : Run value :=
  items <-- load_list l ;;
  lift (getitem items i).

(** [d[key] = v] *)
Definition dict_setitem (d : value) (key : string) (v : value) : Run unit :=
  entries <-- load_dict d ;;
  store d (PyDict (dict_set entries key v)).

(** [d[key]] on a [defaultdict(list)]: a missing key is bound to a new
    empty list, which is the value of the expression. *)
Definition defaultdict_getitem (d : value) (key : string) : Run value :=
  entries <-- load_dict d ;;
  match dict_get entries key with
  | Some v => ret v
  | None =>
      l <-- alloc (PyList []) ;;
      _ <-- dict_setitem d key l ;;
      ret l
  end.

(** ** Loops *)

(** [for x in l: body], [l] a list: every step reads the list again and
    takes its item [i], and the loop ends when there is none. *)
Fixpoint for_in (fuel : nat) (l : value) (i : nat) (body : value -> Run unit)
  : Run unit :=
  match fuel with
  | O => stop OutOfFuel
  | S fuel' =>
      items <-- load_list l ;;
      match nth_error items i with
      | Some x => _ <-- body x ;; for_in fuel' l (S i) body
      | None => ret tt
      end
  end.

(** [for k, v in d.items(): body]: every step reads the dictionary
    again, raises when its size is no longer the one at the start, and
    takes its entry [i]. *)
Fixpoint for_items (fuel : nat) (d : value) (size i : nat)
    (body : string -> value -> Run unit) : Run unit :=
  match fuel with
  | O => stop OutOfFuel
  | S fuel' =>
      entries <-- load_dict d ;;
      if negb (List.length entries =? size)%nat then stop RuntimeError
      else
        match nth_error entries i with
        | Some (k, v) => _ <-- body k v ;; for_items fuel' d size (S i) body
        | None => ret tt
        end
  end.

(** [for i in range(...): body] *)
Fixpoint for_range (indices : list nat) (body : nat -> Run unit) : Run unit :=
  match indices with
  | [] => ret tt
  | i :: rest => _ <-- body i ;; for_range rest body
  end.

(** ** [ArbitrageEngine.process_prices], statement by statement *)

(** The dictionary appended to [opportunities]. *)
Definition opportunity_dict (o : Opportunity) : object :=
  PyDict [ ("event", VStr (event o));
           ("buy_platform", VStr (buy_platform o));
           ("buy_price", VNum (buy_price o));
           ("sell_platform", VStr (sell_platform o));
           ("sell_price", VNum (sell_price o));
           ("net_spread", VNum (net_spread o)) ].

(** Lines 149 to 170, for the items [e1 = platform_list[i]] and
    [e2 = platform_list[j]]. *)
Definition compare_pair_at (self : value) (event_key : string)
    (opportunities e1 e2 : value) : Run unit :=
  match e1, e2 with
  | VTuple (VStr p1_name) p1, VTuple (VStr p2_name) p2 =>
      price1 <-- quote_attr mid p1 ;;
      price2 <-- quote_attr mid p2 ;;
      let '(price1, price2, p1_name, p2_name) :=
        if gtb price1 price2
        then (price2, price1, p2_name, p1_name)
        else (price1, price2, p1_name, p2_name) in
      spread <-- lift (spread_pct price1 price2) ;;
      fee <-- engine_attr fee_pct self ;;
      let net_spread := spread - 2 * fee in
      threshold <-- engine_attr min_spread self ;;
      if geb net_spread threshold
      then
        record <-- alloc (opportunity_dict
                            {| event := event_key;
                               buy_platform := p1_name;
                               buy_price := price1;
                               sell_platform := p2_name;
                               sell_price := price2;
                               net_spread := net_spread |}) ;;
        list_append opportunities record
      else ret tt
  | _, _ => stop WrongClass
  end.

(** [list(platforms.items())] *)
Definition items_of (entries : list (string * value)) : list value :=
  map (fun '(k, v) => VTuple (VStr k) v) entries.

(** The body of [for event_key, event_prices in grouped.items()]. *)
Definition process_group_at (fuel : nat) (self opportunities : value)
    (event_key : string) (event_prices : value) : Run unit :=
  n <-- list_len event_prices ;;
  if (n <? 2)%nat then ret tt
  else
    platforms <-- alloc (PyDict []) ;;
    _ <-- for_in fuel event_prices 0 (fun p =>
            name <-- quote_attr platform p ;;
            dict_setitem platforms name p) ;;
    entries <-- load_dict platforms ;;
    platform_list <-- alloc (PyList (items_of entries)) ;;
    n <-- list_len platform_list ;;
    for_range (range 0 n) (fun i =>
      n <-- list_len platform_list ;;
      for_range (range (i + 1) n) (fun j =>
        e1 <-- list_getitem platform_list i ;;
        e2 <-- list_getitem platform_list j ;;
        compare_pair_at self event_key opportunities e1 e2)).

(** The method, called on the references [self] and [prices]; its
    value is the reference to the list it built.  The size of [grouped]
    is read when the loop over [grouped.items()] starts.  The method
    calls nothing that prints, logs, or reads a clock or a socket: the
    heap is all the state it can touch. *)
Definition process_prices_at (fuel : nat) (self prices : value) : Run value :=
  opportunities <-- alloc (PyList []) ;;
  grouped <-- alloc (PyDict []) ;;
  _ <-- for_in fuel prices 0 (fun price =>
          key <-- quote_attr key_of price ;;
          l <-- defaultdict_getitem grouped key ;;
          list_append l price) ;;
  size <-- (entries <-- load_dict grouped ;; ret (List.length entries)) ;;
  _ <-- for_items fuel grouped size 0
          (process_group_at fuel self opportunities) ;;
  ret opportunities.

(** ** Reading objects back *)

Definition engine_at (h : heap) (v : value) : option ArbitrageEngine :=
  match load v h with
  | (Returns (Engine attrs), _) => Some attrs
  | _ => None
  end.

Definition quote_at (h : heap) (v : value) : option MarketPrice :=
  match load v h with
  | (Returns (Quote attrs), _) => Some attrs
  | _ => None
  end.

Fixpoint all_some {A : Type} (l : list (option A)) : option (list A) :=
  match l with
  | [] => Some []
  | Some a :: rest =>
      match all_some rest with
      | Some l' => Some (a :: l')
      | None => None
      end
  | None :: _ => None
  end.

(** The quotes a list object refers to. *)
Definition quotes_at (h : heap) (v : value) : option (list MarketPrice) :=
  match load v h with
  | (Returns (PyList items), _) => all_some (map (quote_at h) items)
  | _ => None
  end.

(** The record a dictionary of [opportunities] holds, read by its keys as
    [main] reads it. *)
Definition record_at (h : heap) (v : value) : option Opportunity :=
  match load v h with
  | (Returns (PyDict entries), _) =>
      match dict_get entries "event", dict_get entries "buy_platform",
            dict_get entries "buy_price", dict_get entries "sell_platform",
            dict_get entries "sell_price", dict_get entries "net_spread" with
      | Some (VStr e), Some (VStr bn), Some (VNum b),
        Some (VStr sn), Some (VNum s), Some (VNum n) =>
          Some {| event := e; buy_platform := bn; buy_price := b;
                  sell_platform := sn; sell_price := s; net_spread := n |}
      | _, _, _, _, _, _ => None
      end
  | _ => None
  end.

Definition records_at (h : heap) (v : value) : option (list Opportunity) :=
  match load v h with
  | (Returns (PyList items), _) => all_some (map (record_at h) items)
  | _ => None
  end.

(** What a call gave, as the caller sees it in the heap the call left:
    the records of the returned list, or the exception. *)
Definition returned (r : completion value * heap)
  : option (result (list Opportunity)) :=
  match r with
  | (Returns v, h) =>
      match records_at h v with
      | Some opps => Some (Ok opps)
      | None => None
      end
  | (Stops (Exception e), _) => Some (Raise e)
  | (Stops _, _) => None
  end.

(** The heap [h'] holds every object of [h], unchanged, at its address. *)
Definition keeps (h h' : heap) : Prop := exists new, h' = h ++ new.

(** A heap of the caller: the engine of [main], the two quotes of the
    example of the specification, and the list of the two. *)
Definition sample_heap : heap :=
  [ Engine default_engine; Quote kalshi_041; Quote polymarket_051;
    PyList [VRef 1; VRef 2] ].

(** ** Views of the heap used by the statements *)

(** The two dictionaries of the method, over any items. *)
Definition group_by {A : Type} (key : A -> string) (l : list A)
  : list (string * list A) :=
  fold_left (fun grouped x => defaultdict_append grouped (key x) x) l [].

Definition index_by {A : Type} (name : A -> string) (l : list A)
  : list (string * A) :=
  fold_left (fun d x => dict_set d (name x) x) l [].

(** The quote a reference leads to. *)
Definition deref (h : heap) (v : value) : MarketPrice :=
  match quote_at h v with
  | Some p => p
  | None => quote "" "" 0 0
  end.

(** The heap after the first loop: the caller's objects, the empty list
    of opportunities, the dictionary of groups, and one list per group
    in the order the keys were met. *)
Fixpoint entries_from (a : addr) (groups : list (string * list value))
  : list (string * value) :=
  match groups with
  | [] => []
  | (k, _) :: rest => (k, VRef a) :: entries_from (S a) rest
  end.

Definition lists_of (groups : list (string * list value)) : list object :=
  map (fun kv => PyList (snd kv)) groups.

Definition grouped_heap (h0 : heap) (groups : list (string * list value))
  : heap :=
  h0 ++ PyList []
     :: PyDict (entries_from (List.length h0 + 2)%nat groups)
     :: lists_of groups.

(** Every object of [h] other than the one at [keep] is in [h'],
    unchanged, at its address. *)
Definition stable (keep : addr) (h h' : heap) : Prop :=
  forall a o, a <> keep -> nth_error h a = Some o -> nth_error h' a = Some o.

(** The list at [at_] holds references to the dictionaries of [opps]. *)
Definition record_ref (h : heap) (v : value) (o : Opportunity) : Prop :=
  exists a, v = VRef a /\ nth_error h a = Some (opportunity_dict o).

Definition holds_records (at_ : addr) (opps : list Opportunity) (h : heap)
  : Prop :=
  exists refs, nth_error h at_ = Some (PyList refs) /\
               Forall2 (record_ref h) refs opps.

(** A statement run from [h] does what the computation [p] on the list
    of opportunities does: it raises the same exception, or it returns
    with the list at [at_] holding the records of [p]; either way it
    leaves every other object of [h] alone. *)
Definition follows (at_ : addr) (h : heap) (r : completion unit * heap)
    (p : result (list Opportunity)) : Prop :=
  stable at_ h (snd r) /\
  match p with
  | Ok opps => fst r = Returns tt /\ holds_records at_ opps (snd r)
  | Raise e => fst r = Stops (Exception e)
  end.

(** * The collectors and the scan loop

    The collectors talk to the network and read the clock, the loop
    prints, logs and sleeps.  These effects are explicit: a [World] holds
    the answers of the servers and the readings of the clock as oracles,
    and records the requests made and the lines logged, printed and slept
    on.  Every statement about the collectors holds for all worlds. *)

(** ** JSON values, as [resp.json()] returns them *)

#[warnings="-register-all"] Inductive json : Type :=
| JNull
| JBool (b : bool)
| JNum (x : Q)
| JStr (s : string)
| JArr (items : list json)
| JObj (fields : list (string * json)).

(** The operations of Python the collectors apply to such values; [None]
    stands for a raised exception (AttributeError, TypeError, KeyError,
    IndexError, ValueError: every handler of the collectors catches them
    all alike). *)

(** [v.get(key, default)]: only a dict has [get]. *)
Definition get_or (v : json) (key : string) (default : json) : option json :=
  match v with
  | JObj fields =>
      match dict_get fields key with
      | Some x => Some x
      | None => Some default
      end
  | _ => None
  end.

(** [bool(v)] *)
Definition truth (v : json) : bool :=
  match v with
  | JNull => false
  | JBool b => b
  | JNum x => truthy x
  | JStr s => negb (String.eqb s "")
  | JArr items => match items with [] => false | _ => true end
  | JObj fields => match fields with [] => false | _ => true end
  end.

(** [v[0]]: the first item of a list, the first character of a string;
    a dict of string keys has no key 0, other values have no items. *)
Definition item0 (v : json) : option json :=
  match v with
  | JArr (x :: _) => Some x
  | JStr (String c _) => Some (JStr (String c ""))
  | _ => None
  end.

(** [v[:30]]: lists and strings can be sliced. *)
Definition slice30 (v : json) : option json :=
  match v with
  | JArr items => Some (JArr (firstn 30 items))
  | JStr s => Some (JStr (substring 0 30 s))
  | _ => None
  end.

Fixpoint characters (s : string) : list json :=
  match s with
  | EmptyString => []
  | String c s' => JStr (String c "") :: characters s'
  end.

(** The values [for x in v] visits: the items of a list, the characters
    of a string, the keys of a dict; other values are not iterable. *)
Definition iterate (v : json) : option (list json) :=
  match v with
  | JArr items => Some items
  | JStr s => Some (characters s)
  | JObj fields => Some (map JStr (keys fields))
  | _ => None
  end.

(** [float(v)], given the reading [float_of_str] of a string as a float
    ([None] when it raises ValueError): a number is itself, True and
    False are 1 and 0, None, lists and dicts raise TypeError. *)
Definition to_float (float_of_str : string -> option Q) (v : json)
  : option Q :=
  match v with
  | JNum x => Some x
  | JBool b => Some (if b then 1 else 0)
  | JStr s => float_of_str s
  | _ => None
  end.

(** [str(n)] for a length. *)
Definition str_of_nat (n : nat) : string :=
  DecimalString.NilZero.string_of_uint (Nat.to_uint n).

(** ** The world *)

(** [session.get(url, params=, timeout=)]; [url_arg] is the value
    formatted at the end of the URL, if any. *)
Record request : Type := {
  url : string;
  url_arg : option json;
  params : list (string * json);
  timeout : nat
}.

(** What [session.get] gives: the status, and the value of
    [await resp.json()] ([None] when it raises). *)
Record response : Type := {
  status : nat;
  json_body : option json
}.

(** The lines of the console, with the values they format. *)
Inductive console_line : Type :=
| Text (line : string)
| ScanHeader (iteration : nat) (now : Q)
| FoundLine (count : nat)
| EventLine (event_key : string)
| BuyLine (platform_name : string) (price : Q)
| SellLine (platform_name : string) (price : Q)
| SpreadLine (net : Q).

Inductive event_record : Type :=
| LoggedInfo (message : string)
| LoggedError (prefix : string)
| Printed (line : console_line)
| Slept (seconds : nat).

Record World : Type := {
  (** the answer to the [k]-th request of the run; [None]: it raises *)
  server : nat -> request -> option response;
  (** the [k]-th reading of the clock *)
  clock : nat -> Q;
  (** the requests made so far, oldest first *)
  sent : list request;
  clock_reads : nat;
  (** what was logged, printed and slept, oldest first *)
  trace : list event_record
}.

(** The dataclass does not check its annotations: a collector stores the
    JSON values it finds in [event_id], [event_name], [bid] and [ask]. *)
Record RawQuote : Type := {
  raw_platform : string;
  raw_event_id : json;
  raw_event_name : json;
  raw_outcome : string;
  raw_bid : json;
  raw_ask : json;
  raw_timestamp : Q
}.

(** The quote as its annotations read it, when its values are strings
    and numbers as annotated. *)
Definition as_MarketPrice (r : RawQuote) : option MarketPrice :=
  match raw_event_id r, raw_event_name r, raw_bid r, raw_ask r with
  | JStr i, JStr n, JNum b, JNum a =>
      Some {| platform := raw_platform r; event_id := i; event_name := n;
              outcome := raw_outcome r; bid := b; ask := a;
              timestamp := raw_timestamp r |}
  | _, _, _, _ => None
  end.

(** ** Statements that may raise, over a state that a raise keeps *)

Definition M (St A : Type) : Type := St -> option A * St.

Definition m_ret {St A : Type} (a : A) : M St A := fun s => (Some a, s).

Definition m_bind {St A B : Type} (c : M St A) (k : A -> M St B) : M St B :=
  fun s =>
    match c s with
    | (Some a, s') => k a s'
    | (None, s') => (None, s')
    end.

Notation "x <~ c1 ;; c2" := (m_bind c1 (fun x => c2))
  (at level 61, c1 at next level, right associativity).

(** A Python operation that returns or raises, without effect. *)
Definition py {St A : Type} (o : option A) : M St A := fun s => (o, s).

(** [try: body except: handler] *)
Definition try_except {St : Type} (body handler : M St unit) : M St unit :=
  fun s =>
    match body s with
    | (Some _, s') => (Some tt, s')
    | (None, s') => handler s'
    end.

(** [for x in xs: body] *)
Fixpoint m_for {St A : Type} (xs : list A) (body : A -> M St unit)
  : M St unit :=
  match xs with
  | [] => m_ret tt
  | x :: rest => _ <~ body x ;; m_for rest body
  end.

(** The state of one [fetch_markets]: the world and the local [prices]. *)
Record Frame : Type := {
  fr_world : World;
  fr_prices : list RawQuote
}.

Definition on_world (f : World -> World) (s : Frame) : Frame :=
  {| fr_world := f (fr_world s); fr_prices := fr_prices s |}.

Definition record_event (e : event_record) (w : World) : World :=
  {| server := server w; clock := clock w; sent := sent w;
     clock_reads := clock_reads w; trace := trace w ++ [e] |}.

Definition record_request (req : request) (w : World) : World :=
  {| server := server w; clock := clock w; sent := sent w ++ [req];
     clock_reads := clock_reads w; trace := trace w |}.

Definition record_clock_read (w : World) : World :=
  {| server := server w; clock := clock w; sent := sent w;
     clock_reads := S (clock_reads w); trace := trace w |}.

(** [async with session.get(...) as resp] *)
Definition http_get (req : request) : M Frame response :=
  fun s =>
    (server (fr_world s) (List.length (sent (fr_world s))) req,
     on_world (record_request req) s).

(** [await resp.json()] *)
Definition resp_json (resp : response) : M Frame json := py (json_body resp).

(** [time.time()] *)
Definition time_time : M Frame Q :=
  fun s =>
    (Some (clock (fr_world s) (clock_reads (fr_world s))),
     on_world record_clock_read s).

(** [prices.append(q)] *)
Definition append_price (q : RawQuote) : M Frame unit :=
  fun s =>
    (Some tt, {| fr_world := fr_world s; fr_prices := fr_prices s ++ [q] |}).

(** [logger.error(...)] and [logger.info(...)] *)
Definition log_event (e : event_record) : M Frame unit :=
  fun s => (Some tt, on_world (record_event e) s).

(** ** [KalshiCollector] *)

Definition Kalshi_base_url : string := "https://trading-api.kalshi.com/v1".

(** The body of [for market in markets] of [KalshiCollector]. *)
Definition Kalshi_market (market : json) : M Frame unit :=
  market_id <~ py (get_or market "market_id" (JStr "")) ;;
  title <~ py (get_or market "title" (JStr "")) ;;
  try_except
    (ob_resp <~ http_get {| url := Kalshi_base_url ++ "/orderbooks/";
                            url_arg := Some market_id;
                            params := []; timeout := 5 |} ;;
     if (status ob_resp =? 200)%nat then
       ob <~ resp_json ob_resp ;;
       yes_bid <~ py (get_or ob "yes_bid" (JNum 0.5)) ;;
       yes_ask <~ py (get_or ob "yes_ask" (JNum 0.5)) ;;
       now <~ time_time ;;
       append_price {| raw_platform := "Kalshi";
                       raw_event_id := market_id;
                       raw_event_name := title;
                       raw_outcome := "YES";
                       raw_bid := yes_bid;
                       raw_ask := yes_ask;
                       raw_timestamp := now |}
     else m_ret tt)
    (m_ret tt).

(** The [try] block of [KalshiCollector.fetch_markets]. *)
Definition Kalshi_try : M Frame unit :=
  resp <~ http_get {| url := Kalshi_base_url ++ "/markets";
                      url_arg := None;
                      params := [("status", JStr "active");
                                 ("limit", JNum 30)];
                      timeout := 10 |} ;;
  if (status resp =? 200)%nat then
    data <~ resp_json resp ;;
    markets <~ py (get_or data "markets" (JArr [])) ;;
    items <~ py (iterate markets) ;;
    m_for items Kalshi_market
  else m_ret tt.

(** The end of both [fetch_markets]: the handler of the outer [try], the
    info line, and [return prices]. *)
Definition fetch_with (name : string) (body : M Frame unit) (w : World)
  : list RawQuote * World :=
  let s := {| fr_world := w; fr_prices := [] |} in
  let s := snd (try_except body
                  (log_event (LoggedError (name ++ " error: "))) s) in
  let s := snd (log_event
                  (LoggedInfo (name ++ ": "
                               ++ str_of_nat (List.length (fr_prices s))
                               ++ " prices")) s) in
  (fr_prices s, fr_world s).

Definition KalshiCollector_fetch_markets : World -> list RawQuote * World :=
  fetch_with "Kalshi" Kalshi_try.

(** ** [PolymarketCollector] *)

Definition Polymarket_api_url : string := "https://clob.polymarket.com".

Section Polymarket.
(** [float] on a string. *)
Variable float_of_str : string -> option Q.

(** The body of [for market in markets] of [PolymarketCollector]. *)
Definition Polymarket_market (market : json) : M Frame unit :=
  market_id <~ py (get_or market "condition_id" (JStr "")) ;;
  title <~ py (get_or market "question" (JStr "")) ;;
  try_except
    (ob_resp <~ http_get {| url := Polymarket_api_url ++ "/orderbooks/";
                            url_arg := Some market_id;
                            params := []; timeout := 5 |} ;;
     if (status ob_resp =? 200)%nat then
       ob <~ resp_json ob_resp ;;
       bids <~ py (get_or ob "bids" (JArr [])) ;;
       asks <~ py (get_or ob "asks" (JArr [])) ;;
       if truth bids && truth asks then
         bid0 <~ py (item0 bids) ;;
         bid00 <~ py (item0 bid0) ;;
         best_bid <~ py (to_float float_of_str bid00) ;;
         ask0 <~ py (item0 asks) ;;
         ask00 <~ py (item0 ask0) ;;
         best_ask <~ py (to_float float_of_str ask00) ;;
         now <~ time_time ;;
         append_price {| raw_platform := "Polymarket";
                         raw_event_id := market_id;
                         raw_event_name := title;
                         raw_outcome := "YES";
                         raw_bid := JNum best_bid;
                         raw_ask := JNum best_ask;
                         raw_timestamp := now |}
       else m_ret tt
     else m_ret tt)
    (m_ret tt).

(** The [try] block of [PolymarketCollector.fetch_markets]. *)
Definition Polymarket_try : M Frame unit :=
  resp <~ http_get {| url := Polymarket_api_url ++ "/markets";
                      url_arg := None; params := []; timeout := 10 |} ;;
  if (status resp =? 200)%nat then
    data <~ resp_json resp ;;
    listed <~ py (get_or data "markets" (JArr [])) ;;
    markets <~ py (slice30 listed) ;;
    items <~ py (iterate markets) ;;
    m_for items Polymarket_market
  else m_ret tt.

Definition PolymarketCollector_fetch_markets
  : World -> list RawQuote * World :=
  fetch_with "Polymarket" Polymarket_try.
End Polymarket.

(** ** What one fetch adds to its frame *)

(** The frame [s] after the requests [rs] and the appended quotes [qs],
    each quote with one reading of the clock. *)
Definition grow (s : Frame) (rs : list request) (qs : list RawQuote) : Frame :=
  {| fr_world :=
       {| server := server (fr_world s);
          clock := clock (fr_world s);
          sent := sent (fr_world s) ++ rs;
          clock_reads := clock_reads (fr_world s) + List.length qs;
          trace := trace (fr_world s) |};
     fr_prices := fr_prices s ++ qs |}.

(** What every quote of a collector satisfies: the platform [name] and
    the outcome YES. *)
Definition labelled (name : string) (q : RawQuote) : Prop :=
  raw_platform q = name /\ raw_outcome q = "YES".

(** The request for the list of markets. *)
Definition Kalshi_list_request : request :=
  {| url := Kalshi_base_url ++ "/markets"; url_arg := None;
     params := [("status", JStr "active"); ("limit", JNum 30)];
     timeout := 10 |}.

Definition Polymarket_list_request : request :=
  {| url := Polymarket_api_url ++ "/markets"; url_arg := None;
     params := []; timeout := 10 |}.

(** [session.get(f"{base}/orderbooks/{market_id}", timeout=5)] *)
Definition orderbook_request (base : string) (market_id : json) : request :=
  {| url := base ++ "/orderbooks/"; url_arg := Some market_id;
     params := []; timeout := 5 |}.

(** How [KalshiCollector] builds the quote [q] from the listed [market]:
    identifier and title are those of the market (the empty string for a
    missing key), and bid and ask are the values of [yes_bid] and
    [yes_ask] (0.5 for a missing key) in the body of an answer of status
    200 of the server [sv] to the order-book request for the
    identifier. *)
Definition Kalshi_built (sv : nat -> request -> option response)
    (market : json) (q : RawQuote) : Prop :=
  labelled "Kalshi" q /\
  get_or market "market_id" (JStr "") = Some (raw_event_id q) /\
  get_or market "title" (JStr "") = Some (raw_event_name q) /\
  exists k resp ob,
    sv k (orderbook_request Kalshi_base_url (raw_event_id q)) = Some resp /\
    status resp = 200%nat /\ json_body resp = Some ob /\
    get_or ob "yes_bid" (JNum 0.5) = Some (raw_bid q) /\
    get_or ob "yes_ask" (JNum 0.5) = Some (raw_ask q).

(** How [PolymarketCollector] builds the quote [q] from the listed
    [market]: the order book has non-empty [bids] and [asks], and bid and
    ask are the floats read from the first item of the first bid and of
    the first ask. *)
Definition Polymarket_built (float_of_str : string -> option Q)
    (sv : nat -> request -> option response)
    (market : json) (q : RawQuote) : Prop :=
  labelled "Polymarket" q /\
  get_or market "condition_id" (JStr "") = Some (raw_event_id q) /\
  get_or market "question" (JStr "") = Some (raw_event_name q) /\
  exists k resp ob bids asks bid0 bid00 ask0 ask00 b a,
    sv k (orderbook_request Polymarket_api_url (raw_event_id q)) = Some resp /\
    status resp = 200%nat /\ json_body resp = Some ob /\
    get_or ob "bids" (JArr []) = Some bids /\
    get_or ob "asks" (JArr []) = Some asks /\
    truth bids = true /\ truth asks = true /\
    item0 bids = Some bid0 /\ item0 bid0 = Some bid00 /\
    to_float float_of_str bid00 = Some b /\
    item0 asks = Some ask0 /\ item0 ask0 = Some ask00 /\
    to_float float_of_str ask00 = Some a /\
    raw_bid q = JNum b /\ raw_ask q = JNum a.

(** The list of markets a fetch of [KalshiCollector] iterates on in the
    world [w]: the first request is answered with status 200 and a dict,
    and [items] is what iterating on its value for [markets] (an empty
    list when the key is missing) gives. *)
Definition Kalshi_listing (w : World) (items : list json) : Prop :=
  exists resp data markets,
    server w (List.length (sent w)) Kalshi_list_request = Some resp /\
    status resp = 200%nat /\ json_body resp = Some data /\
    get_or data "markets" (JArr []) = Some markets /\
    iterate markets = Some items.

(** The same for [PolymarketCollector], which cuts the value after 30
    items. *)
Definition Polymarket_listing (w : World) (items : list json) : Prop :=
  exists resp data listed markets,
    server w (List.length (sent w)) Polymarket_list_request = Some resp /\
    status resp = 200%nat /\ json_body resp = Some data /\
    get_or data "markets" (JArr []) = Some listed /\
    slice30 listed = Some markets /\
    iterate markets = Some items.

(** The quotes [qs] satisfy [P] and carry as timestamps the readings of
    the clock of [w] from the [k]-th on. *)
Definition stamped (P : RawQuote -> Prop) (w : World) (k : nat)
    (qs : list RawQuote) : Prop :=
  Forall P qs /\
  map raw_timestamp qs = map (clock w) (seq k (List.length qs)).

(** The world after one fetch that made the requests [rs], returned [n]
    quotes and logged [logged]. *)
Definition after_fetch (w : World) (rs : list request) (n : nat)
    (logged : list event_record) : World :=
  {| server := server w; clock := clock w; sent := sent w ++ rs;
     clock_reads := clock_reads w + n; trace := trace w ++ logged |}.

(** The records of the two log lines of a collector. *)
Definition info_line (name : string) (n : nat) : event_record :=
  LoggedInfo (name ++ ": " ++ str_of_nat n ++ " prices").

Definition error_line (name : string) : event_record :=
  LoggedError (name ++ " error: ").

(** ** The requests of one fetch *)

Definition is_dict (v : json) : bool :=
  match v with
  | JObj _ => true
  | _ => false
  end.

(** The items of a list before its first item that is not a dict. *)
Fixpoint dict_prefix (items : list json) : list json :=
  match items with
  | [] => []
  | x :: rest => if is_dict x then x :: dict_prefix rest else []
  end.

(** The order-book requests for the markets [items], the identifier
    being read under [id_key]. *)
Definition orderbook_requests (base id_key : string) (items : list json)
  : list request :=
  flat_map (fun market =>
              match get_or market id_key (JStr "") with
              | Some market_id => [orderbook_request base market_id]
              | None => []
              end) items.

(** The quotes as their annotations read them, when all of them have
    values of the annotated types. *)
Fixpoint typed_quotes (raws : list RawQuote) : option (list MarketPrice) :=
  match raws with
  | [] => Some []
  | r :: rest =>
      match as_MarketPrice r, typed_quotes rest with
      | Some p, Some ps => Some (p :: ps)
      | _, _ => None
      end
  end.

(** ** The scan loop of [main] *)

Definition POLL_INTERVAL : nat := 5.

(** A collector as [main] uses it: [fetch_markets() -> List[MarketPrice]]. *)
Definition Collector : Type := World -> list MarketPrice * World.

(** [for collector in collectors:
       prices = await collector.fetch_markets()
       all_prices.extend(prices)] *)
Fixpoint collect (collectors : list Collector) (all_prices : list MarketPrice)
    (w : World) : list MarketPrice * World :=
  match collectors with
  | [] => (all_prices, w)
  | collector :: rest =>
      let '(prices, w') := collector w in
      collect rest (all_prices ++ prices) w'
  end.

(** [print(...)], [await asyncio.sleep(...)], [logger.error(...)] *)
Definition print_line (line : console_line) (w : World) : World :=
  record_event (Printed line) w.

Definition sleep (seconds : nat) (w : World) : World :=
  record_event (Slept seconds) w.

(** The four lines printed for one opportunity. *)
Definition report_opportunity (w : World) (opp : Opportunity) : World :=
  let w := print_line (EventLine (event opp)) w in
  let w := print_line (BuyLine (buy_platform opp) (buy_price opp)) w in
  let w := print_line (SellLine (sell_platform opp) (sell_price opp)) w in
  print_line (SpreadLine (net_spread opp)) w.

(** [if opportunities: ... else: print("  No opportunities found")] *)
Definition report (opportunities : list Opportunity) (w : World) : World :=
  match opportunities with
  | [] => print_line (Text "  No opportunities found") w
  | _ :: _ =>
      fold_left report_opportunity opportunities
        (print_line (FoundLine (List.length opportunities)) w)
  end.

(** One turn of [while True]: the new value of [iteration] and the new
    world.  The header reads the clock for [datetime.now()]. *)
Definition scan (collectors : list Collector) (engine : ArbitrageEngine)
    (iteration : nat) (w : World) : nat * World :=
  let iteration := (iteration + 1)%nat in
  let now := clock w (clock_reads w) in
  let w := print_line (ScanHeader iteration now) (record_clock_read w) in
  let '(all_prices, w) := collect collectors [] w in
  match process_prices engine all_prices with
  | Ok opportunities =>
      (iteration, sleep POLL_INTERVAL (report opportunities w))
  | Raise e =>
      (iteration, sleep 10 (record_event (LoggedError "Error: ") w))
  end.

(** The first [n] turns of the loop. *)
Fixpoint scans (n : nat) (collectors : list Collector)
    (engine : ArbitrageEngine) (iteration : nat) (w : World) : nat * World :=
  match n with
  | O => (iteration, w)
  | S n' =>
      let '(iteration', w') := scan collectors engine iteration w in
      scans n' collectors engine iteration' w'
  end.

(** The seconds slept in a trace. *)
Definition slept_seconds (e : event_record) : list nat :=
  match e with
  | Slept seconds => [seconds]
  | _ => []
  end.

Definition sleeps (tr : list event_record) : list nat :=
  flat_map slept_seconds tr.

(** A collector that only adds to the trace, and never a sleep. *)
Definition quiet (collector : Collector) : Prop :=
  forall w, exists added,
    trace (snd (collector w)) = trace w ++ added /\ sleeps added = [].

(** A collector that returns one quote of mid-price zero on Kalshi and
    one of mid-price 0.5 on Polymarket. *)
Definition zero_mid_collector : Collector := fun w => (zero_mid_quotes, w).

(** ** Sample worlds *)

(** A server that lists one market and answers every order-book request
    with the same book; the clock counts its readings. *)
Definition sample_market : json :=
  JObj [("market_id", JStr "m1"); ("title", JStr "Rain in NYC");
        ("condition_id", JStr "c1"); ("question", JStr "rain in nyc")].

Definition sample_listing : json := JObj [("markets", JArr [sample_market])].

Definition sample_book : json :=
  JObj [("yes_bid", JNum 0.40);
        ("bids", JArr [JArr [JNum 0.50; JNum 100]]);
        ("asks", JArr [JArr [JStr "0.52"; JNum 100]])].

Definition sample_server (k : nat) (req : request) : option response :=
  match url_arg req with
  | None => Some {| status := 200; json_body := Some sample_listing |}
  | Some _ => Some {| status := 200; json_body := Some sample_book |}
  end.

Definition world_of (sv : nat -> request -> option response) : World :=
  {| server := sv; clock := fun k => inject_Z (Z.of_nat k);
     sent := []; clock_reads := 0; trace := [] |}.

Definition sample_world : World := world_of sample_server.

(** A network on which every request raises, and one that answers every
    request with the status 500. *)
Definition dead_world : World := world_of (fun _ _ => None).

Definition failing_world : World :=
  world_of (fun _ _ => Some {| status := 500; json_body := None |}).

(** A server that answers with status 200 and a body that is no JSON. *)
Definition garbled_world : World :=
  world_of (fun _ _ => Some {| status := 200; json_body := None |}).

(** A reading of strings as floats that knows the string "0.52". *)
Definition sample_float_of_str (s : string) : option Q :=
  if String.eqb s "0.52" then Some 0.52 else None.

(** * Properties *)

(** ** Loops *)

Section Loops.
Context {A St : Type}.

Lemma for_each_ext (body body' : A -> St -> result St) (xs : list A) :
  (forall x s, In x xs -> body x s = body' x s) ->
  forall s, for_each xs body s = for_each xs body' s.
Proof.
  induction xs as [|x rest IH]; intros Hb s; simpl; [reflexivity|].
  rewrite (Hb x s) by (left; reflexivity).
  destruct (body' x s); simpl; [|reflexivity].
  apply IH. intros y t Hy. apply Hb. right. exact Hy.
Qed.

Lemma for_each_app (body : A -> St -> result St) (xs ys : list A) (s : St) :
  for_each (xs ++ ys) body s = s' <- for_each xs body s ;; for_each ys body s'.
Proof.
  revert s. induction xs as [|x rest IH]; intros s; simpl; [reflexivity|].
  destruct (body x s); simpl; [apply IH|reflexivity].
Qed.

Lemma for_each_map {B : Type} (f : B -> A) (body : A -> St -> result St)
    (xs : list B) (s : St) :
  for_each (map f xs) body s = for_each xs (fun b => body (f b)) s.
Proof.
  revert s. induction xs as [|x rest IH]; intros s; simpl; [reflexivity|].
  destruct (body (f x) s); simpl; [apply IH|reflexivity].
Qed.

Lemma for_each_flat_map {B : Type} (f : B -> list A)
    (body : A -> St -> result St) (xs : list B) (s : St) :
  for_each (flat_map f xs) body s
  = for_each xs (fun b s' => for_each (f b) body s') s.
Proof.
  revert s. induction xs as [|x rest IH]; intros s; simpl; [reflexivity|].
  rewrite for_each_app.
  destruct (for_each (f x) body s); simpl; [apply IH|reflexivity].
Qed.

(** Indexing a suffix: the loop over the indices of [L] inside
    [full = P ++ L] is the loop over the elements of [L]. *)
Lemma for_each_seq_getitem (body : A -> St -> result St) (L : list A) :
  forall (P full : list A) (lo n : nat) (s : St),
    full = P ++ L -> lo = List.length P -> n = List.length L ->
    for_each (seq lo n) (fun j s' => e <- getitem full j ;; body e s') s
    = for_each L body s.
Proof.
  induction L as [|x rest IH]; intros P full lo n s Hfull Hlo Hn;
    subst n; simpl; [reflexivity|].
  assert (Hx : getitem full lo = Ok x).
  { unfold getitem. subst full lo.
    rewrite nth_error_app2, Nat.sub_diag by lia. reflexivity. }
  rewrite Hx. simpl.
  destruct (body x s) as [s'|e]; simpl; [|reflexivity].
  apply (IH (P ++ [x])).
  - subst full. rewrite <- app_assoc. reflexivity.
  - subst lo. rewrite length_app. simpl. lia.
  - reflexivity.
Qed.
End Loops.

(** The two index loops of [compare_platforms] visit [pairs_of]. *)
Lemma index_loops_pairs {A St : Type} (body : A -> A -> St -> result St)
    (L : list A) :
  forall (P full : list A) (lo n : nat) (s : St),
    full = P ++ L -> lo = List.length P -> n = List.length L ->
    for_each (seq lo n) (fun i s1 =>
      for_each (range (i + 1) (List.length full)) (fun j s2 =>
        e1 <- getitem full i ;;
        e2 <- getitem full j ;;
        body e1 e2 s2) s1) s
    = for_each (pairs_of L) (fun '(e1, e2) => body e1 e2) s.
Proof.
  induction L as [|x rest IH]; intros P full lo n s Hfull Hlo Hn;
    subst n; simpl; [reflexivity|].
  rewrite for_each_app, for_each_map.
  assert (Hx : getitem full lo = Ok x).
  { unfold getitem. subst full lo.
    rewrite nth_error_app2, Nat.sub_diag by lia. reflexivity. }
  assert (Hlen : (List.length full - (lo + 1) = List.length rest)%nat).
  { subst full lo. rewrite length_app. simpl. lia. }
  assert (Hinner :
    for_each (range (lo + 1) (List.length full))
      (fun j s2 => e1 <- getitem full lo ;;
                   e2 <- getitem full j ;; body e1 e2 s2) s
    = for_each rest (body x) s).
  { unfold range. rewrite Hlen.
    rewrite <- (for_each_seq_getitem (body x) rest (P ++ [x]) full
                  (lo + 1) (List.length rest) s).
    - apply for_each_ext. intros j t _. rewrite Hx. reflexivity.
    - subst full. rewrite <- app_assoc. reflexivity.
    - subst lo. rewrite length_app. simpl. lia.
    - reflexivity. }
  rewrite Hinner.
  destruct (for_each rest (body x) s) as [s'|e]; simpl; [|reflexivity].
  apply (IH (P ++ [x])).
  - subst full. rewrite <- app_assoc. reflexivity.
  - subst lo. rewrite length_app. simpl. lia.
  - reflexivity.
Qed.

Lemma compare_platforms_pairs (self : ArbitrageEngine) (event_key : string)
    (platform_list : list (string * MarketPrice)) (opps : list Opportunity) :
  compare_platforms self event_key platform_list opps
  = for_each (pairs_of platform_list)
             (fun '(e1, e2) => compare_pair self event_key e1 e2) opps.
Proof.
  unfold compare_platforms, range. rewrite Nat.sub_0_r.
  apply (index_loops_pairs (compare_pair self event_key) platform_list []);
    reflexivity.
Qed.

Lemma process_group_comparisons (self : ArbitrageEngine)
    (item : string * list MarketPrice) (opps : list Opportunity) :
  process_group self item opps
  = for_each (group_comparisons item) (compare self) opps.
Proof.
  destruct item as [k g]. unfold process_group, group_comparisons.
  destruct (List.length g <? 2)%nat; [reflexivity|].
  rewrite compare_platforms_pairs, for_each_map.
  apply for_each_ext. intros [e1 e2] s _. reflexivity.
Qed.

(** [process_prices] runs [compare] over [compared_pairs], in order. *)
Lemma process_prices_compared (self : ArbitrageEngine)
    (prices : list MarketPrice) :
  process_prices self prices
  = for_each (compared_pairs prices) (compare self) [].
Proof.
  unfold process_prices, compared_pairs.
  rewrite for_each_flat_map.
  apply for_each_ext. intros item s _. apply process_group_comparisons.
Qed.

(** ** Dictionaries *)

Section DictFacts.
Context {V : Type}.
Implicit Types (d : list (string * V)) (k : string).

Lemma dict_set_update d k (v : V) :
  dict_set d k v = dict_update d k (fun _ => v).
Proof.
  induction d as [|[k' v'] d' IH]; simpl; [reflexivity|].
  rewrite IH. reflexivity.
Qed.

Lemma dict_get_update d k (f : option V -> V) k' :
  dict_get (dict_update d k f) k'
  = if String.eqb k k' then Some (f (dict_get d k)) else dict_get d k'.
Proof.
  induction d as [|[k0 v0] d' IH]; simpl.
  - rewrite String.eqb_sym. reflexivity.
  - destruct (String.eqb k0 k) eqn:E0; simpl.
    + apply String.eqb_eq in E0. subst k0.
      destruct (String.eqb k k'); reflexivity.
    + rewrite IH. destruct (String.eqb k k') eqn:E1; [|reflexivity].
      apply String.eqb_eq in E1. subst k'. rewrite E0. reflexivity.
Qed.

Lemma keys_update d k (f : option V -> V) :
  forall k', In k' (keys (dict_update d k f)) <-> k' = k \/ In k' (keys d).
Proof.
  induction d as [|[k0 v0] d' IH]; intros k'; simpl.
  - intuition.
  - destruct (String.eqb k0 k) eqn:E0; simpl.
    + apply String.eqb_eq in E0. subst k0. intuition.
    + rewrite IH. intuition.
Qed.

Lemma NoDup_keys_update d k (f : option V -> V) :
  NoDup (keys d) -> NoDup (keys (dict_update d k f)).
Proof.
  induction d as [|[k0 v0] d' IH]; simpl; intros Hnd.
  - constructor; [simpl; tauto|constructor].
  - inversion Hnd as [|? ? Hnotin Hnd']; subst.
    destruct (String.eqb k0 k) eqn:E0; simpl.
    + constructor; assumption.
    + constructor; [|apply IH; exact Hnd'].
      rewrite keys_update. intros [->|Hin]; [|exact (Hnotin Hin)].
      rewrite String.eqb_refl in E0. discriminate.
Qed.

Lemma dict_get_In d k (v : V) : dict_get d k = Some v -> In (k, v) d.
Proof.
  induction d as [|[k0 v0] d' IH]; simpl; [discriminate|].
  destruct (String.eqb k0 k) eqn:E0.
  - apply String.eqb_eq in E0. intros [= ->]. left. subst. reflexivity.
  - intros H. right. apply IH. exact H.
Qed.

Lemma In_dict_get d k (v : V) :
  NoDup (keys d) -> In (k, v) d -> dict_get d k = Some v.
Proof.
  induction d as [|[k0 v0] d' IH]; simpl; intros Hnd Hin; [contradiction|].
  inversion Hnd as [|? ? Hnotin Hnd']; subst.
  destruct Hin as [[= -> ->]|Hin].
  - rewrite String.eqb_refl. reflexivity.
  - destruct (String.eqb k0 k) eqn:E0; [|apply IH; assumption].
    apply String.eqb_eq in E0. subst k0. exfalso. apply Hnotin.
    change k with (fst (k, v)). apply in_map. exact Hin.
Qed.
End DictFacts.

Lemma defaultdict_append_update {V : Type} (d : list (string * list V))
    (k : string) (v : V) :
  defaultdict_append d k v = dict_update d k (append_to v).
Proof.
  induction d as [|[k' l] d' IH]; simpl; [reflexivity|].
  rewrite IH. reflexivity.
Qed.

(** ** Grouping by key and by platform *)

Lemma find_app_last {A : Type} (f : A -> bool) (l : list A) (x : A) :
  find f (l ++ [x])
  = match find f l with
    | Some y => Some y
    | None => if f x then Some x else None
    end.
Proof.
  induction l as [|a l IH]; simpl; [reflexivity|].
  destruct (f a); [reflexivity|exact IH].
Qed.

Lemma platforms_fold_get (l : list MarketPrice) :
  forall (acc : list (string * MarketPrice)) (n : string),
    dict_get (fold_left (fun platforms p => dict_set platforms (platform p) p)
                        l acc) n
    = match last_of_platform n l with
      | Some p => Some p
      | None => dict_get acc n
      end.
Proof.
  unfold last_of_platform.
  induction l as [|x l IH]; intros acc n; simpl; [reflexivity|].
  rewrite IH, find_app_last, dict_set_update, dict_get_update.
  destruct (find _ (rev l)); [reflexivity|].
  destruct (String.eqb (platform x) n); reflexivity.
Qed.

Lemma platforms_fold_NoDup (l : list MarketPrice) :
  forall acc : list (string * MarketPrice),
    NoDup (keys acc) ->
    NoDup (keys (fold_left (fun platforms p => dict_set platforms (platform p) p)
                           l acc)).
Proof.
  induction l as [|x l IH]; intros acc Hnd; simpl; [exact Hnd|].
  apply IH. rewrite dict_set_update. apply NoDup_keys_update. exact Hnd.
Qed.

Lemma platforms_of_get (g : list MarketPrice) (n : string) :
  dict_get (platforms_of g) n = last_of_platform n g.
Proof.
  unfold platforms_of. rewrite platforms_fold_get.
  destruct (last_of_platform n g); reflexivity.
Qed.

Lemma platforms_of_NoDup (g : list MarketPrice) : NoDup (keys (platforms_of g)).
Proof. apply platforms_fold_NoDup. constructor. Qed.

Lemma platforms_of_In (g : list MarketPrice) (n : string) (p : MarketPrice) :
  In (n, p) (platforms_of g) <-> last_of_platform n g = Some p.
Proof.
  rewrite <- platforms_of_get. split.
  - apply In_dict_get, platforms_of_NoDup.
  - apply dict_get_In.
Qed.

Lemma last_of_platform_Some (n : string) (g : list MarketPrice) (p : MarketPrice) :
  last_of_platform n g = Some p -> In p g /\ platform p = n.
Proof.
  unfold last_of_platform. intros H. apply find_some in H as [Hin Heq].
  split; [apply in_rev; exact Hin|apply String.eqb_eq; exact Heq].
Qed.

Lemma group_fold_get (l : list MarketPrice) :
  forall (acc : list (string * list MarketPrice)) (k : string),
    dict_get (fold_left (fun grouped price =>
                           defaultdict_append grouped (key_of price) price)
                        l acc) k
    = match dict_get acc k with
      | Some g => Some (g ++ quotes_of_key k l)
      | None => match quotes_of_key k l with
                | [] => None
                | g => Some g
                end
      end.
Proof.
  unfold quotes_of_key.
  induction l as [|x l IH]; intros acc k; simpl.
  - destruct (dict_get acc k); [rewrite app_nil_r|]; reflexivity.
  - rewrite IH, defaultdict_append_update, dict_get_update.
    destruct (String.eqb (key_of x) k) eqn:E.
    + apply String.eqb_eq in E. subst k.
      destruct (dict_get acc (key_of x)); simpl;
        [rewrite <- app_assoc|]; reflexivity.
    + reflexivity.
Qed.

Lemma group_fold_NoDup (l : list MarketPrice) :
  forall acc : list (string * list MarketPrice),
    NoDup (keys acc) ->
    NoDup (keys (fold_left (fun grouped price =>
                              defaultdict_append grouped (key_of price) price)
                           l acc)).
Proof.
  induction l as [|x l IH]; intros acc Hnd; simpl; [exact Hnd|].
  apply IH. rewrite defaultdict_append_update. apply NoDup_keys_update.
  exact Hnd.
Qed.

Lemma group_prices_get (prices : list MarketPrice) (k : string) :
  dict_get (group_prices prices) k
  = match quotes_of_key k prices with
    | [] => None
    | g => Some g
    end.
Proof. unfold group_prices. rewrite group_fold_get. reflexivity. Qed.

Lemma group_prices_NoDup (prices : list MarketPrice) :
  NoDup (keys (group_prices prices)).
Proof. apply group_fold_NoDup. constructor. Qed.

(** The group stored under [k] is exactly the quotes of key [k], in input
    order, and only non-empty groups exist. *)
Lemma group_prices_In (prices : list MarketPrice) (k : string)
    (g : list MarketPrice) :
  In (k, g) (group_prices prices) <-> g = quotes_of_key k prices /\ g <> [].
Proof.
  split.
  - intros Hin. apply In_dict_get in Hin; [|apply group_prices_NoDup].
    rewrite group_prices_get in Hin.
    destruct (quotes_of_key k prices) eqn:E; [discriminate|].
    injection Hin as <-. split; [reflexivity|discriminate].
  - intros [-> Hne]. apply dict_get_In. rewrite group_prices_get.
    destruct (quotes_of_key k prices); [contradiction|reflexivity].
Qed.

Lemma quotes_of_key_In (k : string) (prices : list MarketPrice) (p : MarketPrice) :
  In p (quotes_of_key k prices) <-> In p prices /\ key_of p = k.
Proof.
  unfold quotes_of_key. rewrite filter_In, String.eqb_eq. reflexivity.
Qed.

Lemma pairs_of_In {A : Type} (l : list A) (x y : A) :
  In (x, y) (pairs_of l) -> In x l /\ In y l.
Proof.
  induction l as [|a l IH]; simpl; [contradiction|].
  rewrite in_app_iff, in_map_iff. intros [(z & [= -> ->] & Hz)|H].
  - split; [left; reflexivity|right; exact Hz].
  - destruct (IH H) as [Hx Hy]. split; right; assumption.
Qed.

(** What a comparison is made of: two entries of the platform dictionary
    of one group. *)
Lemma compared_pairs_In (prices : list MarketPrice) (k : string)
    (e1 e2 : string * MarketPrice) :
  In (k, e1, e2) (compared_pairs prices) ->
  quotes_of_key k prices <> [] /\
  In (e1, e2) (pairs_of (platforms_of (quotes_of_key k prices))).
Proof.
  unfold compared_pairs. rewrite in_flat_map.
  intros ([k' g] & Hg & Hin). unfold group_comparisons in Hin.
  destruct (List.length g <? 2)%nat; [contradiction|].
  apply in_map_iff in Hin as ([a b] & [= -> -> ->] & Hab).
  apply group_prices_In in Hg as [-> Hne]. split; assumption.
Qed.

(** Both quotes of a comparison are quotes of the input with the key of
    the group, each the last one of its platform, and the entry name is
    the platform of the quote. *)
Lemma compared_pairs_quotes (prices : list MarketPrice) (k : string)
    (e1 e2 : string * MarketPrice) :
  In (k, e1, e2) (compared_pairs prices) ->
  (In (snd e1) prices /\ key_of (snd e1) = k /\ platform (snd e1) = fst e1) /\
  (In (snd e2) prices /\ key_of (snd e2) = k /\ platform (snd e2) = fst e2).
Proof.
  intros H. apply compared_pairs_In in H as [_ H].
  apply pairs_of_In in H as [H1 H2].
  destruct e1 as [n1 p1], e2 as [n2 p2]. simpl.
  apply platforms_of_In, last_of_platform_Some in H1 as [H1 E1].
  apply platforms_of_In, last_of_platform_Some in H2 as [H2 E2].
  apply quotes_of_key_In in H1 as [H1 K1].
  apply quotes_of_key_In in H2 as [H2 K2].
  repeat split; assumption.
Qed.

(** ** One comparison, and all of them *)

Lemma compare_unfold (self : ArbitrageEngine) (c : comparison)
    (opps : list Opportunity) :
  compare self c opps
  = if zero_divisor c then Raise ZeroDivisionError
    else if passes self c then Ok (opps ++ [opportunity_of self c])
    else Ok opps.
Proof.
  destruct c as [[k [n1 p1]] [n2 p2]].
  unfold compare, compare_pair, zero_divisor, divisor_of, passes,
    opportunity_of, buy_mid, sell_mid, buy_name, sell_name, net_of,
    spread_pct, truediv, net_spread_pct.
  simpl. destruct (gtb (mid p1) (mid p2)); simpl;
    match goal with |- context [Qeq_bool ?x 0] => destruct (Qeq_bool x 0) end;
    reflexivity.
Qed.

(** The whole run: it raises exactly when some comparison divides by
    zero, and otherwise returns the passing records in order. *)
Lemma for_each_compare (self : ArbitrageEngine) (cs : list comparison) :
  forall acc : list Opportunity,
    for_each cs (compare self) acc
    = if existsb zero_divisor cs then Raise ZeroDivisionError
      else Ok (acc ++ emitted self cs).
Proof.
  unfold emitted.
  induction cs as [|c cs IH]; intros acc; simpl.
  - rewrite app_nil_r. reflexivity.
  - rewrite compare_unfold. destruct (zero_divisor c); simpl; [reflexivity|].
    destruct (passes self c); simpl; rewrite IH;
      destruct (existsb zero_divisor cs); try reflexivity.
    rewrite <- app_assoc. reflexivity.
Qed.

Lemma process_prices_spec (self : ArbitrageEngine) (prices : list MarketPrice) :
  process_prices self prices
  = if existsb zero_divisor (compared_pairs prices)
    then Raise ZeroDivisionError
    else Ok (emitted self (compared_pairs prices)).
Proof. rewrite process_prices_compared. apply for_each_compare. Qed.

Lemma emitted_In (self : ArbitrageEngine) (cs : list comparison)
    (o : Opportunity) :
  In o (emitted self cs) <->
  exists c, In c cs /\ passes self c = true /\ o = opportunity_of self c.
Proof.
  unfold emitted. rewrite in_map_iff. split.
  - intros (c & <- & Hc). apply filter_In in Hc as [Hin Hp].
    exists c. repeat split; assumption.
  - intros (c & Hin & Hp & ->). exists c. split; [reflexivity|].
    apply filter_In. split; assumption.
Qed.

(** ** The examples of the specification *)

(** Mid-prices 0.41 and 0.51 with fee 1.0: one record, buying on Kalshi
    at 0.41 and selling on Polymarket at 0.51, with a net spread between
    22.39 and 22.40. *)
Example spec_example_result :
  exists o,
    process_prices default_engine spec_example = Ok [o] /\
    event o = "rain in nyc|YES" /\
    buy_platform o = "Kalshi" /\ buy_price o == 0.41 /\
    sell_platform o = "Polymarket" /\ sell_price o == 0.51 /\
    22.39 < net_spread o < 22.40.
Proof. eexists. split; [vm_compute; reflexivity|]. repeat split. Qed.

(** Identical mid-prices: the raw spread is 0, the net spread is negative,
    nothing is emitted. *)
Example identical_mids_result :
  process_prices default_engine identical_mids = Ok [].
Proof. reflexivity. Qed.

(** ** Order of the two prices *)

Lemma gtb_true (x y : Q) : gtb x y = true <-> y < x.
Proof.
  unfold gtb. rewrite negb_true_iff, <- not_true_iff_false, Qle_bool_iff.
  split; [apply Qnot_le_lt|apply Qlt_not_le].
Qed.

Lemma gtb_false (x y : Q) : gtb x y = false <-> x <= y.
Proof. unfold gtb. rewrite negb_false_iff. apply Qle_bool_iff. Qed.

Lemma geb_true (x y : Q) : geb x y = true <-> y <= x.
Proof. apply Qle_bool_iff. Qed.

Lemma buy_le_sell (p1 p2 : MarketPrice) : buy_mid p1 p2 <= sell_mid p1 p2.
Proof.
  unfold buy_mid, sell_mid. destruct (gtb (mid p1) (mid p2)) eqn:E.
  - apply gtb_true in E. apply Qlt_le_weak. exact E.
  - apply gtb_false in E. exact E.
Qed.

Lemma buy_mid_min (p1 p2 : MarketPrice) :
  buy_mid p1 p2 <= mid p1 /\ buy_mid p1 p2 <= mid p2.
Proof.
  unfold buy_mid. destruct (gtb (mid p1) (mid p2)) eqn:E.
  - apply gtb_true in E. split; [apply Qlt_le_weak; exact E|apply Qle_refl].
  - apply gtb_false in E. split; [apply Qle_refl|exact E].
Qed.

Lemma sell_mid_max (p1 p2 : MarketPrice) :
  mid p1 <= sell_mid p1 p2 /\ mid p2 <= sell_mid p1 p2.
Proof.
  unfold sell_mid. destruct (gtb (mid p1) (mid p2)) eqn:E.
  - apply gtb_true in E. split; [apply Qle_refl|apply Qlt_le_weak; exact E].
  - apply gtb_false in E. split; [exact E|apply Qle_refl].
Qed.

(** ** The mid-price *)

Lemma truthy_true (x : Q) : truthy x = true <-> ~ x == 0.
Proof.
  unfold truthy. rewrite negb_true_iff, <- not_true_iff_false, Qeq_bool_iff.
  reflexivity.
Qed.

Lemma truthy_false (x : Q) : truthy x = false <-> x == 0.
Proof. unfold truthy. rewrite negb_false_iff. apply Qeq_bool_iff. Qed.

(** C7: the mid-price is [(bid + ask) / 2] when both sides are non-zero and
    the neutral 0.5 when either side is zero. *)
Theorem mid_spec (p : MarketPrice) :
  (~ bid p == 0 -> ~ ask p == 0 -> mid p = (bid p + ask p) / 2) /\
  (bid p == 0 \/ ask p == 0 -> mid p = 0.5).
Proof.
  unfold mid. split.
  - intros Hb Ha. apply truthy_true in Hb, Ha. rewrite Hb, Ha. reflexivity.
  - intros [H|H]; apply truthy_false in H; rewrite H;
      [|rewrite andb_false_r]; reflexivity.
Qed.

Lemma mid_spec_witness :
  mid kalshi_041 = (0.40 + 0.42) / 2 /\
  mid (quote "Kalshi" "Rain in NYC" 0 0.42) = 0.5.
Proof.
  split.
  - apply (proj1 (mid_spec kalshi_041)); simpl; intros H; discriminate H.
  - apply (proj2 (mid_spec (quote "Kalshi" "Rain in NYC" 0 0.42))).
    left. reflexivity.
Defined.

Lemma mid_pos (p : MarketPrice) : 0 <= bid p -> 0 <= ask p -> 0 < mid p.
Proof.
  intros Hb Ha. unfold mid.
  destruct (truthy (bid p)) eqn:Eb; simpl; [|reflexivity].
  destruct (truthy (ask p)) eqn:Ea; simpl; [|reflexivity].
  apply truthy_true in Eb, Ea.
  assert (Hb' : 0 < bid p).
  { apply Qle_lteq in Hb as [H|H]; [exact H|].
    exfalso. apply Eb. symmetry. exact H. }
  assert (Ha' : 0 < ask p).
  { apply Qle_lteq in Ha as [H|H]; [exact H|].
    exfalso. apply Ea. symmetry. exact H. }
  apply Qlt_shift_div_l; [reflexivity|]. lra.
Qed.

(** ** The fee *)

(** C8: with the raw spread [r] fixed, a larger fee gives a net spread that
    is smaller or equal. *)
Theorem net_spread_decreasing_in_fee (e1 e2 : ArbitrageEngine) (r : Q) :
  fee_pct e1 <= fee_pct e2 ->
  net_spread_pct e2 r <= net_spread_pct e1 r.
Proof. unfold net_spread_pct. intros H. lra. Qed.

Lemma net_spread_decreasing_in_fee_witness :
  net_spread_pct {| min_spread := 2.5; fee_pct := 2 |} 10
  <= net_spread_pct {| min_spread := 2.5; fee_pct := 1 |} 10.
Proof.
  apply (net_spread_decreasing_in_fee
           {| min_spread := 2.5; fee_pct := 1 |}
           {| min_spread := 2.5; fee_pct := 2 |} 10).
  simpl. intros H. discriminate H.
Defined.

(** ** The comparison of one pair *)

Lemma app_one_neq {A : Type} (l : list A) (x : A) : l <> l ++ [x].
Proof.
  intros H. apply (f_equal (@List.length A)) in H.
  rewrite length_app in H. simpl in H. lia.
Qed.

Lemma positive_not_zero_divisor (c : comparison) :
  0 < divisor_of c -> zero_divisor c = false.
Proof.
  intros H. unfold zero_divisor. apply not_true_iff_false.
  rewrite Qeq_bool_iff. intros E. rewrite E in H. discriminate H.
Qed.



(** ** A division by zero *)

(** C1: with a Kalshi quote of bid -0.25 and ask 0.25 (mid-price 0) and a
    Polymarket quote of mid-price 0.5 for the same event, the buy price of
    the pair is 0 and [process_prices] raises [ZeroDivisionError]: the
    pair is not skipped. *)
Theorem zero_buy_price_raises :
  buy_mid kalshi_zero_mid polymarket_half == 0 /\
  compared_pairs zero_mid_quotes
  = [("rain in nyc|YES", ("Kalshi", kalshi_zero_mid),
      ("Polymarket", polymarket_half))] /\
  process_prices default_engine zero_mid_quotes = Raise ZeroDivisionError.
Proof. repeat split. Qed.

(** A call raises exactly when one of its comparisons has buy price 0. *)
Lemma process_prices_raises_iff (self : ArbitrageEngine)
    (prices : list MarketPrice) :
  process_prices self prices = Raise ZeroDivisionError <->
  exists c, In c (compared_pairs prices) /\ divisor_of c == 0.
Proof.
  rewrite process_prices_spec.
  destruct (existsb zero_divisor (compared_pairs prices)) eqn:E.
  - split; [intros _|reflexivity].
    apply existsb_exists in E as (c & Hin & Hz). exists c. split; [exact Hin|].
    apply Qeq_bool_iff. exact Hz.
  - split; [discriminate|]. intros (c & Hin & Hz). exfalso.
    apply not_true_iff_false in E. apply E. apply existsb_exists.
    exists c. split; [exact Hin|]. apply Qeq_bool_iff. exact Hz.
Qed.

(** ** Emitted records *)

Lemma process_prices_Ok (self : ArbitrageEngine) (prices : list MarketPrice)
    (opps : list Opportunity) :
  process_prices self prices = Ok opps ->
  opps = emitted self (compared_pairs prices) /\
  forall c, In c (compared_pairs prices) -> ~ divisor_of c == 0.
Proof.
  rewrite process_prices_spec.
  destruct (existsb zero_divisor (compared_pairs prices)) eqn:E;
    [discriminate|].
  intros [= <-]. split; [reflexivity|].
  intros c Hin Hz. apply not_true_iff_false in E. apply E.
  apply existsb_exists. exists c. split; [exact Hin|].
  apply Qeq_bool_iff. exact Hz.
Qed.

(** C5: every emitted record has [buy_price <= sell_price]; it comes from
    one compared pair of quotes of the input, its buy side is the quote
    with the lower mid-price and its sell side the one with the higher,
    each with the platform of that quote (the first of the pair buys on a
    tie). *)
Theorem emitted_buy_le_sell (self : ArbitrageEngine)
    (prices : list MarketPrice) (opps : list Opportunity) :
  process_prices self prices = Ok opps ->
  forall o, In o opps ->
    buy_price o <= sell_price o /\
    exists p1 p2,
      In (event o, (platform p1, p1), (platform p2, p2)) (compared_pairs prices) /\
      In p1 prices /\ In p2 prices /\
      ((mid p1 <= mid p2 /\
        buy_platform o = platform p1 /\ buy_price o = mid p1 /\
        sell_platform o = platform p2 /\ sell_price o = mid p2) \/
       (mid p2 < mid p1 /\
        buy_platform o = platform p2 /\ buy_price o = mid p2 /\
        sell_platform o = platform p1 /\ sell_price o = mid p1)).
Proof.
  intros Hrun o Ho.
  apply process_prices_Ok in Hrun as [-> _].
  apply emitted_In in Ho as ([[k [n1 p1]] [n2 p2]] & Hin & _ & ->).
  split; [apply buy_le_sell|].
  destruct (compared_pairs_quotes _ _ _ _ Hin) as [(I1 & _ & N1) (I2 & _ & N2)].
  simpl in I1, I2, N1, N2. subst n1 n2.
  exists p1, p2. split; [exact Hin|]. split; [exact I1|]. split; [exact I2|].
  unfold opportunity_of, buy_name, sell_name, buy_mid, sell_mid. simpl.
  destruct (gtb (mid p1) (mid p2)) eqn:E.
  - right. apply gtb_true in E. repeat split. exact E.
  - left. apply gtb_false in E. repeat split. exact E.
Qed.

Lemma emitted_buy_le_sell_witness :
  exists o,
    process_prices default_engine spec_example = Ok [o] /\
    buy_price o <= sell_price o /\
    buy_platform o = "Kalshi" /\ sell_platform o = "Polymarket".
Proof.
  eexists. split; [vm_compute; reflexivity|].
  split; [|split; reflexivity].
  refine (proj1 (emitted_buy_le_sell default_engine spec_example _
                   eq_refl _ (or_introl eq_refl))).
Defined.

(** ** Non-negative quotes *)

(** C10: when every quote has non-negative bid and ask, every mid-price
    is strictly positive, so is the divisor of every comparison, and
    [process_prices] returns a list without raising. *)
Theorem nonnegative_quotes_total (self : ArbitrageEngine)
    (prices : list MarketPrice) :
  (forall p, In p prices -> 0 <= bid p /\ 0 <= ask p) ->
  (forall p, In p prices -> 0 < mid p) /\
  (forall c, In c (compared_pairs prices) -> 0 < divisor_of c) /\
  process_prices self prices = Ok (emitted self (compared_pairs prices)).
Proof.
  intros Hnn.
  assert (Hmid : forall p, In p prices -> 0 < mid p).
  { intros p Hp. destruct (Hnn p Hp). apply mid_pos; assumption. }
  assert (Hdiv : forall c, In c (compared_pairs prices) -> 0 < divisor_of c).
  { intros [[k e1] e2] Hin.
    destruct (compared_pairs_quotes _ _ _ _ Hin) as [(I1 & _) (I2 & _)].
    unfold divisor_of, buy_mid.
    destruct (gtb (mid (snd e1)) (mid (snd e2))); apply Hmid; assumption. }
  split; [exact Hmid|]. split; [exact Hdiv|].
  rewrite process_prices_spec.
  destruct (existsb zero_divisor (compared_pairs prices)) eqn:E;
    [|reflexivity].
  apply existsb_exists in E as (c & Hin & Hz).
  rewrite (positive_not_zero_divisor c (Hdiv c Hin)) in Hz. discriminate Hz.
Qed.

Lemma nonnegative_quotes_total_witness :
  (forall p, In p spec_example -> 0 <= bid p /\ 0 <= ask p) /\
  process_prices default_engine spec_example
  = Ok (emitted default_engine (compared_pairs spec_example)).
Proof.
  assert (H : forall p, In p spec_example -> 0 <= bid p /\ 0 <= ask p).
  { intros p [<-|[<-|[]]]; split; simpl; intros E; discriminate E. }
  split; [exact H|].
  exact (proj2 (proj2 (nonnegative_quotes_total default_engine spec_example H))).
Defined.

(** ** One quote per platform *)

Lemma find_app {A : Type} (f : A -> bool) (l l' : list A) :
  find f (l ++ l')
  = match find f l with
    | Some y => Some y
    | None => find f l'
    end.
Proof.
  induction l as [|a l IH]; simpl; [reflexivity|].
  destruct (f a); [reflexivity|exact IH].
Qed.

Lemma find_none_iff {A : Type} (f : A -> bool) (l : list A) :
  find f l = None <-> forall x, In x l -> f x = false.
Proof.
  split; [apply find_none|].
  induction l as [|a l IH]; simpl; intros H; [reflexivity|].
  rewrite (H a) by (left; reflexivity). apply IH.
  intros x Hx. apply H. right. exact Hx.
Qed.

(** [last_of_platform] is the last quote of the platform in list order. *)
Lemma last_of_platform_spec (n : string) (g : list MarketPrice)
    (p : MarketPrice) :
  last_of_platform n g = Some p <->
  exists before after,
    g = before ++ p :: after /\ platform p = n /\
    forall q, In q after -> platform q <> n.
Proof.
  unfold last_of_platform. split.
  - induction g as [|x g IH] using rev_ind; [discriminate|].
    rewrite rev_unit. simpl.
    destruct (String.eqb (platform x) n) eqn:E.
    + intros [= <-]. exists g, []. apply String.eqb_eq in E.
      split; [reflexivity|]. split; [exact E|]. intros q [].
    + intros H. destruct (IH H) as (before & after & -> & Hp & Hafter).
      exists before, (after ++ [x]). rewrite <- app_assoc.
      split; [reflexivity|]. split; [exact Hp|].
      intros q Hq. apply in_app_or in Hq as [Hq|[<-|[]]].
      * apply Hafter. exact Hq.
      * apply String.eqb_neq. exact E.
  - intros (before & after & -> & Hp & Hafter).
    rewrite rev_app_distr. simpl. rewrite <- app_assoc, find_app.
    replace (find (fun q => String.eqb (platform q) n) (rev after))
      with (@None MarketPrice).
    + simpl. apply String.eqb_eq in Hp. rewrite Hp. reflexivity.
    + symmetry. apply find_none_iff. intros q Hq. apply in_rev in Hq.
      apply String.eqb_neq. apply Hafter. exact Hq.
Qed.

Lemma pairs_of_distinct {A B : Type} (f : A -> B) (l : list A) (x y : A) :
  NoDup (map f l) -> In (x, y) (pairs_of l) -> f x <> f y.
Proof.
  induction l as [|a l IH]; simpl; [contradiction|].
  intros Hnd Hin. inversion Hnd as [|? ? Hnotin Hnd']; subst.
  apply in_app_or in Hin as [Hin|Hin].
  - apply in_map_iff in Hin as (z & [= -> ->] & Hz).
    intros E. apply Hnotin. rewrite E. apply in_map. exact Hz.
  - apply IH; assumption.
Qed.

(** The two entries of a comparison are of two different platforms. *)
Lemma compared_pairs_distinct (prices : list MarketPrice) (k : string)
    (e1 e2 : string * MarketPrice) :
  In (k, e1, e2) (compared_pairs prices) -> fst e1 <> fst e2.
Proof.
  intros H. apply compared_pairs_In in H as [_ H].
  apply (pairs_of_distinct fst _ _ _ (platforms_of_NoDup _) H).
Qed.

(** C6: the platform dictionary of a group has at most one entry per
    platform; the entry of a platform is the last quote of that platform
    in the group, in input order; the comparisons of a key are made
    between the entries of its dictionary; and when all quotes of a key
    come from one platform, no comparison is made for the key and no
    emitted record carries it. *)
Theorem one_quote_per_platform :
  (forall g, NoDup (keys (platforms_of g))) /\
  (forall g n p,
     In (n, p) (platforms_of g) <->
     exists before after,
       g = before ++ p :: after /\ platform p = n /\
       forall q, In q after -> platform q <> n) /\
  (forall prices k e1 e2,
     In (k, e1, e2) (compared_pairs prices) ->
     In e1 (platforms_of (quotes_of_key k prices)) /\
     In e2 (platforms_of (quotes_of_key k prices)) /\
     fst e1 <> fst e2) /\
  (forall self prices k,
     (forall p q, In p prices -> In q prices ->
                  key_of p = k -> key_of q = k -> platform p = platform q) ->
     (forall e1 e2, ~ In (k, e1, e2) (compared_pairs prices)) /\
     (forall opps, process_prices self prices = Ok opps ->
                   forall o, In o opps -> event o <> k)).
Proof.
  split; [exact platforms_of_NoDup|].
  split; [intros g n p; rewrite platforms_of_In; apply last_of_platform_spec|].
  split.
  - intros prices k e1 e2 Hin.
    pose proof (compared_pairs_distinct _ _ _ _ Hin) as Hd.
    apply compared_pairs_In in Hin as [_ Hin].
    apply pairs_of_In in Hin as [H1 H2]. repeat split; assumption.
  - intros self prices k Hone.
    assert (Hno : forall e1 e2, ~ In (k, e1, e2) (compared_pairs prices)).
    { intros e1 e2 Hin.
      apply (compared_pairs_distinct _ _ _ _ Hin).
      destruct (compared_pairs_quotes _ _ _ _ Hin)
        as [(I1 & K1 & <-) (I2 & K2 & <-)].
      apply Hone; assumption. }
    split; [exact Hno|].
    intros opps Hrun o Ho Hk.
    apply process_prices_Ok in Hrun as [-> _].
    apply emitted_In in Ho as ([[k' e1] e2] & Hin & _ & ->).
    simpl in Hk. subst k'. exact (Hno e1 e2 Hin).
Qed.

Lemma one_quote_per_platform_witness :
  (forall p q, In p kalshi_twice -> In q kalshi_twice ->
               key_of p = "rain in nyc|YES" -> key_of q = "rain in nyc|YES" ->
               platform p = platform q) /\
  process_prices default_engine kalshi_twice = Ok [] /\
  forall o, In o (@nil Opportunity) -> event o <> "rain in nyc|YES".
Proof.
  assert (H : forall p q, In p kalshi_twice -> In q kalshi_twice ->
               key_of p = "rain in nyc|YES" -> key_of q = "rain in nyc|YES" ->
               platform p = platform q).
  { intros p q [<-|[<-|[]]] [<-|[<-|[]]] _ _; reflexivity. }
  split; [exact H|]. split; [reflexivity|].
  exact (proj2 (proj2 (proj2 (proj2 one_quote_per_platform))
                  default_engine kalshi_twice "rain in nyc|YES" H)
               [] eq_refl).
Defined.

(** ** Keys, event names and outcomes *)

Lemma no_bar_append_bar (l o : string) :
  no_bar (l ++ String "|"%char o) = false.
Proof.
  induction l as [|c l IH]; simpl in *; [reflexivity|].
  rewrite IH. apply andb_false_r.
Qed.

(** A key splits at its last ['|']: two keys whose outcome parts hold no
    ['|'] are equal only if both parts are. *)
Lemma key_split (l1 : string) :
  forall l2 o1 o2 : string,
    (l1 ++ "|" ++ o1 = l2 ++ "|" ++ o2)%string ->
    no_bar o1 = true -> no_bar o2 = true ->
    l1 = l2 /\ o1 = o2.
Proof.
  induction l1 as [|c l1 IH]; intros [|c' l2] o1 o2 H N1 N2; simpl in H.
  - injection H as ->. split; reflexivity.
  - injection H as _ ->. rewrite no_bar_append_bar in N1. discriminate N1.
  - injection H as _ <-. rewrite no_bar_append_bar in N2. discriminate N2.
  - injection H as -> H. destruct (IH _ _ _ H N1 N2) as [-> ->].
    split; reflexivity.
Qed.

Lemma group_of_quote (prices : list MarketPrice) (p : MarketPrice) :
  In p prices ->
  In (key_of p, quotes_of_key (key_of p) prices) (group_prices prices) /\
  In p (quotes_of_key (key_of p) prices).
Proof.
  intros Hp.
  assert (Hin : In p (quotes_of_key (key_of p) prices))
    by (apply quotes_of_key_In; split; [exact Hp|reflexivity]).
  split; [|exact Hin]. apply group_prices_In. split; [reflexivity|].
  intros E. rewrite E in Hin. exact Hin.
Qed.

(** The claim of C4 fails on [bar_quotes]: the two quotes are compared,
    and yield a record, though their outcomes differ and their event
    names differ even without regard to case. *)
Lemma differing_outcomes_paired :
  compared_pairs bar_quotes
  = [("rain|nyc|YES", ("Kalshi", kalshi_bar), ("Polymarket", polymarket_bar))]
  /\ outcome kalshi_bar <> outcome polymarket_bar
  /\ lower (event_name kalshi_bar) <> lower (event_name polymarket_bar)
  /\ exists o, process_prices default_engine bar_quotes = Ok [o].
Proof.
  split; [reflexivity|]. split; [discriminate|]. split; [discriminate|].
  eexists. vm_compute. reflexivity.
Qed.

(** C4, amended: two quotes are compared only if they are quotes of the
    input with the same key [lower event_name ++ "|" ++ outcome]; when
    neither outcome holds the character ['|'], the same key means event
    names equal without regard to case and equal outcomes; the groups have
    distinct keys, and two quotes with event names equal without regard to
    case and equal outcomes are in the same group. *)
Theorem compared_only_with_same_key (prices : list MarketPrice) :
  (forall k e1 e2,
     In (k, e1, e2) (compared_pairs prices) ->
     In (snd e1) prices /\ In (snd e2) prices /\
     key_of (snd e1) = k /\ key_of (snd e2) = k /\
     (no_bar (outcome (snd e1)) = true ->
      no_bar (outcome (snd e2)) = true ->
      lower (event_name (snd e1)) = lower (event_name (snd e2)) /\
      outcome (snd e1) = outcome (snd e2))) /\
  NoDup (keys (group_prices prices)) /\
  (forall p q,
     In p prices -> In q prices ->
     lower (event_name p) = lower (event_name q) ->
     outcome p = outcome q ->
     exists g, In (key_of p, g) (group_prices prices) /\ In p g /\ In q g).
Proof.
  split; [|split].
  - intros k e1 e2 Hin.
    destruct (compared_pairs_quotes _ _ _ _ Hin)
      as [(I1 & K1 & _) (I2 & K2 & _)].
    split; [exact I1|]. split; [exact I2|].
    split; [exact K1|]. split; [exact K2|].
    intros N1 N2.
    assert (K : key_of (snd e1) = key_of (snd e2)) by congruence.
    unfold key_of in K. exact (key_split _ _ _ _ K N1 N2).
  - apply group_prices_NoDup.
  - intros p q Hp Hq Hev Hout.
    assert (K : key_of q = key_of p) by (unfold key_of; congruence).
    exists (quotes_of_key (key_of p) prices).
    destruct (group_of_quote prices p Hp) as [Hg Hpg].
    split; [exact Hg|]. split; [exact Hpg|].
    apply quotes_of_key_In. split; assumption.
Qed.

Lemma compared_only_with_same_key_witness :
  In ("rain in nyc|YES", ("Kalshi", kalshi_041), ("Polymarket", polymarket_051))
     (compared_pairs spec_example) /\
  lower (event_name kalshi_041) = lower (event_name polymarket_051) /\
  outcome kalshi_041 = outcome polymarket_051.
Proof.
  assert (H : In ("rain in nyc|YES", ("Kalshi", kalshi_041),
                  ("Polymarket", polymarket_051))
                 (compared_pairs spec_example)) by (left; reflexivity).
  split; [exact H|].
  exact (proj2 (proj2 (proj2 (proj2
           (proj1 (compared_only_with_same_key spec_example) _ _ _ H))))
           eq_refl eq_refl).
Defined.

(** ** No validation of the mid-price *)

Lemma dict_set_map_values {V W : Type} (f : V -> W) (d : list (string * V))
    (k : string) (v : V) :
  map_values f (dict_set d k v) = dict_set (map_values f d) k (f v).
Proof.
  induction d as [|[k' v'] d IH]; simpl; [reflexivity|].
  destruct (String.eqb k' k); simpl; [reflexivity|].
  rewrite <- IH. reflexivity.
Qed.

Lemma defaultdict_append_map_values {V W : Type} (f : V -> W)
    (d : list (string * list V)) (k : string) (v : V) :
  map_values (map f) (defaultdict_append d k v)
  = defaultdict_append (map_values (map f) d) k (f v).
Proof.
  induction d as [|[k' l] d IH]; simpl; [reflexivity|].
  destruct (String.eqb k' k); simpl.
  - rewrite map_app. reflexivity.
  - rewrite <- IH. reflexivity.
Qed.

Lemma pairs_of_map {A B : Type} (f : A -> B) (l : list A) :
  pairs_of (map f l) = map (fun '(x, y) => (f x, f y)) (pairs_of l).
Proof.
  induction l as [|a l IH]; simpl; [reflexivity|].
  rewrite map_app, IH, !map_map. reflexivity.
Qed.

Section IgnorePrices.
Variable f : MarketPrice -> MarketPrice.
Hypothesis f_keeps : keeps_identity f.

Lemma key_of_keeps (p : MarketPrice) : key_of (f p) = key_of p.
Proof.
  unfold key_of. destruct (f_keeps p) as (_ & -> & ->). reflexivity.
Qed.

Lemma group_prices_keeps (prices : list MarketPrice) :
  group_prices (map f prices) = map_values (map f) (group_prices prices).
Proof.
  unfold group_prices.
  change (@nil (string * list MarketPrice))
    with (map_values (map f) (@nil (string * list MarketPrice))) at 1.
  generalize (@nil (string * list MarketPrice)) as acc.
  induction prices as [|p prices IH]; intros acc; simpl; [reflexivity|].
  rewrite key_of_keeps, <- defaultdict_append_map_values. apply IH.
Qed.

Lemma platforms_of_keeps (g : list MarketPrice) :
  platforms_of (map f g) = map_values f (platforms_of g).
Proof.
  unfold platforms_of.
  change (@nil (string * MarketPrice))
    with (map_values f (@nil (string * MarketPrice))) at 1.
  generalize (@nil (string * MarketPrice)) as acc.
  induction g as [|p g IH]; intros acc; simpl; [reflexivity|].
  destruct (f_keeps p) as (-> & _). rewrite <- dict_set_map_values. apply IH.
Qed.

Lemma group_comparisons_keeps (k : string) (g : list MarketPrice) :
  group_comparisons (k, map f g)
  = map (map_comparison f) (group_comparisons (k, g)).
Proof.
  unfold group_comparisons. rewrite length_map.
  destruct (List.length g <? 2)%nat; [reflexivity|].
  rewrite platforms_of_keeps. unfold map_values.
  rewrite pairs_of_map, !map_map.
  apply map_ext. intros [[n1 p1] [n2 p2]]. reflexivity.
Qed.

(** Which quotes are compared does not depend on bid and ask. *)
Lemma compared_pairs_keeps (prices : list MarketPrice) :
  compared_pairs (map f prices)
  = map (map_comparison f) (compared_pairs prices).
Proof.
  unfold compared_pairs. rewrite group_prices_keeps. unfold map_values.
  induction (group_prices prices) as [|[k g] d IH]; [reflexivity|].
  cbn [map flat_map]. rewrite map_app, IH. f_equal.
  apply group_comparisons_keeps.
Qed.
End IgnorePrices.

(** A record is emitted only for a positive buy price when the threshold
    is above [- 2 * fee_pct]. *)
Lemma passes_positive (self : ArbitrageEngine) (c : comparison) :
  - (2 * fee_pct self) < min_spread self ->
  ~ divisor_of c == 0 ->
  passes self c = true ->
  0 < divisor_of c.
Proof.
  destruct c as [[k [n1 p1]] [n2 p2]].
  unfold passes, opportunity_of, divisor_of, net_of. simpl.
  rewrite geb_true.
  pose proof (buy_le_sell p1 p2) as Hle.
  set (b := buy_mid p1 p2) in *. set (s := sell_mid p1 p2) in *.
  intros Hmin Hnz Hnet.
  destruct (Qlt_le_dec 0 b) as [Hpos|Hneg]; [exact Hpos|exfalso].
  assert (Hb : b < 0).
  { apply Qle_lteq in Hneg as [H|H]; [exact H|]. contradiction. }
  pose proof (Qmult_div_r (s - b) b Hnz) as Hq.
  set (q := (s - b) / b) in *.
  assert (Hq0 : q <= 0) by nra.
  lra.
Qed.

(** The claim of C2 fails on [negative_quotes]: the Kalshi quote has
    mid-price -0.5, it is compared with the Polymarket quote all the same,
    and with the threshold -300 the record of the pair is emitted with the
    buy price -0.5. *)
Lemma negative_mid_emitted :
  mid kalshi_negative == -0.5 /\
  compared_pairs negative_quotes
  = [("rain in nyc|YES", ("Kalshi", kalshi_negative),
      ("Polymarket", polymarket_half))] /\
  exists o,
    process_prices loose_engine negative_quotes = Ok [o] /\
    buy_platform o = "Kalshi" /\ buy_price o == -0.5 /\ buy_price o < 0.
Proof.
  split; [reflexivity|]. split; [reflexivity|].
  eexists. split; [vm_compute; reflexivity|]. repeat split.
Qed.

(** C2, amended: [process_prices] does not select quotes by price: which
    quotes are grouped and compared is the same whatever their bid and
    ask, so a negative mid-price enters the spread arithmetic.  When
    [min_spread] is above [- 2 * fee_pct], as with 2.5 and 1.0, every
    emitted record has strictly positive buy and sell prices. *)
Theorem no_mid_validation :
  (forall f prices,
     keeps_identity f ->
     compared_pairs (map f prices)
     = map (map_comparison f) (compared_pairs prices)) /\
  (forall self prices opps,
     - (2 * fee_pct self) < min_spread self ->
     process_prices self prices = Ok opps ->
     forall o, In o opps -> 0 < buy_price o /\ 0 < sell_price o).
Proof.
  split; [intros f prices Hf; apply compared_pairs_keeps; exact Hf|].
  intros self prices opps Hmin Hrun o Ho.
  apply process_prices_Ok in Hrun as [-> Hnz].
  apply emitted_In in Ho as (c & Hin & Hp & ->).
  pose proof (passes_positive self c Hmin (Hnz c Hin) Hp) as Hb.
  destruct c as [[k [n1 p1]] [n2 p2]]. simpl in *.
  split; [exact Hb|].
  apply Qlt_le_trans with (y := buy_mid p1 p2); [exact Hb|apply buy_le_sell].
Qed.

Lemma no_mid_validation_witness :
  keeps_identity negate_prices /\
  compared_pairs (map negate_prices spec_example)
  = map (map_comparison negate_prices) (compared_pairs spec_example) /\
  exists o,
    process_prices default_engine spec_example = Ok [o] /\
    0 < buy_price o /\ 0 < sell_price o.
Proof.
  assert (Hf : keeps_identity negate_prices)
    by (intros p; repeat split).
  split; [exact Hf|].
  split; [exact (proj1 no_mid_validation negate_prices spec_example Hf)|].
  eexists. split; [vm_compute; reflexivity|].
  refine (proj2 no_mid_validation default_engine spec_example _
            eq_refl eq_refl _ (or_introl eq_refl)).
Defined.

(** * Further properties of the engine *)

(** ** Inputs without two platforms on one key *)

(** X1: when no key of the input is quoted by two different platforms
    (the empty list, a single quote, the quotes of one collector alone),
    no comparison is made and [process_prices] returns the empty list; it
    does not raise, whatever the bids and asks. *)
Theorem no_shared_key_no_output (self : ArbitrageEngine)
    (prices : list MarketPrice) :
  (forall p q, In p prices -> In q prices ->
               key_of p = key_of q -> platform p = platform q) ->
  compared_pairs prices = [] /\ process_prices self prices = Ok [].
Proof.
  intros Hone.
  assert (Hnil : compared_pairs prices = []).
  { destruct (compared_pairs prices) as [|[[k e1] e2] cs] eqn:E; [reflexivity|].
    assert (Hin : In (k, e1, e2) (compared_pairs prices))
      by (rewrite E; left; reflexivity).
    exfalso. apply (compared_pairs_distinct _ _ _ _ Hin).
    destruct (compared_pairs_quotes _ _ _ _ Hin)
      as [(I1 & K1 & <-) (I2 & K2 & <-)].
    apply Hone; congruence. }
  split; [exact Hnil|]. rewrite process_prices_spec, Hnil. reflexivity.
Qed.

Lemma no_shared_key_no_output_witness :
  (forall p q, In p [kalshi_zero_mid] -> In q [kalshi_zero_mid] ->
               key_of p = key_of q -> platform p = platform q) /\
  process_prices default_engine [kalshi_zero_mid] = Ok [].
Proof.
  assert (H : forall p q, In p [kalshi_zero_mid] -> In q [kalshi_zero_mid] ->
                          key_of p = key_of q -> platform p = platform q).
  { intros p q [<-|[]] [<-|[]] _. reflexivity. }
  split; [exact H|].
  exact (proj2 (no_shared_key_no_output default_engine [kalshi_zero_mid] H)).
Defined.

(** ** The fields of an emitted record *)

(** X2: every record of a returned list reaches the threshold, its net
    spread is the value [((sell - buy) / buy) * 100 - 2 * fee_pct] of its
    own two prices, its buy price is not zero and its two platforms
    differ. *)
Theorem emitted_records_consistent (self : ArbitrageEngine)
    (prices : list MarketPrice) (opps : list Opportunity) :
  process_prices self prices = Ok opps ->
  forall o, In o opps ->
    min_spread self <= net_spread o /\
    net_spread o
    = ((sell_price o - buy_price o) / buy_price o) * 100 - 2 * fee_pct self /\
    ~ buy_price o == 0 /\
    buy_platform o <> sell_platform o.
Proof.
  intros Hrun o Ho.
  apply process_prices_Ok in Hrun as [-> Hnz].
  apply emitted_In in Ho as (c & Hin & Hp & ->).
  specialize (Hnz c Hin).
  destruct c as [[k e1] e2].
  pose proof (compared_pairs_distinct _ _ _ _ Hin) as Hd.
  unfold passes in Hp. apply geb_true in Hp.
  split; [exact Hp|]. split; [reflexivity|]. split; [exact Hnz|].
  unfold opportunity_of, buy_name, sell_name. simpl.
  destruct (gtb (mid (snd e1)) (mid (snd e2))); [intros E; apply Hd|];
    congruence.
Qed.

Lemma emitted_records_consistent_witness :
  exists o,
    process_prices default_engine spec_example = Ok [o] /\
    min_spread default_engine <= net_spread o /\
    buy_platform o <> sell_platform o.
Proof.
  eexists. split; [vm_compute; reflexivity|].
  pose proof (emitted_records_consistent default_engine spec_example _
                eq_refl _ (or_introl eq_refl)) as (H1 & _ & _ & H4).
  split; [exact H1|exact H4].
Defined.

(** X3: when [min_spread] is above [- 2 * fee_pct], every emitted record
    has a sell price strictly above its buy price: a pair of equal
    mid-prices is never reported. *)
Theorem emitted_strictly_apart (self : ArbitrageEngine)
    (prices : list MarketPrice) (opps : list Opportunity) :
  - (2 * fee_pct self) < min_spread self ->
  process_prices self prices = Ok opps ->
  forall o, In o opps -> buy_price o < sell_price o.
Proof.
  intros Hmin Hrun o Ho.
  apply process_prices_Ok in Hrun as [-> Hnz].
  apply emitted_In in Ho as (c & Hin & Hp & ->).
  destruct c as [[k [n1 p1]] [n2 p2]].
  unfold passes, opportunity_of, net_of in *. simpl in *.
  apply geb_true in Hp.
  pose proof (buy_le_sell p1 p2) as Hle.
  apply Qle_lteq in Hle as [Hlt|Heq]; [exact Hlt|exfalso].
  assert (Hz : (sell_mid p1 p2 - buy_mid p1 p2) / buy_mid p1 p2 == 0).
  { unfold Qdiv. rewrite <- Heq. ring. }
  rewrite Hz in Hp. lra.
Qed.

Lemma emitted_strictly_apart_witness :
  exists o,
    process_prices default_engine spec_example = Ok [o] /\
    buy_price o < sell_price o.
Proof.
  eexists. split; [vm_compute; reflexivity|].
  refine (emitted_strictly_apart default_engine spec_example _
            eq_refl eq_refl _ (or_introl eq_refl)).
Defined.

(** ** Exceptions *)

(** X4: the only exception [process_prices] raises is [ZeroDivisionError]
    (the index loops never leave the list), and it raises it exactly when
    the lower mid-price of some compared pair is zero. *)
Theorem raises_only_zero_division (self : ArbitrageEngine)
    (prices : list MarketPrice) :
  (forall e, process_prices self prices = Raise e -> e = ZeroDivisionError) /\
  (process_prices self prices = Raise ZeroDivisionError <->
   exists k e1 e2,
     In (k, e1, e2) (compared_pairs prices) /\
     buy_mid (snd e1) (snd e2) == 0).
Proof.
  rewrite process_prices_spec.
  destruct (existsb zero_divisor (compared_pairs prices)) eqn:E.
  - split; [intros e [= <-]; reflexivity|].
    split; [intros _|reflexivity].
    apply existsb_exists in E as ([[k e1] e2] & Hin & Hz).
    exists k, e1, e2. split; [exact Hin|]. apply Qeq_bool_iff. exact Hz.
  - split; [discriminate|]. split; [discriminate|].
    intros (k & e1 & e2 & Hin & Hz). exfalso.
    apply not_true_iff_false in E. apply E. apply existsb_exists.
    exists (k, e1, e2). split; [exact Hin|]. apply Qeq_bool_iff. exact Hz.
Qed.

Lemma raises_only_zero_division_witness :
  (exists k e1 e2,
     In (k, e1, e2) (compared_pairs zero_mid_quotes) /\
     buy_mid (snd e1) (snd e2) == 0) /\
  process_prices default_engine zero_mid_quotes = Raise ZeroDivisionError.
Proof.
  assert (H : exists k e1 e2,
             In (k, e1, e2) (compared_pairs zero_mid_quotes) /\
             buy_mid (snd e1) (snd e2) == 0).
  { exists "rain in nyc|YES", ("Kalshi", kalshi_zero_mid),
      ("Polymarket", polymarket_half).
    split; [left; reflexivity|reflexivity]. }
  split; [exact H|].
  exact (proj2 (proj2 (raises_only_zero_division default_engine
                         zero_mid_quotes)) H).
Defined.

(** ** Bounds on the mid-price *)

(** X5: for a bid and an ask between -1 and 1, the magnitudes of
    prices, where the sum of the two stays far from the largest float:
    the mid-price stays within any interval that holds bid, ask and 0.5;
    it lies in (0, 1] when neither side is negative; and it lies between
    the bid and the ask when both are non-zero and the bid is the lower
    one. *)
Theorem mid_bounds (p : MarketPrice) :
  -1 <= bid p <= 1 -> -1 <= ask p <= 1 ->
  (forall lo hi, lo <= bid p <= hi -> lo <= ask p <= hi -> lo <= 0.5 <= hi ->
                 lo <= mid p <= hi) /\
  (0 <= bid p -> 0 <= ask p -> 0 < mid p <= 1) /\
  (~ bid p == 0 -> ~ ask p == 0 -> bid p <= ask p ->
   bid p <= mid p <= ask p).
Proof.
  intros Bb Ba.
  assert (Hhalf : forall x y : Q, (x + y) / 2 == (x + y) * (1 # 2))
    by (intros x y; reflexivity).
  assert (Hin : forall lo hi, lo <= bid p <= hi -> lo <= ask p <= hi ->
                 lo <= 0.5 <= hi -> lo <= mid p <= hi).
  { intros lo hi Hb Ha Hd. unfold mid.
    destruct (truthy (bid p) && truthy (ask p)); [|exact Hd].
    rewrite Hhalf. lra. }
  split; [exact Hin|]. split.
  - intros Hb Ha. split.
    + apply mid_pos; assumption.
    + apply (Hin 0 1).
      * split; [exact Hb|apply Bb].
      * split; [exact Ha|apply Ba].
      * split; intros E; discriminate E.
  - intros Hb Ha Hle. unfold mid.
    apply truthy_true in Hb, Ha. rewrite Hb, Ha. simpl.
    rewrite Hhalf. lra.
Qed.

Lemma mid_bounds_witness :
  (-1 <= bid kalshi_041 <= 1) /\ (-1 <= ask kalshi_041 <= 1) /\
  bid kalshi_041 <= mid kalshi_041 <= ask kalshi_041.
Proof.
  assert (Hb : -1 <= bid kalshi_041 <= 1)
    by (split; intros E; discriminate E).
  assert (Ha : -1 <= ask kalshi_041 <= 1)
    by (split; intros E; discriminate E).
  split; [exact Hb|]. split; [exact Ha|].
  apply (proj2 (proj2 (mid_bounds kalshi_041 Hb Ha))).
  - intros E. discriminate E.
  - intros E. discriminate E.
  - intros E. discriminate E.
Defined.

(** ** The threshold *)

Lemma opportunity_of_fee (e1 e2 : ArbitrageEngine) (c : comparison) :
  fee_pct e1 = fee_pct e2 -> opportunity_of e1 c = opportunity_of e2 c.
Proof.
  intros Hfee. destruct c as [[k x] y].
  unfold opportunity_of, net_of. rewrite Hfee. reflexivity.
Qed.

(** X6: with the same fee, raising [min_spread] only removes records:
    the list returned for the higher threshold is the list returned for
    the lower one, filtered by the higher threshold, in the same order. *)
Theorem raising_threshold_filters (e1 e2 : ArbitrageEngine)
    (prices : list MarketPrice) (opps : list Opportunity) :
  fee_pct e1 = fee_pct e2 ->
  min_spread e1 <= min_spread e2 ->
  process_prices e1 prices = Ok opps ->
  process_prices e2 prices
  = Ok (filter (fun o => geb (net_spread o) (min_spread e2)) opps).
Proof.
  intros Hfee Hmin. rewrite !process_prices_spec.
  destruct (existsb zero_divisor (compared_pairs prices)); [discriminate|].
  intros [= <-]. f_equal. unfold emitted.
  induction (compared_pairs prices) as [|c cs IH]; [reflexivity|].
  assert (H2 : geb (net_spread (opportunity_of e1 c)) (min_spread e2)
               = passes e2 c).
  { unfold passes. rewrite (opportunity_of_fee e1 e2 c Hfee). reflexivity. }
  cbn [filter].
  destruct (passes e1 c) eqn:P1, (passes e2 c) eqn:P2; cbn [map filter];
    rewrite ?H2, ?IH, ?(opportunity_of_fee e1 e2 c Hfee); try reflexivity.
  exfalso. unfold passes in P1, P2.
  rewrite <- (opportunity_of_fee e1 e2 c Hfee) in P2.
  apply geb_true in P2. apply not_true_iff_false in P1. apply P1.
  apply geb_true. apply Qle_trans with (y := min_spread e2); assumption.
Qed.

Lemma raising_threshold_filters_witness :
  exists opps,
    process_prices default_engine spec_example = Ok opps /\
    process_prices (ArbitrageEngine_init 30) spec_example
    = Ok (filter (fun o => geb (net_spread o)
                               (min_spread (ArbitrageEngine_init 30))) opps).
Proof.
  eexists. split; [vm_compute; reflexivity|].
  apply (raising_threshold_filters default_engine (ArbitrageEngine_init 30)
           spec_example);
    [reflexivity|intros E; discriminate E|reflexivity].
Defined.

(** ** The number of records *)

Lemma pairs_of_length {A : Type} (l : list A) :
  (2 * List.length (pairs_of l) = List.length l * (List.length l - 1))%nat.
Proof.
  induction l as [|a l IH]; [reflexivity|].
  simpl pairs_of. rewrite length_app, length_map. simpl List.length.
  destruct l as [|b l]; [reflexivity|]. simpl List.length in *. nia.
Qed.

Lemma dict_set_length {V : Type} (d : list (string * V)) (k : string) (v : V) :
  (List.length (dict_set d k v) <= S (List.length d))%nat.
Proof.
  induction d as [|[k' v'] d IH]; simpl; [lia|].
  destruct (String.eqb k' k); simpl; lia.
Qed.

Lemma platforms_of_length (g : list MarketPrice) :
  (List.length (platforms_of g) <= List.length g)%nat.
Proof.
  unfold platforms_of.
  assert (H : forall acc : list (string * MarketPrice),
             (List.length (fold_left
                (fun platforms p => dict_set platforms (platform p) p) g acc)
              <= List.length acc + List.length g)%nat).
  { induction g as [|p g IH]; intros acc; simpl; [lia|].
    specialize (IH (dict_set acc (platform p) p)).
    pose proof (dict_set_length acc (platform p) p). lia. }
  apply (H []).
Qed.

Lemma defaultdict_append_sizes {V : Type} (d : list (string * list V))
    (k : string) (v : V) :
  list_sum (map (fun kv => List.length (snd kv)) (defaultdict_append d k v))
  = S (list_sum (map (fun kv => List.length (snd kv)) d)).
Proof.
  induction d as [|[k' l] d IH]; simpl; [reflexivity|].
  destruct (String.eqb k' k); simpl.
  - rewrite length_app. simpl. lia.
  - rewrite IH. lia.
Qed.

(** The groups split the input: their sizes add up to its length. *)
Lemma group_prices_sizes (prices : list MarketPrice) :
  list_sum (map (fun kv => List.length (snd kv)) (group_prices prices))
  = List.length prices.
Proof.
  unfold group_prices.
  assert (H : forall acc : list (string * list MarketPrice),
             list_sum (map (fun kv => List.length (snd kv))
               (fold_left (fun grouped price =>
                  defaultdict_append grouped (key_of price) price) prices acc))
             = (list_sum (map (fun kv => List.length (snd kv)) acc)
                + List.length prices)%nat).
  { induction prices as [|p prices IH]; intros acc; simpl; [lia|].
    rewrite IH, defaultdict_append_sizes. lia. }
  apply (H []).
Qed.

Lemma group_comparisons_length (item : string * list MarketPrice) :
  (2 * List.length (group_comparisons item)
   <= List.length (snd item) * (List.length (snd item) - 1))%nat.
Proof.
  destruct item as [k g]. unfold group_comparisons. simpl snd.
  destruct (List.length g <? 2)%nat; [simpl; lia|].
  rewrite length_map.
  pose proof (pairs_of_length (platforms_of g)) as Hp.
  pose proof (platforms_of_length g) as Hl. nia.
Qed.

Lemma compared_pairs_length (prices : list MarketPrice) :
  (2 * List.length (compared_pairs prices)
   <= List.length prices * (List.length prices - 1))%nat.
Proof.
  unfold compared_pairs. rewrite <- group_prices_sizes.
  induction (group_prices prices) as [|item d IH]; simpl; [lia|].
  rewrite length_app.
  pose proof (group_comparisons_length item) as Hi.
  set (a := List.length (snd item)) in *.
  set (s := list_sum (map (fun kv => List.length (snd kv)) d)) in *.
  nia.
Qed.

(** X7: a call on [n] quotes makes at most [n * (n - 1) / 2] comparisons
    and returns at most that many records. *)
Theorem at_most_all_pairs (self : ArbitrageEngine)
    (prices : list MarketPrice) (opps : list Opportunity) :
  process_prices self prices = Ok opps ->
  (2 * List.length opps <= List.length prices * (List.length prices - 1))%nat.
Proof.
  intros Hrun. apply process_prices_Ok in Hrun as [-> _].
  unfold emitted. rewrite length_map.
  pose proof (filter_length_le (passes self) (compared_pairs prices)) as Hf.
  pose proof (compared_pairs_length prices) as Hc. lia.
Qed.

Lemma at_most_all_pairs_witness :
  (2 * List.length (emitted default_engine (compared_pairs spec_example))
   <= List.length spec_example * (List.length spec_example - 1))%nat.
Proof.
  apply (at_most_all_pairs default_engine spec_example). reflexivity.
Defined.

(** ** Quotes of different events do not interact *)

Lemma defaultdict_append_app {V : Type} (acc d : list (string * list V))
    (k : string) (v : V) :
  ~ In k (keys acc) ->
  defaultdict_append (acc ++ d) k v = acc ++ defaultdict_append d k v.
Proof.
  induction acc as [|[k' l] acc IH]; simpl; intros Hk; [reflexivity|].
  destruct (String.eqb k' k) eqn:E.
  - apply String.eqb_eq in E. exfalso. apply Hk. left. exact E.
  - rewrite IH; [reflexivity|]. intros H. apply Hk. right. exact H.
Qed.

Lemma group_fold_app (l : list MarketPrice) :
  forall acc d : list (string * list MarketPrice),
    (forall p, In p l -> ~ In (key_of p) (keys acc)) ->
    fold_left (fun grouped price =>
                 defaultdict_append grouped (key_of price) price) l (acc ++ d)
    = acc ++ fold_left (fun grouped price =>
                          defaultdict_append grouped (key_of price) price) l d.
Proof.
  induction l as [|p l IH]; intros acc d Hk; simpl; [reflexivity|].
  rewrite defaultdict_append_app by (apply Hk; left; reflexivity).
  apply IH. intros q Hq. apply Hk. right. exact Hq.
Qed.

Lemma group_prices_keys (prices : list MarketPrice) (k : string) :
  In k (keys (group_prices prices)) ->
  exists p, In p prices /\ key_of p = k.
Proof.
  unfold keys. rewrite in_map_iff. intros ([k' g] & <- & Hin). simpl.
  apply group_prices_In in Hin as [-> Hne].
  destruct (quotes_of_key k' prices) as [|p g] eqn:E; [contradiction|].
  exists p. apply quotes_of_key_In. rewrite E. left. reflexivity.
Qed.

Lemma group_prices_app (l1 l2 : list MarketPrice) :
  (forall p q, In p l1 -> In q l2 -> key_of p <> key_of q) ->
  group_prices (l1 ++ l2) = group_prices l1 ++ group_prices l2.
Proof.
  intros Hdis. unfold group_prices at 1. rewrite fold_left_app.
  fold (group_prices l1).
  rewrite <- (app_nil_r (group_prices l1)) at 1.
  rewrite group_fold_app; [reflexivity|].
  intros q Hq Hin. apply group_prices_keys in Hin as (p & Hp & Hk).
  exact (Hdis p q Hp Hq Hk).
Qed.

(** X8: when no key occurs both in [l1] and in [l2], a call on [l1 ++ l2]
    does what a call on [l1] followed by a call on [l2] does: it returns
    the records of [l1] followed by those of [l2], or raises when the
    first of the two calls that raises does. *)
Theorem disjoint_keys_compose (self : ArbitrageEngine)
    (l1 l2 : list MarketPrice) :
  (forall p q, In p l1 -> In q l2 -> key_of p <> key_of q) ->
  process_prices self (l1 ++ l2)
  = (o1 <- process_prices self l1 ;;
     o2 <- process_prices self l2 ;;
     Ok (o1 ++ o2)).
Proof.
  intros Hdis. rewrite !process_prices_spec. unfold compared_pairs.
  rewrite (group_prices_app l1 l2 Hdis), flat_map_app, existsb_app.
  fold (compared_pairs l1). fold (compared_pairs l2).
  destruct (existsb zero_divisor (compared_pairs l1)); simpl; [reflexivity|].
  destruct (existsb zero_divisor (compared_pairs l2)); simpl; [reflexivity|].
  unfold emitted. rewrite filter_app, map_app. reflexivity.
Qed.

Lemma disjoint_keys_compose_witness :
  process_prices default_engine (spec_example ++ bar_quotes)
  = (o1 <- process_prices default_engine spec_example ;;
     o2 <- process_prices default_engine bar_quotes ;;
     Ok (o1 ++ o2)).
Proof.
  apply (disjoint_keys_compose default_engine spec_example bar_quotes).
  intros p q [<-|[<-|[]]] [<-|[<-|[]]]; discriminate.
Defined.

(** ** Fields the engine does not read *)

Section SameKey.
Variable f : MarketPrice -> MarketPrice.
Hypothesis f_key : forall p, key_of (f p) = key_of p.
Hypothesis f_platform : forall p, platform (f p) = platform p.

Lemma group_prices_same_key (prices : list MarketPrice) :
  group_prices (map f prices) = map_values (map f) (group_prices prices).
Proof.
  unfold group_prices.
  change (@nil (string * list MarketPrice))
    with (map_values (map f) (@nil (string * list MarketPrice))) at 1.
  generalize (@nil (string * list MarketPrice)) as acc.
  induction prices as [|p prices IH]; intros acc; simpl; [reflexivity|].
  rewrite f_key, <- defaultdict_append_map_values. apply IH.
Qed.

Lemma platforms_of_same_key (g : list MarketPrice) :
  platforms_of (map f g) = map_values f (platforms_of g).
Proof.
  unfold platforms_of.
  change (@nil (string * MarketPrice))
    with (map_values f (@nil (string * MarketPrice))) at 1.
  generalize (@nil (string * MarketPrice)) as acc.
  induction g as [|p g IH]; intros acc; simpl; [reflexivity|].
  rewrite f_platform, <- dict_set_map_values. apply IH.
Qed.

Lemma compared_pairs_same_key (prices : list MarketPrice) :
  compared_pairs (map f prices)
  = map (map_comparison f) (compared_pairs prices).
Proof.
  unfold compared_pairs. rewrite group_prices_same_key. unfold map_values.
  induction (group_prices prices) as [|[k g] d IH]; [reflexivity|].
  cbn [map flat_map]. rewrite map_app, IH. f_equal.
  unfold group_comparisons. rewrite length_map.
  destruct (List.length g <? 2)%nat; [reflexivity|].
  rewrite platforms_of_same_key. unfold map_values.
  rewrite pairs_of_map, !map_map.
  apply map_ext. intros [[n1 p1] [n2 p2]]. reflexivity.
Qed.
End SameKey.

(** X9: the result depends on a quote only through its platform, its
    outcome, its bid, its ask and its event name up to letter case:
    changing [event_id], [timestamp] or the case of [event_name] in any
    quotes changes neither the returned list nor the exception. *)
Theorem unread_fields_ignored (self : ArbitrageEngine)
    (f : MarketPrice -> MarketPrice) (prices : list MarketPrice) :
  (forall p, platform (f p) = platform p /\
             lower (event_name (f p)) = lower (event_name p) /\
             outcome (f p) = outcome p /\
             bid (f p) = bid p /\ ask (f p) = ask p) ->
  process_prices self (map f prices) = process_prices self prices.
Proof.
  intros Hf.
  assert (Hkey : forall p, key_of (f p) = key_of p).
  { intros p. unfold key_of. destruct (Hf p) as (_ & -> & -> & _).
    reflexivity. }
  assert (Hplat : forall p, platform (f p) = platform p)
    by (intros p; apply Hf).
  assert (Hmid : forall p, mid (f p) = mid p).
  { intros p. unfold mid. destruct (Hf p) as (_ & _ & _ & -> & ->).
    reflexivity. }
  rewrite !process_prices_spec, (compared_pairs_same_key f Hkey Hplat).
  assert (Hz : forall c, zero_divisor (map_comparison f c) = zero_divisor c).
  { intros [[k [n1 p1]] [n2 p2]].
    unfold zero_divisor, divisor_of, buy_mid. simpl. rewrite !Hmid.
    reflexivity. }
  assert (Ho : forall c,
             opportunity_of self (map_comparison f c) = opportunity_of self c).
  { intros [[k [n1 p1]] [n2 p2]].
    unfold opportunity_of, buy_mid, sell_mid, buy_name, sell_name. simpl.
    rewrite !Hmid. reflexivity. }
  assert (Hp : forall c, passes self (map_comparison f c) = passes self c).
  { intros c. unfold passes. rewrite Ho. reflexivity. }
  induction (compared_pairs prices) as [|c cs IH]; [reflexivity|].
  unfold emitted in *. cbn [map existsb filter]. rewrite Hz, Hp.
  destruct (zero_divisor c); [reflexivity|]. cbn [orb].
  destruct (existsb zero_divisor (map (map_comparison f) cs)),
           (existsb zero_divisor cs); try discriminate IH; [reflexivity|].
  injection IH as IH.
  destruct (passes self c); cbn [map]; rewrite ?Ho, IH; reflexivity.
Qed.

Lemma unread_fields_ignored_witness :
  process_prices default_engine (map restamp spec_example)
  = process_prices default_engine spec_example.
Proof.
  apply (unread_fields_ignored default_engine restamp spec_example).
  intros p. repeat split.
Defined.

(** ** Every two platforms of a key, once *)

Lemma pairs_of_complete {A : Type} (l : list A) (a b : A) :
  In a l -> In b l -> a <> b ->
  In (a, b) (pairs_of l) \/ In (b, a) (pairs_of l).
Proof.
  induction l as [|x l IH]; simpl; [contradiction|].
  intros [->|Ha] [->|Hb] Hne.
  - contradiction.
  - left. apply in_or_app. left. apply in_map. exact Hb.
  - right. apply in_or_app. left. apply in_map. exact Ha.
  - destruct (IH Ha Hb Hne) as [H|H]; [left|right];
      apply in_or_app; right; exact H.
Qed.

Lemma NoDup_map_pair {A : Type} (x : A) (l : list A) :
  NoDup l -> NoDup (map (pair x) l).
Proof.
  induction 1 as [|a l Ha Hl IH]; simpl; constructor; [|exact IH].
  intros H. apply in_map_iff in H as (z & [= <-] & Hz). exact (Ha Hz).
Qed.

Lemma pairs_of_NoDup {A : Type} (l : list A) :
  NoDup l ->
  NoDup (pairs_of l) /\
  forall a b, In (a, b) (pairs_of l) -> ~ In (b, a) (pairs_of l).
Proof.
  induction l as [|x l IH]; intros Hnd; simpl.
  - split; [constructor|intros a b []].
  - inversion Hnd as [|? ? Hx Hl]; subst.
    destruct (IH Hl) as [IHnd IHas].
    assert (Hleft : forall a b, In (a, b) (map (pair x) l) -> a = x /\ In b l).
    { intros a b H. apply in_map_iff in H as (z & [= <- <-] & Hz).
      split; [reflexivity|exact Hz]. }
    split.
    + apply NoDup_app.
      * apply NoDup_map_pair. exact Hl.
      * exact IHnd.
      * intros [a b] H1 H2. apply Hleft in H1 as [-> _].
        apply pairs_of_In in H2 as [H2 _]. exact (Hx H2).
    + intros a b H1 H2.
      apply in_app_or in H1 as [H1|H1]; apply in_app_or in H2 as [H2|H2].
      * apply Hleft in H1 as [-> Hb]. apply Hleft in H2 as [-> _].
        exact (Hx Hb).
      * apply Hleft in H1 as [-> _].
        apply pairs_of_In in H2 as [_ H2]. exact (Hx H2).
      * apply Hleft in H2 as [-> _].
        apply pairs_of_In in H1 as [_ H1]. exact (Hx H1).
      * exact (IHas a b H1 H2).
Qed.

Lemma NoDup_map_inj {A B : Type} (f : A -> B) (l : list A) :
  (forall x y, f x = f y -> x = y) -> NoDup l -> NoDup (map f l).
Proof.
  intros Hinj. induction 1 as [|a l Ha Hl IH]; simpl; constructor; [|exact IH].
  intros H. apply in_map_iff in H as (z & E & Hz).
  apply Hinj in E. subst z. exact (Ha Hz).
Qed.

Lemma two_distinct_length {A : Type} (l : list A) (a b : A) :
  In a l -> In b l -> a <> b -> (2 <= List.length l)%nat.
Proof.
  destruct l as [|x [|y l]].
  - intros [].
  - intros [<-|[]] [<-|[]] H. contradiction.
  - intros _ _ _. simpl. lia.
Qed.

Lemma last_of_platform_exists (g : list MarketPrice) (p : MarketPrice) :
  In p g -> exists p', last_of_platform (platform p) g = Some p'.
Proof.
  intros Hp. unfold last_of_platform.
  destruct (find (fun q => String.eqb (platform q) (platform p)) (rev g))
    as [p'|] eqn:E; [exists p'; reflexivity|].
  apply find_none with (x := p) in E; [|apply in_rev in Hp; exact Hp].
  rewrite String.eqb_refl in E. discriminate E.
Qed.

Lemma compared_pairs_intro (prices : list MarketPrice) (k : string)
    (e1 e2 : string * MarketPrice) :
  (2 <= List.length (quotes_of_key k prices))%nat ->
  In (e1, e2) (pairs_of (platforms_of (quotes_of_key k prices))) ->
  In (k, e1, e2) (compared_pairs prices).
Proof.
  intros Hlen Hin. unfold compared_pairs. apply in_flat_map.
  exists (k, quotes_of_key k prices). split.
  - apply group_prices_In. split; [reflexivity|].
    intros E. rewrite E in Hlen. simpl in Hlen. lia.
  - unfold group_comparisons.
    destruct (List.length (quotes_of_key k prices) <? 2)%nat eqn:E.
    + apply Nat.ltb_lt in E. lia.
    + apply in_map_iff. exists (e1, e2). split; [reflexivity|exact Hin].
Qed.

Lemma group_comparisons_names (k : string) (g : list MarketPrice) :
  forall x, In x (map comparison_names (group_comparisons (k, g))) <->
            exists a b, x = (k, a, b) /\
                        In (a, b) (pairs_of (keys (platforms_of g))) /\
                        (2 <= List.length g)%nat.
Proof.
  intros x. unfold group_comparisons, keys. rewrite pairs_of_map.
  destruct (List.length g <? 2)%nat eqn:E.
  - apply Nat.ltb_lt in E. simpl. split; [intros []|].
    intros (a & b & _ & _ & H). lia.
  - apply Nat.ltb_ge in E. rewrite map_map, in_map_iff. split.
    + intros ([e1 e2] & <- & Hin). exists (fst e1), (fst e2).
      split; [reflexivity|]. split; [|exact E].
      apply in_map_iff. exists (e1, e2). split; [reflexivity|exact Hin].
    + intros (a & b & -> & Hin & _).
      apply in_map_iff in Hin as ([e1 e2] & [= <- <-] & Hin).
      exists (e1, e2). split; [reflexivity|exact Hin].
Qed.

Lemma group_comparisons_names_NoDup (k : string) (g : list MarketPrice) :
  NoDup (map comparison_names (group_comparisons (k, g))).
Proof.
  unfold group_comparisons.
  destruct (List.length g <? 2)%nat; [constructor|].
  assert (E : map comparison_names
                (map (fun '(e1, e2) => (k, e1, e2))
                     (pairs_of (platforms_of g)))
              = map (fun ab : string * string => (k, fst ab, snd ab))
                    (pairs_of (keys (platforms_of g)))).
  { unfold keys. rewrite pairs_of_map, !map_map.
    apply map_ext. intros [e1 e2]. reflexivity. }
  rewrite E. apply NoDup_map_inj.
  - intros [a b] [a' b'] H. simpl in H. congruence.
  - apply pairs_of_NoDup, platforms_of_NoDup.
Qed.

Lemma flat_comparisons_names (d : list (string * list MarketPrice)) :
  forall x, In x (map comparison_names (flat_map group_comparisons d)) ->
            exists g a b, In (fst (fst x), g) d /\ x = (fst (fst x), a, b) /\
                          In (a, b) (pairs_of (keys (platforms_of g))).
Proof.
  induction d as [|[k g] d IH]; intros x; simpl; [intros []|].
  rewrite map_app, in_app_iff. intros [H|H].
  - apply group_comparisons_names in H as (a & b & -> & Hin & _).
    exists g, a, b. simpl. split; [left; reflexivity|].
    split; [reflexivity|exact Hin].
  - destruct (IH x H) as (g' & a & b & Hg & Hx & Hin).
    exists g', a, b. split; [right; exact Hg|]. split; assumption.
Qed.

Lemma flat_comparisons_NoDup (d : list (string * list MarketPrice)) :
  NoDup (keys d) ->
  NoDup (map comparison_names (flat_map group_comparisons d)).
Proof.
  induction d as [|[k g] d IH]; simpl; intros Hnd; [constructor|].
  inversion Hnd as [|? ? Hk Hd]; subst.
  rewrite map_app. apply NoDup_app.
  - apply group_comparisons_names_NoDup.
  - apply IH. exact Hd.
  - intros x H1 H2.
    apply group_comparisons_names in H1 as (a & b & -> & _).
    apply flat_comparisons_names in H2 as (g' & _ & _ & Hg & _).
    simpl in Hg. apply Hk. unfold keys.
    change k with (fst (k, g')). apply in_map. exact Hg.
Qed.

Lemma comparison_names_asym (prices : list MarketPrice)
    (k n1 n2 : string) :
  In (k, n1, n2) (map comparison_names (compared_pairs prices)) ->
  ~ In (k, n2, n1) (map comparison_names (compared_pairs prices)).
Proof.
  intros H1 H2. unfold compared_pairs in H1, H2.
  apply flat_comparisons_names in H1 as (g1 & a1 & b1 & G1 & E1 & P1).
  apply flat_comparisons_names in H2 as (g2 & a2 & b2 & G2 & E2 & P2).
  simpl in *. injection E1 as <- <-. injection E2 as <- <-.
  assert (g2 = g1).
  { apply In_dict_get in G1, G2; try apply group_prices_NoDup. congruence. }
  subst g2.
  exact (proj2 (pairs_of_NoDup _ (platforms_of_NoDup g1)) _ _ P1 P2).
Qed.

Lemma NoDup_map_eq {A B : Type} (f : A -> B) (l : list A) (x y : A) :
  NoDup (map f l) -> In x l -> In y l -> f x = f y -> x = y.
Proof.
  induction l as [|a l IH]; simpl; intros Hnd Hx Hy E; [destruct Hx|].
  inversion Hnd as [|? ? Ha Hl]; subst.
  destruct Hx as [<-|Hx], Hy as [<-|Hy].
  - reflexivity.
  - exfalso. apply Ha. rewrite E. apply in_map. exact Hy.
  - exfalso. apply Ha. rewrite <- E. apply in_map. exact Hx.
  - apply IH; assumption.
Qed.

Lemma filter_map_filter_unique {A B : Type} (g : A -> B) (f : B -> bool)
    (pass : A -> bool) (l : list A) (c : A) :
  NoDup l -> In c l -> f (g c) = true ->
  (forall x, In x l -> f (g x) = true -> x = c) ->
  filter f (map g (filter pass l)) = if pass c then [g c] else [].
Proof.
  assert (Hnone : forall l' : list A,
            (forall x, In x l' -> f (g x) = false) ->
            filter f (map g (filter pass l')) = []).
  { induction l' as [|a l' IH]; simpl; intros H; [reflexivity|].
    destruct (pass a); simpl.
    - rewrite (H a (or_introl eq_refl)). apply IH.
      intros x Hx. apply H. right. exact Hx.
    - apply IH. intros x Hx. apply H. right. exact Hx. }
  induction l as [|a l IH]; simpl; intros Hnd Hc Hfc Hu; [destruct Hc|].
  inversion Hnd as [|? ? Ha Hl]; subst.
  destruct Hc as [->|Hc].
  - assert (Hrest : filter f (map g (filter pass l)) = []).
    { apply Hnone. intros x Hx. destruct (f (g x)) eqn:E; [|reflexivity].
      exfalso. apply Ha. rewrite <- (Hu x (or_intror Hx) E). exact Hx. }
    destruct (pass c); simpl; [rewrite Hfc|]; rewrite Hrest; reflexivity.
  - assert (Hfa : f (g a) = false).
    { destruct (f (g a)) eqn:E; [|reflexivity].
      exfalso. apply Ha. rewrite (Hu a (or_introl eq_refl) E). exact Hc. }
    assert (IH' : filter f (map g (filter pass l))
                  = if pass c then [g c] else []).
    { apply IH; try assumption. intros x Hx. apply Hu. right. exact Hx. }
    destruct (pass a); simpl; [rewrite Hfa|]; exact IH'.
Qed.

Lemma record_between_names (self : ArbitrageEngine) (k a b : string)
    (c : comparison) :
  record_between k a b (opportunity_of self c) = true <->
  comparison_names c = (k, a, b) \/ comparison_names c = (k, b, a).
Proof.
  destruct c as [[k' [n1 p1]] [n2 p2]].
  unfold record_between, opportunity_of, buy_name, sell_name. simpl.
  destruct (gtb (mid p1) (mid p2)); simpl;
    rewrite andb_true_iff, orb_true_iff, !andb_true_iff, !String.eqb_eq;
    split.
  - intros [-> [[-> ->]|[-> ->]]]; [right|left]; reflexivity.
  - intros [[= -> -> ->]|[= -> -> ->]]; split; auto.
  - intros [-> [[-> ->]|[-> ->]]]; [left|right]; reflexivity.
  - intros [[= -> -> ->]|[= -> -> ->]]; split; auto.
Qed.

(** X10: on a call that returns, two quotes of the input with the same
    key and different platforms make their two platforms meet exactly
    once: the last quotes of the two platforms under that key are
    compared, in one order or the other, without a division by zero, and
    the returned list holds, for that key and these two platforms, the
    record of this comparison when it reaches the threshold and nothing
    otherwise.  On every call, no key and pair of platforms is visited
    twice, in either order. *)
Theorem every_two_platforms_once (self : ArbitrageEngine)
    (prices : list MarketPrice) :
  (forall opps p q,
     process_prices self prices = Ok opps ->
     In p prices -> In q prices ->
     key_of p = key_of q -> platform p <> platform q ->
     exists p' q' c,
       last_of_platform (platform p) (quotes_of_key (key_of p) prices)
       = Some p' /\
       last_of_platform (platform q) (quotes_of_key (key_of p) prices)
       = Some q' /\
       (c = (key_of p, (platform p, p'), (platform q, q')) \/
        c = (key_of p, (platform q, q'), (platform p, p'))) /\
       In c (compared_pairs prices) /\
       ~ divisor_of c == 0 /\
       filter (record_between (key_of p) (platform p) (platform q)) opps
       = if passes self c then [opportunity_of self c] else []) /\
  NoDup (map comparison_names (compared_pairs prices)) /\
  (forall k n1 n2,
     In (k, n1, n2) (map comparison_names (compared_pairs prices)) ->
     ~ In (k, n2, n1) (map comparison_names (compared_pairs prices))).
Proof.
  assert (Hnd : NoDup (map comparison_names (compared_pairs prices)))
    by apply flat_comparisons_NoDup, group_prices_NoDup.
  split; [|split; [exact Hnd|intros k n1 n2; apply comparison_names_asym]].
  intros opps p q Hok Hp Hq Hk Hne.
  set (g := quotes_of_key (key_of p) prices).
  assert (Hpg : In p g)
    by (apply quotes_of_key_In; split; [exact Hp|reflexivity]).
  assert (Hqg : In q g)
    by (apply quotes_of_key_In; split; [exact Hq|symmetry; exact Hk]).
  destruct (last_of_platform_exists g p Hpg) as [p' Ep].
  destruct (last_of_platform_exists g q Hqg) as [q' Eq].
  assert (Hlen : (2 <= List.length g)%nat).
  { apply (two_distinct_length g p q Hpg Hqg). intros E. apply Hne.
    rewrite E. reflexivity. }
  pose proof Ep as Ip. pose proof Eq as Iq.
  apply platforms_of_In in Ip, Iq.
  assert (Hd : (platform p, p') <> (platform q, q')) by congruence.
  assert (Hc : exists c,
             (c = (key_of p, (platform p, p'), (platform q, q')) \/
              c = (key_of p, (platform q, q'), (platform p, p'))) /\
             In c (compared_pairs prices)).
  { destruct (pairs_of_complete _ _ _ Ip Iq Hd) as [H|H];
      eexists; (split; [|apply compared_pairs_intro; eassumption]);
      [left|right]; reflexivity. }
  destruct Hc as (c & Hc & Hin).
  exists p', q', c. split; [exact Ep|]. split; [exact Eq|].
  split; [exact Hc|]. split; [exact Hin|].
  rewrite process_prices_spec in Hok.
  destruct (existsb zero_divisor (compared_pairs prices)) eqn:Ez;
    [discriminate Hok|].
  injection Hok as <-. split.
  - intros Hz. apply not_true_iff_false in Ez. apply Ez.
    apply existsb_exists. exists c. split; [exact Hin|].
    apply Qeq_bool_iff. exact Hz.
  - unfold emitted. apply filter_map_filter_unique.
    + exact (NoDup_map_inv _ _ Hnd).
    + exact Hin.
    + apply record_between_names.
      destruct Hc as [-> | ->]; [left|right]; reflexivity.
    + intros x Hx Hf. apply record_between_names in Hf.
      assert (Hcn : comparison_names c = (key_of p, platform p, platform q)
                    \/ comparison_names c
                       = (key_of p, platform q, platform p))
        by (destruct Hc as [-> | ->]; [left|right]; reflexivity).
      destruct Hf as [Hf|Hf], Hcn as [Hcn|Hcn];
        try (apply (NoDup_map_eq comparison_names _ x c Hnd Hx Hin);
             congruence);
        exfalso;
        apply (comparison_names_asym prices (key_of p) (platform p)
                 (platform q)).
      * rewrite <- Hf. apply in_map. exact Hx.
      * rewrite <- Hcn. apply in_map. exact Hin.
      * rewrite <- Hcn. apply in_map. exact Hin.
      * rewrite <- Hf. apply in_map. exact Hx.
Qed.

Lemma every_two_platforms_once_witness :
  exists p' q' c,
    last_of_platform "Kalshi" (quotes_of_key "rain in nyc|YES" spec_example)
    = Some p' /\
    last_of_platform "Polymarket" (quotes_of_key "rain in nyc|YES" spec_example)
    = Some q' /\
    (c = ("rain in nyc|YES", ("Kalshi", p'), ("Polymarket", q')) \/
     c = ("rain in nyc|YES", ("Polymarket", q'), ("Kalshi", p'))) /\
    In c (compared_pairs spec_example) /\
    ~ divisor_of c == 0 /\
    filter (record_between "rain in nyc|YES" "Kalshi" "Polymarket")
           (emitted default_engine (compared_pairs spec_example))
    = if passes default_engine c then [opportunity_of default_engine c]
      else [].
Proof.
  apply (proj1 (every_two_platforms_once default_engine spec_example)
           (emitted default_engine (compared_pairs spec_example))
           kalshi_041 polymarket_051).
  - reflexivity.
  - left. reflexivity.
  - right. left. reflexivity.
  - reflexivity.
  - discriminate.
Defined.

(** ** A wider gap between the two prices *)

Lemma net_of_monotone (self : ArbitrageEngine) (b s b' s' : Q) :
  0 < b' -> b' <= b -> b <= s -> s <= s' ->
  net_of self b s <= net_of self b' s'.
Proof.
  intros Hb' Hbb Hbs Hss. unfold net_of.
  assert (Hb : 0 < b) by lra.
  assert (Hnz : ~ b == 0) by lra.
  assert (Hnz' : ~ b' == 0) by lra.
  pose proof (Qmult_div_r (s - b) b Hnz) as Hq.
  pose proof (Qmult_div_r (s' - b') b' Hnz') as Hq'.
  set (q := (s - b) / b) in *. set (q' := (s' - b') / b') in *.
  assert (H0 : 0 <= q) by nra.
  assert (H1 : q * b' <= q * b) by nra.
  assert (H2 : 0 <= (q' - q) * b') by nra.
  assert (H3 : q <= q') by nra.
  lra.
Qed.

(** X11: the decision of one comparison is monotone in the gap between
    the two prices: when a pair with buy price [b] and sell price [s] has
    its record appended, so has, on the same engine, every pair whose buy
    price is positive and at most [b] and whose sell price is at least
    [s]. *)
Theorem wider_gap_still_emitted (self : ArbitrageEngine) (k k' : string)
    (e1 e2 e1' e2' : string * MarketPrice) (opps opps' : list Opportunity) :
  0 < buy_mid (snd e1') (snd e2') ->
  buy_mid (snd e1') (snd e2') <= buy_mid (snd e1) (snd e2) ->
  sell_mid (snd e1) (snd e2) <= sell_mid (snd e1') (snd e2') ->
  (exists o, compare_pair self k e1 e2 opps = Ok (opps ++ [o])) ->
  exists o', compare_pair self k' e1' e2' opps' = Ok (opps' ++ [o']) /\
             buy_price o' = buy_mid (snd e1') (snd e2') /\
             sell_price o' = sell_mid (snd e1') (snd e2').
Proof.
  intros Hb' Hbb Hss [o Ho].
  change (compare_pair self k e1 e2 opps)
    with (compare self (k, e1, e2) opps) in Ho.
  change (compare_pair self k' e1' e2' opps')
    with (compare self (k', e1', e2') opps').
  rewrite compare_unfold in *.
  rewrite (positive_not_zero_divisor (k', e1', e2')) by exact Hb'.
  rewrite (positive_not_zero_divisor (k, e1, e2)) in Ho
    by (simpl; apply (Qlt_le_trans _ _ _ Hb' Hbb)).
  destruct (passes self (k, e1, e2)) eqn:P.
  - assert (P' : passes self (k', e1', e2') = true).
    { unfold passes in *. apply geb_true. apply geb_true in P.
      refine (Qle_trans _ _ _ P _). simpl.
      apply net_of_monotone; try assumption. apply buy_le_sell. }
    rewrite P'. eexists. split; [reflexivity|]. split; reflexivity.
  - injection Ho as Ho. exfalso. exact (app_one_neq _ _ Ho).
Qed.

Lemma wider_gap_still_emitted_witness :
  exists o',
    compare_pair default_engine "rain in nyc|YES"
      ("Kalshi", kalshi_041) ("Polymarket", polymarket_061) []
    = Ok ([] ++ [o']) /\
    buy_price o' = buy_mid kalshi_041 polymarket_061 /\
    sell_price o' = sell_mid kalshi_041 polymarket_061.
Proof.
  apply (wider_gap_still_emitted default_engine
           "rain in nyc|YES" "rain in nyc|YES"
           ("Kalshi", kalshi_041) ("Polymarket", polymarket_051)
           ("Kalshi", kalshi_041) ("Polymarket", polymarket_061) [] []).
  - reflexivity.
  - vm_compute. intros H. discriminate H.
  - vm_compute. intros H. discriminate H.
  - eexists. vm_compute. reflexivity.
Defined.

(** * The engine on Python objects: purity

    The method run on a heap does what the function [process_prices]
    computes, and writes only to objects it allocated. *)

(** ** Lists of objects *)

Lemma nth_error_at {A : Type} (l1 l2 : list A) (x : A) (a : nat) :
  a = List.length l1 -> nth_error (l1 ++ x :: l2) a = Some x.
Proof.
  intros ->. rewrite nth_error_app2, Nat.sub_diag by lia. reflexivity.
Qed.

Lemma update_at (l1 l2 : heap) (x o : object) (a : addr) :
  a = List.length l1 -> update a o (l1 ++ x :: l2) = l1 ++ o :: l2.
Proof.
  intros ->. induction l1 as [|y l1 IH]; simpl; [reflexivity|].
  rewrite IH. reflexivity.
Qed.

Lemma update_length (a : addr) (o : object) (h : heap) :
  List.length (update a o h) = List.length h.
Proof.
  revert a. induction h as [|x h IH]; intros [|a]; simpl; try reflexivity.
  rewrite IH. reflexivity.
Qed.

Lemma nth_error_update_other (a b : addr) (o : object) (h : heap) :
  a <> b -> nth_error (update a o h) b = nth_error h b.
Proof.
  revert a b. induction h as [|x h IH]; intros [|a] [|b] H; simpl;
    try reflexivity; [contradiction|].
  apply IH. lia.
Qed.

Lemma nth_error_update_same (a : addr) (o : object) (h : heap) :
  (a < List.length h)%nat -> nth_error (update a o h) a = Some o.
Proof.
  revert a. induction h as [|x h IH]; intros [|a] H; simpl in *;
    try lia; [reflexivity|].
  apply IH. lia.
Qed.

(** ** Statements on a known heap *)

Lemma run_bind_returns {A B : Type} (c : Run A) (k : A -> Run B)
    (h h' : heap) (a : A) :
  c h = (Returns a, h') -> run_bind c k h = k a h'.
Proof. intros H. unfold run_bind. rewrite H. reflexivity. Qed.

Lemma run_bind_assoc {A B C : Type} (c : Run A) (k1 : A -> Run B)
    (k2 : B -> Run C) (h : heap) :
  run_bind (run_bind c k1) k2 h
  = run_bind c (fun a => run_bind (k1 a) k2) h.
Proof. unfold run_bind. destruct (c h) as [[a|s] h']; reflexivity. Qed.

Lemma run_bind_stops {A B : Type} (c : Run A) (k : A -> Run B)
    (h h' : heap) (s : signal) :
  c h = (Stops s, h') -> run_bind c k h = (Stops s, h').
Proof. intros H. unfold run_bind. rewrite H. reflexivity. Qed.

Lemma load_at (h : heap) (a : addr) (o : object) :
  nth_error h a = Some o -> load (VRef a) h = (Returns o, h).
Proof. intros H. unfold load. rewrite H. reflexivity. Qed.

Lemma store_at (h : heap) (a : addr) (o o' : object) :
  nth_error h a = Some o' ->
  store (VRef a) o h = (Returns tt, update a o h).
Proof.
  intros H. unfold store.
  assert (Hlt : (a < List.length h)%nat)
    by (apply nth_error_Some; rewrite H; discriminate).
  apply Nat.ltb_lt in Hlt. rewrite Hlt. reflexivity.
Qed.

Lemma load_list_at (h : heap) (a : addr) (items : list value) :
  nth_error h a = Some (PyList items) ->
  load_list (VRef a) h = (Returns items, h).
Proof.
  intros H. unfold load_list, run_bind. rewrite (load_at _ _ _ H).
  reflexivity.
Qed.

Lemma load_dict_at (h : heap) (a : addr) (entries : list (string * value)) :
  nth_error h a = Some (PyDict entries) ->
  load_dict (VRef a) h = (Returns entries, h).
Proof.
  intros H. unfold load_dict, run_bind. rewrite (load_at _ _ _ H).
  reflexivity.
Qed.

Lemma quote_at_Some (h : heap) (v : value) (p : MarketPrice) :
  quote_at h v = Some p <->
  exists a, v = VRef a /\ nth_error h a = Some (Quote p).
Proof.
  unfold quote_at, load. split.
  - destruct v as [x|s|a|v1 v2]; try discriminate.
    destruct (nth_error h a) as [[e|q|l|d]|] eqn:E; try discriminate.
    intros [= ->]. exists a. split; [reflexivity|exact E].
  - intros (a & -> & E). rewrite E. reflexivity.
Qed.

Lemma engine_at_Some (h : heap) (v : value) (e : ArbitrageEngine) :
  engine_at h v = Some e <->
  exists a, v = VRef a /\ nth_error h a = Some (Engine e).
Proof.
  unfold engine_at, load. split.
  - destruct v as [x|s|a|v1 v2]; try discriminate.
    destruct (nth_error h a) as [[e'|q|l|d]|] eqn:E; try discriminate.
    intros [= ->]. exists a. split; [reflexivity|exact E].
  - intros (a & -> & E). rewrite E. reflexivity.
Qed.

Lemma quote_attr_at {A : Type} (field : MarketPrice -> A) (h : heap)
    (v : value) (p : MarketPrice) :
  quote_at h v = Some p -> quote_attr field v h = (Returns (field p), h).
Proof.
  intros H. apply quote_at_Some in H as (a & -> & E).
  unfold quote_attr, run_bind. rewrite (load_at _ _ _ E). reflexivity.
Qed.

Lemma engine_attr_at {A : Type} (field : ArbitrageEngine -> A) (h : heap)
    (v : value) (e : ArbitrageEngine) :
  engine_at h v = Some e -> engine_attr field v h = (Returns (field e), h).
Proof.
  intros H. apply engine_at_Some in H as (a & -> & E).
  unfold engine_attr, run_bind. rewrite (load_at _ _ _ E). reflexivity.
Qed.

Lemma list_append_at (h : heap) (a : addr) (items : list value) (x : value) :
  nth_error h a = Some (PyList items) ->
  list_append (VRef a) x h
  = (Returns tt, update a (PyList (items ++ [x])) h).
Proof.
  intros H. unfold list_append.
  rewrite (run_bind_returns _ _ _ _ _ (load_list_at _ _ _ H)).
  apply (store_at _ _ _ _ H).
Qed.

Lemma dict_setitem_at (h : heap) (a : addr) (entries : list (string * value))
    (k : string) (v : value) :
  nth_error h a = Some (PyDict entries) ->
  dict_setitem (VRef a) k v h
  = (Returns tt, update a (PyDict (dict_set entries k v)) h).
Proof.
  intros H. unfold dict_setitem.
  rewrite (run_bind_returns _ _ _ _ _ (load_dict_at _ _ _ H)).
  apply (store_at _ _ _ _ H).
Qed.

Lemma list_len_at (h : heap) (a : addr) (items : list value) :
  nth_error h a = Some (PyList items) ->
  list_len (VRef a) h = (Returns (List.length items), h).
Proof.
  intros H. unfold list_len.
  rewrite (run_bind_returns _ _ _ _ _ (load_list_at _ _ _ H)). reflexivity.
Qed.

(** ** A loop over a list that its body leaves alone *)

Section ListLoop.
Context {S : Type}.
Variable shape : S -> heap.
Variable step : S -> value -> S.
Variable l : value.
Variable vs : list value.
Variable body : value -> Run unit.
Hypothesis list_kept : forall s, load_list l (shape s) = (Returns vs, shape s).
Hypothesis body_step :
  forall s v, In v vs -> body v (shape s) = (Returns tt, shape (step s v)).

Lemma for_in_fold (rest : list value) :
  forall (done : list value) (s : S) (fuel : nat),
    vs = done ++ rest -> (List.length rest < fuel)%nat ->
    for_in fuel l (List.length done) body (shape s)
    = (Returns tt, shape (fold_left step rest s)).
Proof.
  induction rest as [|v rest IH]; intros done s fuel Hvs Hfuel;
    (destruct fuel as [|fuel]; [simpl in Hfuel; lia|]);
    simpl; unfold run_bind; rewrite list_kept.
  - rewrite (proj2 (nth_error_None vs (List.length done))); [reflexivity|].
    subst vs. rewrite length_app. simpl. lia.
  - assert (Hv : nth_error vs (List.length done) = Some v)
      by (rewrite Hvs; apply nth_error_at; reflexivity).
    rewrite Hv, body_step by (subst vs; apply in_elt).
    replace (Datatypes.S (List.length done))
      with (List.length (done ++ [v])) by (rewrite length_app; simpl; lia).
    apply IH.
    + rewrite <- app_assoc. exact Hvs.
    + simpl in Hfuel. lia.
Qed.
End ListLoop.

(** ** The first loop *)

Lemma defaultdict_append_split {V : Type} (d : list (string * list V))
    (k : string) (v : V) :
  (~ In k (keys d) /\ defaultdict_append d k v = d ++ [(k, [v])]) \/
  (exists d1 l d2, d = d1 ++ (k, l) :: d2 /\ ~ In k (keys d1) /\
                   defaultdict_append d k v = d1 ++ (k, l ++ [v]) :: d2).
Proof.
  induction d as [|[k' l] d IH]; simpl.
  - left. split; [intros []|reflexivity].
  - destruct (String.eqb k' k) eqn:E.
    + apply String.eqb_eq in E. subst k'. right.
      exists [], l, d. split; [reflexivity|]. split; [intros []|reflexivity].
    + apply String.eqb_neq in E. destruct IH as [[Hn ->]|IH].
      * left. split; [|reflexivity]. intros [H|H]; [exact (E H)|exact (Hn H)].
      * destruct IH as (d1 & l' & d2 & -> & Hn & ->). right.
        exists ((k', l) :: d1), l', d2. split; [reflexivity|].
        split; [|reflexivity]. intros [H|H]; [exact (E H)|exact (Hn H)].
Qed.

Lemma entries_from_keys (a : addr) (G : list (string * list value)) :
  keys (entries_from a G) = keys G.
Proof.
  revert a. induction G as [|[k l] G IH]; intros a; simpl; [reflexivity|].
  rewrite IH. reflexivity.
Qed.

Lemma entries_from_app (a : addr) (G1 G2 : list (string * list value)) :
  entries_from a (G1 ++ G2)
  = entries_from a G1 ++ entries_from (a + List.length G1)%nat G2.
Proof.
  revert a. induction G1 as [|[k l] G1 IH]; intros a; simpl.
  - rewrite Nat.add_0_r. reflexivity.
  - rewrite IH. do 3 f_equal. lia.
Qed.

Lemma dict_get_absent {V : Type} (d : list (string * V)) (k : string) :
  ~ In k (keys d) -> dict_get d k = None.
Proof.
  induction d as [|[k' v] d IH]; simpl; intros H; [reflexivity|].
  destruct (String.eqb k' k) eqn:E.
  - apply String.eqb_eq in E. exfalso. apply H. left. exact E.
  - apply IH. intros Hin. apply H. right. exact Hin.
Qed.

Lemma dict_get_first {V : Type} (d1 d2 : list (string * V)) (k : string)
    (v : V) :
  ~ In k (keys d1) -> dict_get (d1 ++ (k, v) :: d2) k = Some v.
Proof.
  induction d1 as [|[k' v'] d1 IH]; simpl; intros H.
  - rewrite String.eqb_refl. reflexivity.
  - destruct (String.eqb k' k) eqn:E.
    + apply String.eqb_eq in E. exfalso. apply H. left. exact E.
    + apply IH. intros Hin. apply H. right. exact Hin.
Qed.

Lemma dict_set_absent {V : Type} (d : list (string * V)) (k : string)
    (v : V) :
  ~ In k (keys d) -> dict_set d k v = d ++ [(k, v)].
Proof.
  induction d as [|[k' v'] d IH]; simpl; intros H; [reflexivity|].
  destruct (String.eqb k' k) eqn:E.
  - apply String.eqb_eq in E. exfalso. apply H. left. exact E.
  - rewrite IH; [reflexivity|]. intros Hin. apply H. right. exact Hin.
Qed.

Section FirstLoop.
Variable h0 : heap.
Let n0 := List.length h0.

Lemma grouped_heap_dict (G : list (string * list value)) :
  nth_error (grouped_heap h0 G) (n0 + 1)%nat
  = Some (PyDict (entries_from (n0 + 2)%nat G)).
Proof.
  unfold grouped_heap.
  change (h0 ++ PyList [] :: ?d :: ?l) with (h0 ++ [PyList []] ++ d :: l).
  rewrite app_assoc. apply nth_error_at.
  rewrite length_app. reflexivity.
Qed.

Lemma grouped_heap_caller (G : list (string * list value)) (a : addr)
    (o : object) :
  nth_error h0 a = Some o -> nth_error (grouped_heap h0 G) a = Some o.
Proof.
  intros H. unfold grouped_heap. rewrite nth_error_app1; [exact H|].
  apply nth_error_Some. rewrite H. discriminate.
Qed.

Lemma grouped_heap_length (G : list (string * list value)) :
  List.length (grouped_heap h0 G) = (n0 + 2 + List.length G)%nat.
Proof.
  unfold grouped_heap, lists_of. rewrite length_app. simpl.
  rewrite length_map. fold n0. lia.
Qed.

(** One turn of [for price in prices]. *)
Lemma group_step (G : list (string * list value)) (v : value)
    (p : MarketPrice) :
  quote_at h0 v = Some p ->
  (key <-- quote_attr key_of v ;;
   l <-- defaultdict_getitem (VRef (n0 + 1)%nat) key ;;
   list_append l v) (grouped_heap h0 G)
  = (Returns tt, grouped_heap h0 (defaultdict_append G (key_of p) v)).
Proof.
  intros Hv.
  assert (Hq : quote_at (grouped_heap h0 G) v = Some p).
  { apply quote_at_Some in Hv as (a & -> & E). apply quote_at_Some.
    exists a. split; [reflexivity|]. apply grouped_heap_caller. exact E. }
  rewrite (run_bind_returns _ _ _ _ _ (quote_attr_at key_of _ _ _ Hq)).
  unfold defaultdict_getitem. rewrite run_bind_assoc.
  rewrite (run_bind_returns _ _ _ _ _
             (load_dict_at _ _ _ (grouped_heap_dict G))).
  destruct (defaultdict_append_split G (key_of p) v)
    as [[Hn ->]|(G1 & l & G2 & -> & Hn & ->)].
  - rewrite dict_get_absent by (rewrite entries_from_keys; exact Hn).
    rewrite !run_bind_assoc.
    rewrite (run_bind_returns _ _ _ _ _ (eq_refl : alloc (PyList []) _ = _)).
    rewrite run_bind_assoc.
    assert (Hd : nth_error (grouped_heap h0 G ++ [PyList []]) (n0 + 1)%nat
                 = Some (PyDict (entries_from (n0 + 2)%nat G))).
    { rewrite nth_error_app1; [apply grouped_heap_dict|].
      rewrite grouped_heap_length. lia. }
    rewrite (run_bind_returns _ _ _ _ _ (dict_setitem_at _ _ _ _ _ Hd)).
    rewrite dict_set_absent by (rewrite entries_from_keys; exact Hn).
    rewrite (run_bind_returns _ _ _ _ _ (eq_refl : ret _ _ = _)).
    assert (Hshape : update (n0 + 1)%nat
              (PyDict (entries_from (n0 + 2)%nat G
                       ++ [(key_of p, VRef (List.length (grouped_heap h0 G)))]))
              (grouped_heap h0 G ++ [PyList []])
            = (h0 ++ PyList []
                  :: PyDict (entries_from (n0 + 2)%nat (G ++ [(key_of p, [v])]))
                  :: lists_of G) ++ PyList [] :: []).
    { unfold grouped_heap.
      change (h0 ++ PyList [] :: ?d :: ?l) with (h0 ++ [PyList []] ++ d :: l).
      rewrite !app_assoc, <- (app_assoc _ _ [PyList []]).
      cbn [app]. rewrite update_at by (rewrite length_app; reflexivity).
      rewrite entries_from_app. cbn [entries_from].
      rewrite <- !app_assoc. cbn [app]. do 5 f_equal.
      rewrite !length_app. cbn [List.length]. unfold lists_of.
      rewrite length_map. subst n0. do 3 f_equal. lia. }
    rewrite Hshape.
    assert (Hl : List.length (grouped_heap h0 G)
                 = List.length (h0 ++ PyList []
                      :: PyDict (entries_from (n0 + 2)%nat (G ++ [(key_of p, [v])]))
                      :: lists_of G)).
    { unfold grouped_heap. rewrite !length_app. reflexivity. }
    rewrite Hl.
    rewrite (list_append_at _ _ [] _ (nth_error_at _ _ _ _ eq_refl)).
    rewrite update_at by reflexivity.
    unfold grouped_heap, lists_of. rewrite map_app. cbn [map snd app].
    rewrite <- app_assoc. reflexivity.
  - assert (Hg : dict_get (entries_from (n0 + 2)%nat
                              (G1 ++ (key_of p, l) :: G2)) (key_of p)
                 = Some (VRef (n0 + 2 + List.length G1))).
    { rewrite entries_from_app. cbn [entries_from]. apply dict_get_first.
      rewrite entries_from_keys. exact Hn. }
    rewrite Hg.
    rewrite (run_bind_returns _ _ _ _ _ (eq_refl : ret _ _ = _)).
    assert (Hshape : forall l',
              grouped_heap h0 (G1 ++ (key_of p, l') :: G2)
              = (h0 ++ PyList []
                    :: PyDict (entries_from (n0 + 2)%nat
                                 (G1 ++ (key_of p, l) :: G2))
                    :: lists_of G1) ++ PyList l' :: lists_of G2).
    { intros l'. unfold grouped_heap, lists_of.
      rewrite map_app, <- app_assoc. cbn [map snd app].
      rewrite !entries_from_app. reflexivity. }
    rewrite (Hshape l), (Hshape (l ++ [v])).
    assert (Ha : (n0 + 2 + List.length G1)%nat
                 = List.length (h0 ++ PyList []
                      :: PyDict (entries_from (n0 + 2)%nat
                                   (G1 ++ (key_of p, l) :: G2))
                      :: lists_of G1)).
    { rewrite length_app. cbn [List.length]. unfold lists_of.
      rewrite length_map. fold n0. lia. }
    rewrite Ha.
    rewrite (list_append_at _ _ l _ (nth_error_at _ _ _ _ eq_refl)).
    rewrite update_at by reflexivity. reflexivity.
Qed.
End FirstLoop.

(** ** Objects that stay *)

Lemma stable_refl (keep : addr) (h : heap) : stable keep h h.
Proof. intros a o _ H. exact H. Qed.

Lemma stable_trans (keep : addr) (h1 h2 h3 : heap) :
  stable keep h1 h2 -> stable keep h2 h3 -> stable keep h1 h3.
Proof. intros H12 H23 a o Ha H. apply H23, H12; assumption. Qed.

Lemma nth_error_app_Some {A : Type} (l l' : list A) (a : nat) (x : A) :
  nth_error l a = Some x -> nth_error (l ++ l') a = Some x.
Proof.
  intros H. rewrite nth_error_app1; [exact H|].
  apply nth_error_Some. rewrite H. discriminate.
Qed.

Lemma stable_app (keep : addr) (h new : heap) : stable keep h (h ++ new).
Proof. intros a o _ H. apply nth_error_app_Some. exact H. Qed.

Lemma stable_update (keep : addr) (o : object) (h : heap) :
  stable keep h (update keep o h).
Proof.
  intros a o' Ha H. rewrite nth_error_update_other by congruence. exact H.
Qed.

Lemma quote_at_app (h new : heap) (v : value) (p : MarketPrice) :
  quote_at h v = Some p -> quote_at (h ++ new) v = Some p.
Proof.
  intros H. apply quote_at_Some in H as (a & -> & E). apply quote_at_Some.
  exists a. split; [reflexivity|]. apply nth_error_app_Some. exact E.
Qed.

Lemma engine_at_app (h new : heap) (v : value) (e : ArbitrageEngine) :
  engine_at h v = Some e -> engine_at (h ++ new) v = Some e.
Proof.
  intros H. apply engine_at_Some in H as (a & -> & E). apply engine_at_Some.
  exists a. split; [reflexivity|]. apply nth_error_app_Some. exact E.
Qed.

Lemma deref_Some (h : heap) (v : value) (p : MarketPrice) :
  quote_at h v = Some p -> deref h v = p.
Proof. intros H. unfold deref. rewrite H. reflexivity. Qed.

(** ** The dictionary comprehension *)

Lemma platforms_step (h : heap) (d : list (string * value)) (v : value)
    (p : MarketPrice) :
  quote_at h v = Some p ->
  (name <-- quote_attr platform v ;;
   dict_setitem (VRef (List.length h)) name v) (h ++ [PyDict d])
  = (Returns tt, h ++ [PyDict (dict_set d (platform p) v)]).
Proof.
  intros Hv.
  rewrite (run_bind_returns _ _ _ _ _
             (quote_attr_at platform _ _ _ (quote_at_app _ [PyDict d] _ _ Hv))).
  rewrite (dict_setitem_at _ _ d _ _ (nth_error_at _ _ _ _ eq_refl)).
  rewrite update_at by reflexivity. reflexivity.
Qed.

Lemma platforms_loop (h0 h : heap) (a : addr) (l : list value) (fuel : nat) :
  nth_error h a = Some (PyList l) ->
  (forall v, In v l -> quote_at h v = Some (deref h0 v)) ->
  (List.length l < fuel)%nat ->
  for_in fuel (VRef a) 0
    (fun p => name <-- quote_attr platform p ;;
              dict_setitem (VRef (List.length h)) name p)
    (h ++ [PyDict []])
  = (Returns tt,
     h ++ [PyDict (index_by (fun v => platform (deref h0 v)) l)]).
Proof.
  intros Hl Hq Hfuel. unfold index_by.
  apply (for_in_fold (fun d => h ++ [PyDict d])
           (fun d v => dict_set d (platform (deref h0 v)) v)
           (VRef a) l _) with (done := []); [| |reflexivity|exact Hfuel].
  - intros d. apply load_list_at. apply nth_error_app_Some. exact Hl.
  - intros d v Hv. apply platforms_step. apply Hq. exact Hv.
Qed.

(** ** The list of opportunities *)

Lemma record_ref_stable (at_ : addr) (h h' : heap) (refs : list value)
    (v : value) (o : Opportunity) :
  nth_error h at_ = Some (PyList refs) -> stable at_ h h' ->
  record_ref h v o -> record_ref h' v o.
Proof.
  intros Hat Hst (a & -> & E). exists a. split; [reflexivity|].
  apply Hst; [|exact E]. intros ->. rewrite Hat in E. discriminate E.
Qed.

Lemma records_stable (at_ : addr) (h h' : heap) (refs refs' : list value)
    (opps : list Opportunity) :
  nth_error h at_ = Some (PyList refs') -> stable at_ h h' ->
  Forall2 (record_ref h) refs opps -> Forall2 (record_ref h') refs opps.
Proof.
  intros Hat Hst H. induction H as [|v o refs opps Hv _ IH]; constructor.
  - exact (record_ref_stable _ _ _ _ _ _ Hat Hst Hv).
  - exact IH.
Qed.

Lemma holds_records_app (at_ : addr) (opps : list Opportunity)
    (h new : heap) :
  holds_records at_ opps h -> holds_records at_ opps (h ++ new).
Proof.
  intros (refs & Hat & H). exists refs. split.
  - apply nth_error_app_Some. exact Hat.
  - exact (records_stable _ _ _ _ _ _ Hat (stable_app _ _ _) H).
Qed.

Lemma append_record_follows (at_ : addr) (h : heap)
    (acc : list Opportunity) (o : Opportunity) :
  holds_records at_ acc h ->
  follows at_ h
    ((record <-- alloc (opportunity_dict o) ;;
      list_append (VRef at_) record) h)
    (Ok (acc ++ [o])).
Proof.
  intros (refs & Hat & H).
  rewrite (run_bind_returns _ _ _ _ _ (eq_refl : alloc _ _ = _)).
  assert (Hat' : nth_error (h ++ [opportunity_dict o]) at_
                 = Some (PyList refs))
    by (apply nth_error_app_Some; exact Hat).
  rewrite (list_append_at _ _ _ _ Hat').
  assert (Hst : stable at_ h
                  (update at_ (PyList (refs ++ [VRef (List.length h)]))
                          (h ++ [opportunity_dict o]))).
  { eapply stable_trans; [apply stable_app|apply stable_update]. }
  split; [exact Hst|]. split; [reflexivity|].
  exists (refs ++ [VRef (List.length h)]). simpl snd. split.
  - apply nth_error_update_same. apply nth_error_Some. rewrite Hat'.
    discriminate.
  - apply Forall2_app.
    + exact (records_stable _ _ _ _ _ _ Hat Hst H).
    + constructor; [|constructor]. exists (List.length h).
      split; [reflexivity|].
      rewrite nth_error_update_other.
      * apply nth_error_at. reflexivity.
      * intros ->.
        assert (Hlt : (List.length h < List.length h)%nat)
          by (apply nth_error_Some; rewrite Hat; discriminate).
        lia.
Qed.

Lemma follows_trans (at_ : addr) (h h1 : heap) (r : completion unit * heap)
    (p : result (list Opportunity)) :
  stable at_ h h1 -> follows at_ h1 r p -> follows at_ h r p.
Proof.
  intros Hst [Hst' H]. split; [|exact H].
  exact (stable_trans _ _ _ _ Hst Hst').
Qed.

Lemma follows_ret (at_ : addr) (h : heap) (acc : list Opportunity) :
  holds_records at_ acc h -> follows at_ h (ret tt h) (Ok acc).
Proof.
  intros H. split; [apply stable_refl|]. split; [reflexivity|exact H].
Qed.

Lemma follows_stop (at_ : addr) (h : heap) (e : exn) :
  follows at_ h (stop (Exception e) h) (Raise e).
Proof. split; [apply stable_refl|reflexivity]. Qed.

(** A statement that follows a computation, then a second one that
    follows the next. *)
Lemma follows_bind (at_ : addr) (h : heap) (c : Run unit)
    (k : unit -> Run unit) (p : result (list Opportunity))
    (q : list Opportunity -> result (list Opportunity)) :
  follows at_ h (c h) p ->
  (forall acc h', stable at_ h h' -> holds_records at_ acc h' ->
                  follows at_ h' (k tt h') (q acc)) ->
  follows at_ h (run_bind c k h) (bind p q).
Proof.
  intros [Hst Hc] Hk. unfold run_bind.
  destruct (c h) as [r h1]. simpl in Hst, Hc.
  destruct p as [acc|e]; simpl.
  - destruct Hc as [-> Hrec].
    exact (follows_trans _ _ _ _ _ Hst (Hk acc h1 Hst Hrec)).
  - rewrite Hc. split; [exact Hst|reflexivity].
Qed.

Section RangeLoop.
Variable at_ : addr.
Variable hb : heap.
Variable body : nat -> Run unit.
Variable pure : nat -> list Opportunity -> result (list Opportunity).
Hypothesis body_follows :
  forall i acc h, stable at_ hb h -> holds_records at_ acc h ->
                  follows at_ h (body i h) (pure i acc).

Lemma for_range_follows (indices : list nat) :
  forall acc h, stable at_ hb h -> holds_records at_ acc h ->
    follows at_ h (for_range indices body h) (for_each indices pure acc).
Proof.
  induction indices as [|i rest IH]; intros acc h Hst Hrec; simpl.
  - apply follows_ret. exact Hrec.
  - apply follows_bind; [apply body_follows; assumption|].
    intros acc' h' Hst' Hrec'. apply IH; [|exact Hrec'].
    exact (stable_trans _ _ _ _ Hst Hst').
Qed.
End RangeLoop.

(** ** One comparison *)

Lemma compare_pair_follows (at_ : addr) (h : heap) (self : value)
    (e : ArbitrageEngine) (k n1 n2 : string) (v1 v2 : value)
    (p1 p2 : MarketPrice) (acc : list Opportunity) :
  engine_at h self = Some e ->
  quote_at h v1 = Some p1 -> quote_at h v2 = Some p2 ->
  holds_records at_ acc h ->
  follows at_ h
    (compare_pair_at self k (VRef at_)
       (VTuple (VStr n1) v1) (VTuple (VStr n2) v2) h)
    (compare_pair e k (n1, p1) (n2, p2) acc).
Proof.
  intros He H1 H2 Hrec. unfold compare_pair_at, compare_pair.
  rewrite (run_bind_returns _ _ _ _ _ (quote_attr_at mid _ _ _ H1)).
  rewrite (run_bind_returns _ _ _ _ _ (quote_attr_at mid _ _ _ H2)).
  destruct (gtb (mid p1) (mid p2));
    match goal with
    | |- context [spread_pct ?x ?y] =>
        destruct (spread_pct x y) as [spread|ex]
    end; simpl bind; simpl lift;
    try (rewrite (run_bind_stops _ _ _ _ _ (eq_refl : stop _ _ = _));
         apply follows_stop);
    rewrite (run_bind_returns _ _ _ _ _ (eq_refl : ret _ _ = _));
    rewrite (run_bind_returns _ _ _ _ _ (engine_attr_at fee_pct _ _ _ He));
    rewrite (run_bind_returns _ _ _ _ _ (engine_attr_at min_spread _ _ _ He));
    unfold net_spread_pct;
    match goal with
    | |- context [geb ?x ?y] => destruct (geb x y)
    end;
    try (apply follows_ret; exact Hrec);
    apply append_record_follows; exact Hrec.
Qed.

(** ** The platforms of one group *)

Lemma index_by_map {A B : Type} (f : A -> B) (name : B -> string)
    (l : list A) :
  index_by name (map f l) = map_values f (index_by (fun x => name (f x)) l).
Proof.
  unfold index_by.
  change (@nil (string * B)) with (map_values f (@nil (string * A))) at 1.
  generalize (@nil (string * A)) as acc.
  induction l as [|x l IH]; intros acc; simpl; [reflexivity|].
  rewrite <- dict_set_map_values. apply IH.
Qed.

Lemma group_by_map {A B : Type} (f : A -> B) (key : B -> string)
    (l : list A) :
  group_by key (map f l)
  = map_values (map f) (group_by (fun x => key (f x)) l).
Proof.
  unfold group_by.
  change (@nil (string * list B))
    with (map_values (map f) (@nil (string * list A))) at 1.
  generalize (@nil (string * list A)) as acc.
  induction l as [|x l IH]; intros acc; simpl; [reflexivity|].
  rewrite <- defaultdict_append_map_values. apply IH.
Qed.

Lemma dict_set_Forall {V : Type} (Q : V -> Prop) (d : list (string * V))
    (k : string) (v : V) :
  Forall (fun kv => Q (snd kv)) d -> Q v ->
  Forall (fun kv => Q (snd kv)) (dict_set d k v).
Proof.
  intros Hd Hv. induction Hd as [|[k' v'] d Hx Hd IH]; simpl.
  - constructor; [exact Hv|constructor].
  - destruct (String.eqb k' k); constructor; assumption.
Qed.

Lemma index_by_Forall {A : Type} (Q : A -> Prop) (name : A -> string)
    (l : list A) :
  Forall Q l -> Forall (fun kv => Q (snd kv)) (index_by name l).
Proof.
  unfold index_by.
  assert (H : forall acc, Forall (fun kv => Q (snd kv)) acc -> Forall Q l ->
            Forall (fun kv : string * A => Q (snd kv))
              (fold_left (fun d x => dict_set d (name x) x) l acc)).
  { induction l as [|x l IH]; intros acc Hacc Hl; simpl; [exact Hacc|].
    inversion Hl; subst. apply IH; [|assumption].
    apply dict_set_Forall; assumption. }
  apply H. constructor.
Qed.

Lemma defaultdict_append_Forall {V : Type} (Q : V -> Prop)
    (d : list (string * list V)) (k : string) (v : V) :
  Forall (fun kv => Forall Q (snd kv)) d -> Q v ->
  Forall (fun kv => Forall Q (snd kv)) (defaultdict_append d k v).
Proof.
  intros Hd Hv. induction Hd as [|[k' l] d Hx Hd IH]; simpl.
  - repeat constructor. exact Hv.
  - destruct (String.eqb k' k); constructor; try assumption.
    simpl in *. apply Forall_app. split; [exact Hx|].
    constructor; [exact Hv|constructor].
Qed.

Lemma group_by_Forall {A : Type} (Q : A -> Prop) (key : A -> string)
    (l : list A) :
  Forall Q l -> Forall (fun kv => Forall Q (snd kv)) (group_by key l).
Proof.
  unfold group_by.
  assert (H : forall acc, Forall (fun kv => Forall Q (snd kv)) acc ->
            Forall Q l ->
            Forall (fun kv : string * list A => Forall Q (snd kv))
              (fold_left (fun g x => defaultdict_append g (key x) x) l acc)).
  { induction l as [|x l IH]; intros acc Hacc Hl; simpl; [exact Hacc|].
    inversion Hl; subst. apply IH; [|assumption].
    apply defaultdict_append_Forall; assumption. }
  apply H. constructor.
Qed.

Lemma getitem_items_of (pd : list (string * value)) (i : nat) :
  getitem (items_of pd) i
  = match nth_error pd i with
    | Some (k, v) => Ok (VTuple (VStr k) v)
    | None => Raise IndexError
    end.
Proof.
  unfold getitem, items_of. rewrite nth_error_map.
  destruct (nth_error pd i) as [[k v]|]; reflexivity.
Qed.

Lemma getitem_map_values {V W : Type} (f : V -> W) (d : list (string * V))
    (i : nat) :
  getitem (map_values f d) i
  = match nth_error d i with
    | Some (k, v) => Ok (k, f v)
    | None => Raise IndexError
    end.
Proof.
  unfold getitem, map_values. rewrite nth_error_map.
  destruct (nth_error d i) as [[k v]|]; reflexivity.
Qed.

Lemma engine_at_stable (at_ : addr) (h h' : heap) (refs : list value)
    (v : value) (e : ArbitrageEngine) :
  nth_error h at_ = Some (PyList refs) -> stable at_ h h' ->
  engine_at h v = Some e -> engine_at h' v = Some e.
Proof.
  intros Hat Hst H. apply engine_at_Some in H as (a & -> & E).
  apply engine_at_Some. exists a. split; [reflexivity|].
  apply Hst; [|exact E]. intros ->. rewrite Hat in E. discriminate E.
Qed.

Lemma quote_at_stable (at_ : addr) (h h' : heap) (refs : list value)
    (v : value) (p : MarketPrice) :
  nth_error h at_ = Some (PyList refs) -> stable at_ h h' ->
  quote_at h v = Some p -> quote_at h' v = Some p.
Proof.
  intros Hat Hst H. apply quote_at_Some in H as (a & -> & E).
  apply quote_at_Some. exists a. split; [reflexivity|].
  apply Hst; [|exact E]. intros ->. rewrite Hat in E. discriminate E.
Qed.

(** The two index loops, on a heap [hb] that holds the list of
    platforms at [pl]. *)
Section IndexLoops.
Variable at_ : addr.
Variable h0 hb : heap.
Variable self : value.
Variable e : ArbitrageEngine.
Variable k : string.
Variable pl : addr.
Variable pd : list (string * value).
Variable refs0 : list value.
Hypothesis opps_at : nth_error hb at_ = Some (PyList refs0).
Hypothesis pl_other : pl <> at_.
Hypothesis engine_hb : engine_at hb self = Some e.
Hypothesis list_hb : nth_error hb pl = Some (PyList (items_of pd)).
Hypothesis quotes_hb :
  Forall (fun kv => quote_at hb (snd kv) = Some (deref h0 (snd kv))) pd.

Lemma pair_follows (i j : nat) (acc : list Opportunity) (h : heap) :
  stable at_ hb h -> holds_records at_ acc h ->
  follows at_ h
    ((e1 <-- list_getitem (VRef pl) i ;;
      e2 <-- list_getitem (VRef pl) j ;;
      compare_pair_at self k (VRef at_) e1 e2) h)
    (e1 <- getitem (map_values (deref h0) pd) i ;;
     e2 <- getitem (map_values (deref h0) pd) j ;;
     compare_pair e k e1 e2 acc).
Proof.
  intros Hst Hrec.
  assert (Hl : nth_error h pl = Some (PyList (items_of pd)))
    by (apply Hst; [exact pl_other|exact list_hb]).
  assert (Hget : forall n,
            list_getitem (VRef pl) n h = lift (getitem (items_of pd) n) h).
  { intros n. unfold list_getitem.
    rewrite (run_bind_returns _ _ _ _ _ (load_list_at _ _ _ Hl)).
    reflexivity. }
  pose proof quotes_hb as Hq. rewrite Forall_forall in Hq.
  rewrite !getitem_map_values.
  destruct (nth_error pd i) as [[n1 v1]|] eqn:E1.
  - rewrite (run_bind_returns _ _ h h (VTuple (VStr n1) v1))
      by (rewrite Hget, getitem_items_of, E1; reflexivity).
    destruct (nth_error pd j) as [[n2 v2]|] eqn:E2.
    + rewrite (run_bind_returns _ _ h h (VTuple (VStr n2) v2))
        by (rewrite Hget, getitem_items_of, E2; reflexivity).
      simpl bind. apply compare_pair_follows.
      * exact (engine_at_stable _ _ _ _ _ _ opps_at Hst engine_hb).
      * apply (quote_at_stable _ _ _ _ _ _ opps_at Hst).
        exact (Hq _ (nth_error_In _ _ E1)).
      * apply (quote_at_stable _ _ _ _ _ _ opps_at Hst).
        exact (Hq _ (nth_error_In _ _ E2)).
      * exact Hrec.
    + rewrite (run_bind_stops _ _ h h (Exception IndexError))
        by (rewrite Hget, getitem_items_of, E2; reflexivity).
      simpl bind. split; [apply stable_refl|reflexivity].
  - rewrite (run_bind_stops _ _ h h (Exception IndexError))
      by (rewrite Hget, getitem_items_of, E1; reflexivity).
    simpl bind. split; [apply stable_refl|reflexivity].
Qed.

Lemma index_loops_follow (acc : list Opportunity) (h : heap) :
  stable at_ hb h -> holds_records at_ acc h ->
  follows at_ h
    ((n <-- list_len (VRef pl) ;;
      for_range (range 0 n) (fun i =>
        n <-- list_len (VRef pl) ;;
        for_range (range (i + 1) n) (fun j =>
          e1 <-- list_getitem (VRef pl) i ;;
          e2 <-- list_getitem (VRef pl) j ;;
          compare_pair_at self k (VRef at_) e1 e2))) h)
    (compare_platforms e k (map_values (deref h0) pd) acc).
Proof.
  intros Hst Hrec.
  assert (Hlen : forall h', stable at_ hb h' ->
            list_len (VRef pl) h' = (Returns (List.length pd), h')).
  { intros h' Hst'.
    assert (Hl : nth_error h' pl = Some (PyList (items_of pd)))
      by (apply Hst'; [exact pl_other|exact list_hb]).
    rewrite (list_len_at _ _ _ Hl). unfold items_of.
    rewrite length_map. reflexivity. }
  rewrite (run_bind_returns _ _ _ _ _ (Hlen h Hst)).
  unfold compare_platforms, map_values. rewrite length_map.
  fold (map_values (deref h0) pd).
  apply (for_range_follows at_ hb); [|exact Hst|exact Hrec].
  intros i acc1 h1 Hst1 Hrec1.
  rewrite (run_bind_returns _ _ _ _ _ (Hlen h1 Hst1)).
  apply (for_range_follows at_ hb); [|exact Hst1|exact Hrec1].
  intros j acc2 h2 Hst2 Hrec2. apply pair_follows; assumption.
Qed.
End IndexLoops.

(** ** One group *)

Lemma process_group_follows (at_ : addr) (h0 h : heap) (self : value)
    (e : ArbitrageEngine) (k : string) (g : addr) (l : list value)
    (acc : list Opportunity) (fuel : nat) :
  g <> at_ -> nth_error h g = Some (PyList l) ->
  engine_at h self = Some e ->
  Forall (fun v => quote_at h v = Some (deref h0 v)) l ->
  (List.length l < fuel)%nat ->
  holds_records at_ acc h ->
  follows at_ h
    (process_group_at fuel self (VRef at_) k (VRef g) h)
    (process_group e (k, map (deref h0) l) acc).
Proof.
  intros Hg Hl He Hq Hfuel Hrec.
  unfold process_group_at, process_group.
  rewrite (run_bind_returns _ _ _ _ _ (list_len_at _ _ _ Hl)).
  rewrite length_map.
  destruct (List.length l <? 2)%nat; [apply follows_ret; exact Hrec|].
  rewrite (run_bind_returns _ _ _ _ _ (eq_refl : alloc _ _ = _)).
  rewrite Forall_forall in Hq.
  rewrite (run_bind_returns _ _ _ _ _
             (platforms_loop h0 h g l fuel Hl Hq Hfuel)).
  set (pd := index_by (fun v => platform (deref h0 v)) l).
  rewrite (run_bind_returns _ _ _ _ _
             (load_dict_at _ _ _ (nth_error_at h [] (PyDict pd) _ eq_refl))).
  rewrite (run_bind_returns _ _ _ _ _ (eq_refl : alloc _ _ = _)).
  set (hb := (h ++ [PyDict pd]) ++ [PyList (items_of pd)]).
  assert (Hst : stable at_ h hb).
  { eapply stable_trans; apply stable_app. }
  apply (follows_trans _ _ _ _ _ Hst).
  change (platforms_of (map (deref h0) l))
    with (index_by platform (map (deref h0) l)).
  rewrite index_by_map. fold pd.
  destruct Hrec as (refs & Hat & Hrefs).
  apply (index_loops_follow at_ h0 hb self e k _ pd refs).
  - apply nth_error_app_Some, nth_error_app_Some. exact Hat.
  - intros E.
    assert (Hlt : (at_ < List.length h)%nat)
      by (apply nth_error_Some; rewrite Hat; discriminate).
    rewrite length_app in E. simpl in E. lia.
  - apply engine_at_app, engine_at_app. exact He.
  - apply nth_error_at. reflexivity.
  - apply (index_by_Forall
             (fun v => quote_at hb v = Some (deref h0 v))).
    apply Forall_forall. intros v Hv.
    apply quote_at_app, quote_at_app. apply Hq. exact Hv.
  - apply stable_refl.
  - exists refs. split.
    + apply nth_error_app_Some, nth_error_app_Some. exact Hat.
    + exact (records_stable _ _ _ _ _ _ Hat Hst Hrefs).
Qed.

(** ** The loop over the groups *)

Lemma entries_from_length (a : addr) (G : list (string * list value)) :
  List.length (entries_from a G) = List.length G.
Proof.
  revert a. induction G as [|[k l] G IH]; intros a; simpl; [reflexivity|].
  rewrite IH. reflexivity.
Qed.

Lemma entries_from_nth (a : addr) (done rest : list (string * list value))
    (k : string) (l : list value) :
  nth_error (entries_from a (done ++ (k, l) :: rest)) (List.length done)
  = Some (k, VRef (a + List.length done)).
Proof.
  rewrite entries_from_app. cbn [entries_from].
  apply nth_error_at. rewrite entries_from_length. reflexivity.
Qed.

Lemma grouped_heap_list (h0 : heap) (done rest : list (string * list value))
    (k : string) (l : list value) :
  nth_error (grouped_heap h0 (done ++ (k, l) :: rest))
            (List.length h0 + 2 + List.length done)
  = Some (PyList l).
Proof.
  unfold grouped_heap, lists_of. rewrite map_app. cbn [map snd].
  change (h0 ++ PyList [] :: ?d :: ?x ++ ?y)
    with (h0 ++ [PyList []; d] ++ x ++ y).
  rewrite !app_assoc. apply nth_error_at.
  rewrite !length_app, length_map. simpl. lia.
Qed.

Lemma grouped_heap_opps (h0 : heap) (G : list (string * list value)) :
  nth_error (grouped_heap h0 G) (List.length h0) = Some (PyList []).
Proof. unfold grouped_heap. apply nth_error_at. reflexivity. Qed.

Section GroupsLoop.
Variable h0 : heap.
Variable self : value.
Variable e : ArbitrageEngine.
Variable fuel0 : nat.
Variable G : list (string * list value).
Let n0 := List.length h0.
Let h1 := grouped_heap h0 G.
Hypothesis engine_h0 : engine_at h0 self = Some e.
Hypothesis quotes_h0 :
  Forall (fun kv => Forall (fun v => quote_at h0 v = Some (deref h0 v))
                           (snd kv)) G.
Hypothesis sizes :
  Forall (fun kv => (List.length (snd kv) < fuel0)%nat) G.

Lemma groups_loop (rest : list (string * list value)) :
  forall (done : list (string * list value)) (acc : list Opportunity)
         (h : heap) (fuel : nat),
    G = done ++ rest -> (List.length rest < fuel)%nat ->
    stable n0 h1 h -> holds_records n0 acc h ->
    follows n0 h
      (for_items fuel (VRef (n0 + 1)) (List.length G) (List.length done)
         (process_group_at fuel0 self (VRef n0)) h)
      (for_each rest
         (fun kv => process_group e (fst kv, map (deref h0) (snd kv))) acc).
Proof.
  induction rest as [|[k l] rest IH]; intros done acc h fuel HG Hfuel Hst Hrec;
    (destruct fuel as [|fuel]; [simpl in Hfuel; lia|]);
    assert (Hd : nth_error h (n0 + 1)
                 = Some (PyDict (entries_from (n0 + 2)%nat G)))
      by (apply Hst; [lia|apply grouped_heap_dict]);
    cbn [for_items for_each];
    rewrite (run_bind_returns _ _ _ _ _ (load_dict_at _ _ _ Hd));
    rewrite entries_from_length, Nat.eqb_refl; cbn [negb].
  - rewrite (proj2 (nth_error_None _ (List.length done))).
    + apply follows_ret. exact Hrec.
    + rewrite entries_from_length, HG, length_app. simpl. lia.
  - assert (Hn : nth_error (entries_from (n0 + 2)%nat G) (List.length done)
                 = Some (k, VRef (n0 + 2 + List.length done)))
      by (rewrite HG; apply entries_from_nth).
    rewrite Hn.
    assert (Hin : In (k, l) G) by (rewrite HG; apply in_elt).
    pose proof quotes_h0 as Hq. rewrite Forall_forall in Hq.
    pose proof sizes as Hs. rewrite Forall_forall in Hs.
    apply follows_bind.
    + apply process_group_follows.
      * lia.
      * apply Hst; [lia|]. unfold h1. rewrite HG. apply grouped_heap_list.
      * apply (engine_at_stable _ _ _ _ _ _ (grouped_heap_opps h0 G) Hst).
        apply engine_at_app. exact engine_h0.
      * apply Forall_forall. intros v Hv.
        apply (quote_at_stable _ _ _ _ _ _ (grouped_heap_opps h0 G) Hst).
        apply quote_at_app.
        pose proof (Hq _ Hin) as Hl. rewrite Forall_forall in Hl.
        apply Hl. exact Hv.
      * exact (Hs _ Hin).
      * exact Hrec.
    + intros acc' h' Hst' Hrec'.
      replace (S (List.length done)) with (List.length (done ++ [(k, l)]))
        by (rewrite length_app; simpl; lia).
      apply IH.
      * rewrite <- app_assoc. exact HG.
      * simpl in Hfuel. lia.
      * exact (stable_trans _ _ _ _ Hst Hst').
      * exact Hrec'.
Qed.
End GroupsLoop.

(** ** The whole call *)

Lemma all_some_map {A B : Type} (f : A -> option B) (g : A -> B)
    (l : list A) (ys : list B) :
  (forall x y, f x = Some y -> g x = y) ->
  all_some (map f l) = Some ys ->
  ys = map g l /\ Forall (fun x => f x = Some (g x)) l.
Proof.
  intros Hg. revert ys. induction l as [|x l IH]; intros ys; simpl.
  - intros [= <-]. split; [reflexivity|constructor].
  - destruct (f x) as [y|] eqn:E; [|discriminate].
    destruct (all_some (map f l)) as [ys'|]; [|discriminate].
    intros [= <-]. destruct (IH ys' eq_refl) as [-> Hl].
    pose proof (Hg x y E) as Hy. subst y. split; [reflexivity|].
    constructor; [exact E|exact Hl].
Qed.

Lemma all_some_Forall2 {A B : Type} (f : A -> option B) (l : list A)
    (ys : list B) :
  Forall2 (fun x y => f x = Some y) l ys -> all_some (map f l) = Some ys.
Proof.
  induction 1 as [|x y l ys Hx _ IH]; simpl; [reflexivity|].
  rewrite Hx, IH. reflexivity.
Qed.

Lemma quotes_at_Some (h : heap) (v : value) (quotes : list MarketPrice) :
  quotes_at h v = Some quotes ->
  exists a vs, v = VRef a /\ nth_error h a = Some (PyList vs) /\
               quotes = map (deref h) vs /\
               Forall (fun x => quote_at h x = Some (deref h x)) vs.
Proof.
  unfold quotes_at, load.
  destruct v as [x|s|a|v1 v2]; try discriminate.
  destruct (nth_error h a) as [[e'|q|vs|d]|] eqn:E; try discriminate.
  intros H. exists a, vs. split; [reflexivity|]. split; [exact E|].
  apply (all_some_map (quote_at h) (deref h)); [|exact H].
  intros x y. apply deref_Some.
Qed.

Lemma quotes_at_app (h new : heap) (v : value) (quotes : list MarketPrice) :
  quotes_at h v = Some quotes -> quotes_at (h ++ new) v = Some quotes.
Proof.
  intros H. apply quotes_at_Some in H as (a & vs & -> & E & -> & Hq).
  unfold quotes_at, load. rewrite (nth_error_app_Some _ new _ _ E).
  apply all_some_Forall2. rewrite Forall_forall in Hq.
  clear E. induction vs as [|x vs IH]; simpl; [constructor|]. constructor.
  - apply quote_at_app. apply Hq. left. reflexivity.
  - apply IH. intros y Hy. apply Hq. right. exact Hy.
Qed.

Lemma record_at_ref (h : heap) (v : value) (o : Opportunity) :
  record_ref h v o -> record_at h v = Some o.
Proof.
  intros (a & -> & E). unfold record_at, load. rewrite E.
  destruct o. reflexivity.
Qed.

Lemma records_at_holds (at_ : addr) (opps : list Opportunity) (h : heap) :
  holds_records at_ opps h -> records_at h (VRef at_) = Some opps.
Proof.
  intros (refs & Hat & H). unfold records_at, load. rewrite Hat.
  apply all_some_Forall2. clear Hat.
  induction H as [|v o refs opps Hv _ IH]; [constructor|].
  constructor; [|exact IH]. apply record_at_ref. exact Hv.
Qed.

Lemma agrees_keeps (h h' : heap) :
  (forall a o, nth_error h a = Some o -> nth_error h' a = Some o) ->
  keeps h h'.
Proof.
  revert h'. induction h as [|x h IH]; intros h' H.
  - exists h'. reflexivity.
  - destruct h' as [|x' h'].
    + specialize (H 0%nat x eq_refl). discriminate H.
    + pose proof (H 0%nat x eq_refl) as H0. injection H0 as ->.
      destruct (IH h') as [new ->].
      * intros a o Ha. exact (H (S a) o Ha).
      * exists new. reflexivity.
Qed.

Lemma defaultdict_append_length {V : Type} (d : list (string * list V))
    (k : string) (v : V) :
  (List.length (defaultdict_append d k v) <= S (List.length d))%nat.
Proof.
  induction d as [|[k' l] d IH]; simpl; [lia|].
  destruct (String.eqb k' k); simpl; lia.
Qed.

Lemma group_by_length {A : Type} (key : A -> string) (l : list A) :
  (List.length (group_by key l) <= List.length l)%nat.
Proof.
  unfold group_by.
  assert (H : forall acc : list (string * list A),
            (List.length (fold_left
               (fun g x => defaultdict_append g (key x) x) l acc)
             <= List.length acc + List.length l)%nat).
  { induction l as [|x l IH]; intros acc; simpl; [lia|].
    pose proof (IH (defaultdict_append acc (key x) x)) as H1.
    pose proof (defaultdict_append_length acc (key x) x) as H2. lia. }
  apply (H []).
Qed.

Lemma group_by_sizes {A : Type} (key : A -> string) (l : list A) :
  Forall (fun kv => (List.length (snd kv) <= List.length l)%nat)
         (group_by key l).
Proof.
  assert (Hsum : list_sum (map (fun kv => List.length (snd kv))
                              (group_by key l))
                 = List.length l).
  { unfold group_by.
    assert (H : forall acc : list (string * list A),
              list_sum (map (fun kv => List.length (snd kv))
                (fold_left (fun g x => defaultdict_append g (key x) x) l acc))
              = (list_sum (map (fun kv => List.length (snd kv)) acc)
                 + List.length l)%nat).
    { induction l as [|x l IH]; intros acc; simpl; [lia|].
      rewrite IH, defaultdict_append_sizes. lia. }
    apply (H []). }
  revert Hsum. generalize (List.length l) as n.
  induction (group_by key l) as [|kv d IH]; intros n Hsum; constructor.
  - simpl in Hsum. lia.
  - simpl in Hsum.
    apply (Forall_impl _ (fun kv' H => Nat.le_trans _ _ _ H
              (Nat.le_sub_l n (List.length (snd kv))))).
    apply IH. lia.
Qed.

(** A single call, from any heap that holds an engine at [self] and a
    list of quotes at [prices]. *)
Lemma process_prices_at_spec (h0 : heap) (self prices : value)
    (e : ArbitrageEngine) (quotes : list MarketPrice) (fuel : nat) :
  engine_at h0 self = Some e ->
  quotes_at h0 prices = Some quotes ->
  (List.length quotes < fuel)%nat ->
  returned (process_prices_at fuel self prices h0)
  = Some (process_prices e quotes) /\
  keeps h0 (snd (process_prices_at fuel self prices h0)) /\
  (forall v, fst (process_prices_at fuel self prices h0) = Returns v ->
             v = VRef (List.length h0)).
Proof.
  intros He Hq Hfuel.
  apply quotes_at_Some in Hq as (a & vs & -> & Ha & -> & Hvs).
  rewrite length_map in Hfuel.
  set (key := fun v => key_of (deref h0 v)).
  set (G := group_by key vs).
  unfold process_prices_at.
  rewrite (run_bind_returns _ _ _ _ _ (eq_refl : alloc _ _ = _)).
  rewrite (run_bind_returns _ _ _ _ _ (eq_refl : alloc _ _ = _)).
  assert (Hloop :
    for_in fuel (VRef a) 0
      (fun price =>
         key <-- quote_attr key_of price ;;
         l <-- defaultdict_getitem
                 (VRef (List.length (h0 ++ [PyList []]))) key ;;
         list_append l price)
      ((h0 ++ [PyList []]) ++ [PyDict []])
    = (Returns tt, grouped_heap h0 G)).
  { replace ((h0 ++ [PyList []]) ++ [PyDict []]) with (grouped_heap h0 [])
      by (unfold grouped_heap; rewrite <- app_assoc; reflexivity).
    replace (List.length (h0 ++ [PyList []])) with (List.length h0 + 1)%nat
      by (rewrite length_app; reflexivity).
    unfold G, group_by.
    apply (for_in_fold (grouped_heap h0)
             (fun g v => defaultdict_append g (key v) v) (VRef a) vs _)
      with (done := []); [| |reflexivity|exact Hfuel].
    - intros g. apply load_list_at. apply grouped_heap_caller. exact Ha.
    - intros g v Hv. apply group_step.
      rewrite Forall_forall in Hvs. apply Hvs. exact Hv. }
  rewrite (run_bind_returns _ _ _ _ _ Hloop).
  replace (List.length (h0 ++ [PyList []])) with (List.length h0 + 1)%nat
    by (rewrite length_app; reflexivity).
  rewrite run_bind_assoc.
  rewrite (run_bind_returns _ _ _ _ _
             (load_dict_at _ _ _ (grouped_heap_dict h0 G))).
  rewrite (run_bind_returns _ _ _ _ _ (eq_refl : ret _ _ = _)).
  rewrite entries_from_length.
  assert (Hpure : process_prices e (map (deref h0) vs)
                  = for_each G
                      (fun kv => process_group e
                                   (fst kv, map (deref h0) (snd kv))) []).
  { unfold process_prices.
    change (group_prices (map (deref h0) vs))
      with (group_by key_of (map (deref h0) vs)).
    rewrite group_by_map. fold key. fold G. unfold map_values.
    rewrite for_each_map. apply for_each_ext.
    intros [k l] s _. reflexivity. }
  rewrite Hpure.
  assert (Hfollows :
    follows (List.length h0) (grouped_heap h0 G)
      (for_items fuel (VRef (List.length h0 + 1)) (List.length G) 0
         (process_group_at fuel self (VRef (List.length h0)))
         (grouped_heap h0 G))
      (for_each G
         (fun kv => process_group e (fst kv, map (deref h0) (snd kv))) [])).
  { apply (groups_loop h0 self e fuel G He) with (done := []).
    - apply (group_by_Forall
               (fun v => quote_at h0 v = Some (deref h0 v))). exact Hvs.
    - apply (Forall_impl _ (fun kv H => Nat.le_lt_trans _ _ _ H Hfuel)).
      apply group_by_sizes.
    - reflexivity.
    - pose proof (group_by_length key vs). fold G in H. lia.
    - apply stable_refl.
    - exists []. split; [apply grouped_heap_opps|constructor]. }
  destruct Hfollows as [Hst Hres]. unfold run_bind.
  destruct (for_items fuel (VRef (List.length h0 + 1)) (List.length G) 0
              (process_group_at fuel self (VRef (List.length h0)))
              (grouped_heap h0 G)) as [r h2].
  simpl in Hst, Hres.
  assert (Hkeeps : keeps h0 h2).
  { apply agrees_keeps. intros b o Hb. apply Hst.
    - assert (b < List.length h0)%nat
        by (apply nth_error_Some; rewrite Hb; discriminate).
      lia.
    - apply grouped_heap_caller. exact Hb. }
  destruct (for_each G _ []) as [opps|ex].
  - destruct Hres as [-> Hrec]. simpl.
    rewrite (records_at_holds _ _ _ Hrec).
    split; [reflexivity|]. split; [exact Hkeeps|].
    intros v [= <-]. reflexivity.
  - rewrite Hres. simpl. split; [reflexivity|]. split; [exact Hkeeps|].
    intros v H. discriminate H.
Qed.

(** C9: [process_prices] called on the references [self] and [prices],
    in any heap where they lead to an engine and to a list of quotes,
    with steps granted beyond the number of quotes: what the caller gets
    (the records of the returned list, or the exception) is the value of
    the function [process_prices] at the two attributes of the engine and
    at the quotes, and so is the same from every heap, every pair of
    references and every number of steps that hold them; the call
    changes no object that existed before it (the engine and the quotes
    are read back as they were), and the list it returns is a new object;
    a second call in the heap the first one left gives the same again, in
    another new list. *)
Theorem process_prices_deterministic (h : heap) (self prices : value)
    (engine : ArbitrageEngine) (quotes : list MarketPrice) (fuel : nat) :
  engine_at h self = Some engine ->
  quotes_at h prices = Some quotes ->
  (List.length quotes < fuel)%nat ->
  let first := process_prices_at fuel self prices h in
  let second := process_prices_at fuel self prices (snd first) in
  returned first = Some (process_prices engine quotes) /\
  (forall h' self' prices' fuel',
     engine_at h' self' = Some engine ->
     quotes_at h' prices' = Some quotes ->
     (List.length quotes < fuel')%nat ->
     returned (process_prices_at fuel' self' prices' h') = returned first) /\
  keeps h (snd first) /\
  engine_at (snd first) self = Some engine /\
  quotes_at (snd first) prices = Some quotes /\
  returned second = returned first /\
  keeps (snd first) (snd second) /\
  (forall v1, fst first = Returns v1 ->
     v1 = VRef (List.length h) /\
     forall v2, fst second = Returns v2 ->
       v2 = VRef (List.length (snd first)) /\ v2 <> v1).
Proof.
  intros He Hq Hfuel first second.
  destruct (process_prices_at_spec h self prices engine quotes fuel
              He Hq Hfuel) as (R1 & K1 & F1).
  fold first in R1, K1, F1.
  assert (He1 : engine_at (snd first) self = Some engine)
    by (destruct K1 as [new ->]; apply engine_at_app; exact He).
  assert (Hq1 : quotes_at (snd first) prices = Some quotes)
    by (destruct K1 as [new ->]; apply quotes_at_app; exact Hq).
  destruct (process_prices_at_spec (snd first) self prices engine quotes fuel
              He1 Hq1 Hfuel) as (R2 & K2 & F2).
  fold second in R2, K2, F2.
  split; [exact R1|]. split.
  { intros h' self' prices' fuel' He' Hq' Hfuel'. rewrite R1.
    apply (process_prices_at_spec h' self' prices' engine quotes fuel');
      assumption. }
  split; [exact K1|]. split; [exact He1|]. split; [exact Hq1|].
  split; [rewrite R1; exact R2|]. split; [exact K2|].
  intros v1 Hv1. split; [exact (F1 v1 Hv1)|].
  intros v2 Hv2. split; [exact (F2 v2 Hv2)|].
  rewrite (F1 v1 Hv1), (F2 v2 Hv2). intros [= E].
  destruct first as [r1 h1]. simpl in *. subst r1.
  unfold records_at, load in R1. rewrite (F1 v1 eq_refl), <- E in R1.
  rewrite (proj2 (nth_error_None h1 (List.length h1)) (Nat.le_refl _)) in R1.
  discriminate R1.
Qed.

Lemma process_prices_deterministic_witness :
  returned (process_prices_at 3 (VRef 0) (VRef 3) sample_heap)
  = Some (process_prices default_engine spec_example) /\
  returned (process_prices_at 3 (VRef 0) (VRef 3)
              (snd (process_prices_at 3 (VRef 0) (VRef 3) sample_heap)))
  = returned (process_prices_at 3 (VRef 0) (VRef 3) sample_heap).
Proof.
  assert (He : engine_at sample_heap (VRef 0) = Some default_engine)
    by reflexivity.
  assert (Hq : quotes_at sample_heap (VRef 3) = Some spec_example)
    by reflexivity.
  assert (Hfuel : (List.length spec_example < 3)%nat) by (simpl; lia).
  pose proof (process_prices_deterministic sample_heap (VRef 0) (VRef 3)
                default_engine spec_example 3 He Hq Hfuel) as H.
  split; [exact (proj1 H)|].
  exact (proj1 (proj2 (proj2 (proj2 (proj2 (proj2 H)))))).
Defined.

(** * Properties of the collectors *)

(** ** Frames *)

Lemma grow_nil (s : Frame) : grow s [] [] = s.
Proof.
  destruct s as [[sv ck se cr tr] ps]. unfold grow. simpl.
  rewrite !app_nil_r, Nat.add_0_r. reflexivity.
Qed.

Lemma grow_grow (s : Frame) (r1 r2 : list request) (q1 q2 : list RawQuote) :
  grow (grow s r1 q1) r2 q2 = grow s (r1 ++ r2) (q1 ++ q2).
Proof.
  unfold grow. simpl. rewrite !app_assoc, length_app, Nat.add_assoc.
  reflexivity.
Qed.

Lemma stamped_nil (P : RawQuote -> Prop) (w : World) (k : nat) :
  stamped P w k [].
Proof. split; [constructor|reflexivity]. Qed.

Lemma stamped_app (P : RawQuote -> Prop) (w : World) (k : nat)
    (q1 q2 : list RawQuote) :
  stamped P w k q1 ->
  stamped P w (k + List.length q1) q2 ->
  stamped P w k (q1 ++ q2).
Proof.
  intros [F1 T1] [F2 T2]. split.
  - apply Forall_app. split; assumption.
  - rewrite length_app, seq_app, !map_app, T1, T2. reflexivity.
Qed.

Lemma stamped_impl (P P' : RawQuote -> Prop) (w : World) (k : nat)
    (qs : list RawQuote) :
  (forall q, P q -> P' q) -> stamped P w k qs -> stamped P' w k qs.
Proof.
  intros Himp [F T]. split; [|exact T].
  apply (Forall_impl _ Himp). exact F.
Qed.

(** A loop whose body makes at most one request and appends at most as
    many quotes as it makes requests, each built from the market of the
    iteration. *)
Section MarketLoop.
Variable sv : nat -> request -> option response.
Variable built : json -> RawQuote -> Prop.
Variable body : json -> M Frame unit.
Hypothesis body_step :
  forall market s,
    server (fr_world s) = sv ->
    exists rs qs,
      snd (body market s) = grow s rs qs /\
      (List.length qs <= List.length rs <= 1)%nat /\
      stamped (built market) (fr_world s) (clock_reads (fr_world s)) qs.

Lemma m_for_step (items : list json) :
  forall s,
    server (fr_world s) = sv ->
    exists rs qs,
      snd (m_for items body s) = grow s rs qs /\
      (List.length qs <= List.length rs <= List.length items)%nat /\
      stamped (fun q => exists market, In market items /\ built market q)
              (fr_world s) (clock_reads (fr_world s)) qs.
Proof.
  induction items as [|x items IH]; intros s Hsv.
  - exists [], []. simpl. rewrite grow_nil.
    split; [reflexivity|]. split; [lia|apply stamped_nil].
  - destruct (body_step x s Hsv) as (r1 & q1 & E1 & L1 & S1).
    assert (S1' : stamped (fun q => exists market,
                             In market (x :: items) /\ built market q)
                          (fr_world s) (clock_reads (fr_world s)) q1).
    { apply (stamped_impl (built x)); [|exact S1].
      intros q Hq. exists x. split; [left; reflexivity|exact Hq]. }
    simpl. unfold m_bind.
    destruct (body x s) as [[[]|] s1] eqn:Eb; simpl in E1; subst s1.
    + destruct (IH (grow s r1 q1) Hsv) as (r2 & q2 & E2 & L2 & S2).
      exists (r1 ++ r2), (q1 ++ q2). rewrite E2, grow_grow.
      split; [reflexivity|]. rewrite !length_app.
      split; [simpl; lia|]. apply stamped_app; [exact S1'|].
      apply (stamped_impl
               (fun q => exists market, In market items /\ built market q));
        [|exact S2].
      intros q (market & Hin & Hq). exists market.
      split; [right; exact Hin|exact Hq].
    + exists r1, q1. simpl. split; [reflexivity|].
      split; [simpl; lia|exact S1'].
Qed.
End MarketLoop.

(** ** One market *)

Ltac split_match :=
  match goal with
  | |- context [match ?x with _ => _ end] =>
      lazymatch x with
      | context [match _ with _ => _ end] => fail
      | _ => destruct x eqn:?
      end
  end.

Ltac no_quote :=
  (exists [], []; rewrite grow_nil; split; [reflexivity|];
   split; [simpl; lia|apply stamped_nil]).

Ltac request_only :=
  (eexists [_], []; split; [unfold grow, on_world, record_request; simpl;
                            rewrite ?app_nil_r, ?Nat.add_0_r; reflexivity|];
   split; [simpl; lia|apply stamped_nil]).

Ltac request_and_quote built_facts :=
  (eexists [_], [_]; split;
   [unfold grow, on_world, record_request, record_clock_read; simpl;
    rewrite ?Nat.add_1_r; reflexivity|];
   split; [simpl; lia|];
   split; [constructor; [built_facts|constructor]|reflexivity]).

Ltac built_from_context :=
  (split; [split; reflexivity|];
   simpl; split; [assumption|]; split; [assumption|];
   repeat eexists; try eassumption; try reflexivity;
   try (apply Nat.eqb_eq; assumption);
   match goal with
   | H : (_ && _)%bool = true |- _ => apply andb_prop in H; apply H
   end).

Lemma Kalshi_market_step (market : json) (s : Frame) :
  exists rs qs,
    snd (Kalshi_market market s) = grow s rs qs /\
    (List.length qs <= List.length rs <= 1)%nat /\
    stamped (Kalshi_built (server (fr_world s)) market)
            (fr_world s) (clock_reads (fr_world s)) qs.
Proof.
  unfold Kalshi_market, m_bind, py, try_except, http_get, resp_json,
    time_time, append_price, m_ret.
  repeat (split_match; simpl);
    first [no_quote | request_only | request_and_quote built_from_context].
Qed.

Lemma Polymarket_market_step (float_of_str : string -> option Q)
    (market : json) (s : Frame) :
  exists rs qs,
    snd (Polymarket_market float_of_str market s) = grow s rs qs /\
    (List.length qs <= List.length rs <= 1)%nat /\
    stamped (Polymarket_built float_of_str (server (fr_world s)) market)
            (fr_world s) (clock_reads (fr_world s)) qs.
Proof.
  unfold Polymarket_market, m_bind, py, try_except, http_get, resp_json,
    time_time, append_price, m_ret.
  repeat (split_match; simpl);
    first [no_quote | request_only | request_and_quote built_from_context].
Qed.

(** ** One fetch *)

Lemma request_grow (req : request) (s : Frame) :
  on_world (record_request req) s = grow s [req] [].
Proof.
  unfold grow, on_world, record_request. simpl.
  rewrite app_nil_r, Nat.add_0_r. reflexivity.
Qed.

Lemma Kalshi_try_step (s : Frame) :
  exists rs qs,
    snd (Kalshi_try s) = grow s (Kalshi_list_request :: rs) qs /\
    (List.length qs <= List.length rs)%nat /\
    stamped (fun q => exists items market,
               Kalshi_listing (fr_world s) items /\ In market items /\
               Kalshi_built (server (fr_world s)) market q)
            (fr_world s) (clock_reads (fr_world s)) qs.
Proof.
  assert (Hstop : exists rs qs,
             on_world (record_request Kalshi_list_request) s
             = grow s (Kalshi_list_request :: rs) qs /\
             (List.length qs <= List.length rs)%nat /\
             stamped (fun q => exists items market,
                        Kalshi_listing (fr_world s) items /\ In market items /\
                        Kalshi_built (server (fr_world s)) market q)
                     (fr_world s) (clock_reads (fr_world s)) qs).
  { exists [], []. split; [apply request_grow|].
    split; [simpl; lia|apply stamped_nil]. }
  unfold Kalshi_try, m_bind, py, http_get, resp_json, m_ret.
  fold Kalshi_list_request.
  destruct (server (fr_world s) (List.length (sent (fr_world s)))
              Kalshi_list_request) as [resp|] eqn:Er; simpl; [|exact Hstop].
  destruct (status resp =? 200)%nat eqn:Es; simpl; [|exact Hstop].
  destruct (json_body resp) as [data|] eqn:Ej; simpl; [|exact Hstop].
  destruct (get_or data "markets" (JArr [])) as [markets|] eqn:Em; simpl;
    [|exact Hstop].
  destruct (iterate markets) as [items|] eqn:Ei; simpl; [|exact Hstop].
  assert (Hbody : forall market s',
            server (fr_world s') = server (fr_world s) ->
            exists rs qs,
              snd (Kalshi_market market s') = grow s' rs qs /\
              (List.length qs <= List.length rs <= 1)%nat /\
              stamped (Kalshi_built (server (fr_world s)) market)
                      (fr_world s') (clock_reads (fr_world s')) qs).
  { intros market s' E. rewrite <- E. apply Kalshi_market_step. }
  destruct (m_for_step _ _ _ Hbody items
              (on_world (record_request Kalshi_list_request) s) eq_refl)
    as (rs & qs & E & L & St).
  exists rs, qs. rewrite E, request_grow, grow_grow. simpl.
  split; [reflexivity|]. split; [lia|].
  apply (stamped_impl
           (fun q => exists market,
              In market items /\
              Kalshi_built (server (fr_world s)) market q)); [|exact St].
  intros q (market & Hin & Hb). exists items, market.
  split; [|split; assumption].
  exists resp, data, markets. apply Nat.eqb_eq in Es.
  repeat split; assumption.
Qed.

Lemma firstn_30_length {A : Type} (l : list A) :
  (List.length (firstn 30 l) <= 30)%nat.
Proof. rewrite length_firstn. lia. Qed.

Lemma characters_length (s : string) :
  List.length (characters s) = String.length s.
Proof.
  induction s as [|c s IH]; simpl; [reflexivity|]. rewrite IH. reflexivity.
Qed.

Lemma substring_length_le (n m : nat) (s : string) :
  (String.length (substring n m s) <= m)%nat.
Proof.
  revert n m. induction s as [|c s IH]; intros [|n] [|m]; simpl; try lia.
  - specialize (IH 0%nat m). lia.
  - apply IH.
  - specialize (IH n (S m)). exact IH.
Qed.

(** What the loop of [PolymarketCollector] visits has at most 30 items. *)
Lemma slice30_iterate_length (listed markets : json) (items : list json) :
  slice30 listed = Some markets -> iterate markets = Some items ->
  (List.length items <= 30)%nat.
Proof.
  destruct listed; simpl; try discriminate; intros [= <-]; simpl;
    intros [= <-].
  - rewrite characters_length. apply substring_length_le.
  - apply firstn_30_length.
Qed.

Lemma Polymarket_try_step (float_of_str : string -> option Q) (s : Frame) :
  exists rs qs,
    snd (Polymarket_try float_of_str s)
    = grow s (Polymarket_list_request :: rs) qs /\
    (List.length qs <= List.length rs <= 30)%nat /\
    stamped (fun q => exists items market,
               Polymarket_listing (fr_world s) items /\ In market items /\
               Polymarket_built float_of_str (server (fr_world s)) market q)
            (fr_world s) (clock_reads (fr_world s)) qs.
Proof.
  assert (Hstop : exists rs qs,
             on_world (record_request Polymarket_list_request) s
             = grow s (Polymarket_list_request :: rs) qs /\
             (List.length qs <= List.length rs <= 30)%nat /\
             stamped (fun q => exists items market,
                        Polymarket_listing (fr_world s) items /\
                        In market items /\
                        Polymarket_built float_of_str (server (fr_world s))
                                         market q)
                     (fr_world s) (clock_reads (fr_world s)) qs).
  { exists [], []. split; [apply request_grow|].
    split; [simpl; lia|apply stamped_nil]. }
  unfold Polymarket_try, m_bind, py, http_get, resp_json, m_ret.
  fold Polymarket_list_request.
  destruct (server (fr_world s) (List.length (sent (fr_world s)))
              Polymarket_list_request) as [resp|] eqn:Er; simpl;
    [|exact Hstop].
  destruct (status resp =? 200)%nat eqn:Es; simpl; [|exact Hstop].
  destruct (json_body resp) as [data|] eqn:Ej; simpl; [|exact Hstop].
  destruct (get_or data "markets" (JArr [])) as [listed|] eqn:Em; simpl;
    [|exact Hstop].
  destruct (slice30 listed) as [markets|] eqn:Ec; simpl; [|exact Hstop].
  destruct (iterate markets) as [items|] eqn:Ei; simpl; [|exact Hstop].
  pose proof (slice30_iterate_length _ _ _ Ec Ei) as H30.
  assert (Hbody : forall market s',
            server (fr_world s') = server (fr_world s) ->
            exists rs qs,
              snd (Polymarket_market float_of_str market s') = grow s' rs qs /\
              (List.length qs <= List.length rs <= 1)%nat /\
              stamped (Polymarket_built float_of_str (server (fr_world s))
                                        market)
                      (fr_world s') (clock_reads (fr_world s')) qs).
  { intros market s' E. rewrite <- E. apply Polymarket_market_step. }
  destruct (m_for_step _ _ _ Hbody items
              (on_world (record_request Polymarket_list_request) s) eq_refl)
    as (rs & qs & E & L & St).
  exists rs, qs. rewrite E, request_grow, grow_grow. simpl.
  split; [reflexivity|]. split; [lia|].
  apply (stamped_impl
           (fun q => exists market,
              In market items /\
              Polymarket_built float_of_str (server (fr_world s)) market q));
    [|exact St].
  intros q (market & Hin & Hb). exists items, market.
  split; [|split; assumption].
  exists resp, data, listed, markets. apply Nat.eqb_eq in Es.
  repeat split; assumption.
Qed.

(** The whole fetch, from what its [try] block does. *)
Lemma fetch_with_spec (name : string) (body : M Frame unit) (w : World)
    (rs : list request) (qs : list RawQuote) :
  snd (body {| fr_world := w; fr_prices := [] |})
  = grow {| fr_world := w; fr_prices := [] |} rs qs ->
  fetch_with name body w
  = (qs, after_fetch w rs (List.length qs)
           (match fst (body {| fr_world := w; fr_prices := [] |}) with
            | Some _ => []
            | None => [error_line name]
            end ++ [info_line name (List.length qs)])).
Proof.
  intros E. unfold fetch_with, try_except, log_event.
  destruct (body {| fr_world := w; fr_prices := [] |}) as [[[]|] s1];
    simpl in *; subst s1; unfold after_fetch, on_world, record_event; simpl;
    rewrite <- ?app_assoc; reflexivity.
Qed.

Lemma Kalshi_fetch_spec (w : World) :
  exists rs qs logged,
    KalshiCollector_fetch_markets w
    = (qs, after_fetch w (Kalshi_list_request :: rs) (List.length qs)
             (logged ++ [info_line "Kalshi" (List.length qs)])) /\
    (List.length qs <= List.length rs)%nat /\
    stamped (fun q => exists items market,
               Kalshi_listing w items /\ In market items /\
               Kalshi_built (server w) market q)
            w (clock_reads w) qs /\
    (logged = [] \/ logged = [error_line "Kalshi"]).
Proof.
  destruct (Kalshi_try_step {| fr_world := w; fr_prices := [] |})
    as (rs & qs & E & L & St).
  exists rs, qs. eexists. split; [|split; [exact L|split; [exact St|]]].
  - unfold KalshiCollector_fetch_markets.
    rewrite (fetch_with_spec "Kalshi" Kalshi_try w _ _ E). reflexivity.
  - simpl. destruct (fst (Kalshi_try _)); [left|right]; reflexivity.
Qed.

Lemma Polymarket_fetch_spec (float_of_str : string -> option Q) (w : World) :
  exists rs qs logged,
    PolymarketCollector_fetch_markets float_of_str w
    = (qs, after_fetch w (Polymarket_list_request :: rs) (List.length qs)
             (logged ++ [info_line "Polymarket" (List.length qs)])) /\
    (List.length qs <= List.length rs <= 30)%nat /\
    stamped (fun q => exists items market,
               Polymarket_listing w items /\ In market items /\
               Polymarket_built float_of_str (server w) market q)
            w (clock_reads w) qs /\
    (logged = [] \/ logged = [error_line "Polymarket"]).
Proof.
  destruct (Polymarket_try_step float_of_str
              {| fr_world := w; fr_prices := [] |})
    as (rs & qs & E & L & St).
  exists rs, qs. eexists. split; [|split; [exact L|split; [exact St|]]].
  - unfold PolymarketCollector_fetch_markets.
    rewrite (fetch_with_spec "Polymarket" (Polymarket_try float_of_str)
               w _ _ E).
    reflexivity.
  - simpl. destruct (fst (Polymarket_try _ _)); [left|right]; reflexivity.
Qed.

(** ** What the collectors return *)

(** X12: every quote [KalshiCollector.fetch_markets] returns has the
    platform "Kalshi" and the outcome "YES"; every quote
    [PolymarketCollector.fetch_markets] returns has the platform
    "Polymarket", the outcome "YES", and numbers as bid and ask. *)
Theorem fetched_quotes_labelled (float_of_str : string -> option Q)
    (w : World) (q : RawQuote) :
  (In q (fst (KalshiCollector_fetch_markets w)) ->
   raw_platform q = "Kalshi" /\ raw_outcome q = "YES") /\
  (In q (fst (PolymarketCollector_fetch_markets float_of_str w)) ->
   raw_platform q = "Polymarket" /\ raw_outcome q = "YES" /\
   exists b a, raw_bid q = JNum b /\ raw_ask q = JNum a).
Proof.
  split; intros Hin.
  - destruct (Kalshi_fetch_spec w) as (rs & qs & lg & E & _ & [F _] & _).
    rewrite E in Hin. simpl in Hin. rewrite Forall_forall in F.
    destruct (F q Hin) as (items & market & _ & _ & Hb). apply Hb.
  - destruct (Polymarket_fetch_spec float_of_str w)
      as (rs & qs & lg & E & _ & [F _] & _).
    rewrite E in Hin. simpl in Hin. rewrite Forall_forall in F.
    destruct (F q Hin) as (items & market & _ & _ & Hb).
    destruct Hb as ([H1 H2] & _ & _ & Hex).
    split; [exact H1|]. split; [exact H2|].
    destruct Hex as (k & resp & ob & bids & asks & b0 & b00 & a0 & a00
                     & b & a & Hrest).
    exists b, a. split; apply Hrest.
Qed.

Lemma fetched_quotes_labelled_witness :
  exists q,
    In q (fst (PolymarketCollector_fetch_markets sample_float_of_str
                 sample_world)) /\
    raw_platform q = "Polymarket" /\ raw_outcome q = "YES" /\
    exists b a, raw_bid q = JNum b /\ raw_ask q = JNum a.
Proof.
  eexists. split; [left; reflexivity|].
  refine (proj2 (fetched_quotes_labelled sample_float_of_str sample_world _)
                (or_introl eq_refl)).
Defined.

(** X13: a fetch first requests the list of markets and then makes at
    most one order-book request per market; it returns at most as many
    quotes as it made order-book requests; [PolymarketCollector] makes at
    most 30 of them, so at most 31 requests for at most 30 quotes.  The
    earlier requests of the world are kept. *)
Theorem fetch_requests_bounded (float_of_str : string -> option Q)
    (w : World) :
  (exists rs,
     sent (snd (KalshiCollector_fetch_markets w))
     = sent w ++ Kalshi_list_request :: rs /\
     (List.length (fst (KalshiCollector_fetch_markets w))
      <= List.length rs)%nat) /\
  (exists rs,
     sent (snd (PolymarketCollector_fetch_markets float_of_str w))
     = sent w ++ Polymarket_list_request :: rs /\
     (List.length (fst (PolymarketCollector_fetch_markets float_of_str w))
      <= List.length rs <= 30)%nat).
Proof.
  split.
  - destruct (Kalshi_fetch_spec w) as (rs & qs & lg & E & L & _).
    exists rs. rewrite E. simpl. split; [reflexivity|exact L].
  - destruct (Polymarket_fetch_spec float_of_str w)
      as (rs & qs & lg & E & L & _).
    exists rs. rewrite E. simpl. split; [reflexivity|exact L].
Qed.

(** X14: a fetch reads the clock once per returned quote, and the
    timestamps of the quotes are these readings, in order. *)
Theorem fetch_timestamps (float_of_str : string -> option Q) (w : World) :
  (let '(qs, w') := KalshiCollector_fetch_markets w in
   clock_reads w' = (clock_reads w + List.length qs)%nat /\
   map raw_timestamp qs
   = map (clock w) (seq (clock_reads w) (List.length qs))) /\
  (let '(qs, w') := PolymarketCollector_fetch_markets float_of_str w in
   clock_reads w' = (clock_reads w + List.length qs)%nat /\
   map raw_timestamp qs
   = map (clock w) (seq (clock_reads w) (List.length qs))).
Proof.
  split.
  - destruct (Kalshi_fetch_spec w) as (rs & qs & lg & E & _ & [_ T] & _).
    rewrite E. simpl. split; [reflexivity|exact T].
  - destruct (Polymarket_fetch_spec float_of_str w)
      as (rs & qs & lg & E & _ & [_ T] & _).
    rewrite E. simpl. split; [reflexivity|exact T].
Qed.

(** X15: a fetch ends its log with the info line that gives the number of
    quotes it returns, preceded by at most one error line, and logs
    nothing else; it changes neither the server nor the clock. *)
Theorem fetch_log (float_of_str : string -> option Q) (w : World) :
  (let '(qs, w') := KalshiCollector_fetch_markets w in
   (trace w' = trace w ++ [info_line "Kalshi" (List.length qs)] \/
    trace w' = trace w ++ [error_line "Kalshi";
                           info_line "Kalshi" (List.length qs)]) /\
   server w' = server w /\ clock w' = clock w) /\
  (let '(qs, w') := PolymarketCollector_fetch_markets float_of_str w in
   (trace w' = trace w ++ [info_line "Polymarket" (List.length qs)] \/
    trace w' = trace w ++ [error_line "Polymarket";
                           info_line "Polymarket" (List.length qs)]) /\
   server w' = server w /\ clock w' = clock w).
Proof.
  split.
  - destruct (Kalshi_fetch_spec w) as (rs & qs & lg & E & _ & _ & [->| ->]);
      rewrite E; simpl; (split; [|split; reflexivity]);
      [left|right]; reflexivity.
  - destruct (Polymarket_fetch_spec float_of_str w)
      as (rs & qs & lg & E & _ & _ & [->| ->]);
      rewrite E; simpl; (split; [|split; reflexivity]);
      [left|right]; reflexivity.
Qed.

(** ** Where a quote comes from *)

(** X16: every quote [KalshiCollector.fetch_markets] returns is built
    from one market of the list the server gave: its identifier and event
    name are the [market_id] and [title] of the market (the empty string
    for a missing key), and its bid and ask are the [yes_bid] and
    [yes_ask] of an order book the server returned with status 200 for
    that identifier, 0.5 standing for a missing key; the raw values are
    stored without conversion. *)
Theorem Kalshi_quote_provenance (w : World) (q : RawQuote) :
  In q (fst (KalshiCollector_fetch_markets w)) ->
  exists items market,
    Kalshi_listing w items /\ In market items /\
    get_or market "market_id" (JStr "") = Some (raw_event_id q) /\
    get_or market "title" (JStr "") = Some (raw_event_name q) /\
    exists k resp ob,
      server w k (orderbook_request Kalshi_base_url (raw_event_id q))
      = Some resp /\
      status resp = 200%nat /\ json_body resp = Some ob /\
      get_or ob "yes_bid" (JNum 0.5) = Some (raw_bid q) /\
      get_or ob "yes_ask" (JNum 0.5) = Some (raw_ask q).
Proof.
  intros Hin.
  destruct (Kalshi_fetch_spec w) as (rs & qs & lg & E & _ & [F _] & _).
  rewrite E in Hin. simpl in Hin. rewrite Forall_forall in F.
  destruct (F q Hin) as (items & market & Hl & Hm & _ & Hid & Ht & Hob).
  exists items, market. repeat split; assumption.
Qed.

Lemma Kalshi_quote_provenance_witness :
  exists q,
    In q (fst (KalshiCollector_fetch_markets sample_world)) /\
    raw_bid q = JNum 0.40 /\ raw_ask q = JNum 0.5 /\
    exists items market,
      Kalshi_listing sample_world items /\ In market items /\
      get_or market "market_id" (JStr "") = Some (raw_event_id q).
Proof.
  eexists. split; [left; reflexivity|].
  split; [reflexivity|]. split; [reflexivity|].
  destruct (Kalshi_quote_provenance sample_world _ (or_introl eq_refl))
    as (items & market & Hl & Hm & Hid & _).
  exists items, market. split; [exact Hl|]. split; [exact Hm|exact Hid].
Defined.

(** X17: every quote [PolymarketCollector.fetch_markets] returns is built
    from one of the first 30 markets of the list the server gave: its
    identifier and event name are the [condition_id] and [question] of
    the market, its order book was returned with status 200 and has
    non-empty [bids] and [asks], and its bid and ask are the floats read
    from the first item of the first bid and of the first ask. *)
Theorem Polymarket_quote_provenance (float_of_str : string -> option Q)
    (w : World) (q : RawQuote) :
  In q (fst (PolymarketCollector_fetch_markets float_of_str w)) ->
  exists items market,
    Polymarket_listing w items /\ (List.length items <= 30)%nat /\
    In market items /\
    get_or market "condition_id" (JStr "") = Some (raw_event_id q) /\
    get_or market "question" (JStr "") = Some (raw_event_name q) /\
    exists k resp ob bids asks bid0 bid00 ask0 ask00 b a,
      server w k (orderbook_request Polymarket_api_url (raw_event_id q))
      = Some resp /\
      status resp = 200%nat /\ json_body resp = Some ob /\
      get_or ob "bids" (JArr []) = Some bids /\
      get_or ob "asks" (JArr []) = Some asks /\
      truth bids = true /\ truth asks = true /\
      item0 bids = Some bid0 /\ item0 bid0 = Some bid00 /\
      to_float float_of_str bid00 = Some b /\
      item0 asks = Some ask0 /\ item0 ask0 = Some ask00 /\
      to_float float_of_str ask00 = Some a /\
      raw_bid q = JNum b /\ raw_ask q = JNum a.
Proof.
  intros Hin.
  destruct (Polymarket_fetch_spec float_of_str w)
    as (rs & qs & lg & E & _ & [F _] & _).
  rewrite E in Hin. simpl in Hin. rewrite Forall_forall in F.
  destruct (F q Hin) as (items & market & Hl & Hm & _ & Hid & Ht & Hob).
  exists items, market.
  split; [exact Hl|]. split.
  - destruct Hl as (resp & data & listed & markets & _ & _ & _ & _ & Hs & Hi).
    exact (slice30_iterate_length _ _ _ Hs Hi).
  - repeat split; assumption.
Qed.

Lemma Polymarket_quote_provenance_witness :
  exists q,
    In q (fst (PolymarketCollector_fetch_markets sample_float_of_str
                 sample_world)) /\
    raw_bid q = JNum 0.50 /\ raw_ask q = JNum 0.52 /\
    exists items market,
      Polymarket_listing sample_world items /\
      (List.length items <= 30)%nat /\ In market items.
Proof.
  eexists. split; [left; reflexivity|].
  split; [reflexivity|]. split; [reflexivity|].
  destruct (Polymarket_quote_provenance sample_float_of_str sample_world _
              (or_introl eq_refl))
    as (items & market & Hl & H30 & Hm & _).
  exists items, market. split; [exact Hl|]. split; [exact H30|exact Hm].
Defined.

(** ** A failing list request *)

Lemma fetch_with_failed (name : string) (body : M Frame unit) (w : World)
    (req : request) (raised : option unit) :
  body {| fr_world := w; fr_prices := [] |}
  = (raised, on_world (record_request req)
                      {| fr_world := w; fr_prices := [] |}) ->
  fetch_with name body w
  = ([], after_fetch w [req] 0
           (match raised with
            | Some _ => []
            | None => [error_line name]
            end ++ [info_line name 0])).
Proof.
  intros E.
  rewrite (fetch_with_spec name body w [req] []).
  - rewrite E. reflexivity.
  - rewrite E. simpl. apply request_grow.
Qed.

(** X18: when the request for the list of markets raises, a fetch of
    either collector returns no quote after this single request, logs
    one error line and the info line for 0 prices, and does not raise;
    when the request is answered with a status other than 200, it
    returns no quote after this single request and logs the info line
    alone: the status is not reported. *)
Theorem list_request_failure (float_of_str : string -> option Q)
    (w : World) :
  (server w (List.length (sent w)) Kalshi_list_request = None ->
   KalshiCollector_fetch_markets w
   = ([], after_fetch w [Kalshi_list_request] 0
            [error_line "Kalshi"; info_line "Kalshi" 0])) /\
  (forall resp,
     server w (List.length (sent w)) Kalshi_list_request = Some resp ->
     status resp <> 200%nat ->
     KalshiCollector_fetch_markets w
     = ([], after_fetch w [Kalshi_list_request] 0 [info_line "Kalshi" 0])) /\
  (server w (List.length (sent w)) Polymarket_list_request = None ->
   PolymarketCollector_fetch_markets float_of_str w
   = ([], after_fetch w [Polymarket_list_request] 0
            [error_line "Polymarket"; info_line "Polymarket" 0])) /\
  (forall resp,
     server w (List.length (sent w)) Polymarket_list_request = Some resp ->
     status resp <> 200%nat ->
     PolymarketCollector_fetch_markets float_of_str w
     = ([], after_fetch w [Polymarket_list_request] 0
              [info_line "Polymarket" 0])).
Proof.
  split; [|split; [|split]].
  - intros H.
    apply (fetch_with_failed "Kalshi" Kalshi_try w Kalshi_list_request None).
    unfold Kalshi_try, m_bind, http_get. fold Kalshi_list_request.
    simpl. rewrite H. reflexivity.
  - intros resp H Hs. apply Nat.eqb_neq in Hs.
    apply (fetch_with_failed "Kalshi" Kalshi_try w Kalshi_list_request
             (Some tt)).
    unfold Kalshi_try, m_bind, http_get, m_ret. fold Kalshi_list_request.
    simpl. rewrite H, Hs. reflexivity.
  - intros H.
    apply (fetch_with_failed "Polymarket" (Polymarket_try float_of_str) w
             Polymarket_list_request None).
    unfold Polymarket_try, m_bind, http_get. fold Polymarket_list_request.
    simpl. rewrite H. reflexivity.
  - intros resp H Hs. apply Nat.eqb_neq in Hs.
    apply (fetch_with_failed "Polymarket" (Polymarket_try float_of_str) w
             Polymarket_list_request (Some tt)).
    unfold Polymarket_try, m_bind, http_get, m_ret.
    fold Polymarket_list_request.
    simpl. rewrite H, Hs. reflexivity.
Qed.

Lemma list_request_failure_witness :
  KalshiCollector_fetch_markets dead_world
  = ([], after_fetch dead_world [Kalshi_list_request] 0
           [error_line "Kalshi"; info_line "Kalshi" 0]) /\
  KalshiCollector_fetch_markets failing_world
  = ([], after_fetch failing_world [Kalshi_list_request] 0
           [info_line "Kalshi" 0]).
Proof.
  split.
  - apply (proj1 (list_request_failure sample_float_of_str dead_world)).
    reflexivity.
  - apply (proj1 (proj2 (list_request_failure sample_float_of_str
                           failing_world))
             {| status := 500; json_body := None |}).
    + reflexivity.
    + discriminate.
Defined.

(** ** The order-book requests *)

Lemma m_for_app {St A : Type} (xs ys : list A) (body : A -> M St unit)
    (s : St) :
  m_for (xs ++ ys) body s = (_ <~ m_for xs body ;; m_for ys body) s.
Proof.
  revert s. induction xs as [|x xs IH]; intros s; simpl.
  - reflexivity.
  - unfold m_bind. destruct (body x s) as [[[]|] s1]; [|reflexivity].
    rewrite IH. reflexivity.
Qed.

Lemma get_or_dict (fields : list (string * json)) (k : string) (d : json) :
  get_or (JObj fields) k d
  = Some (match dict_get fields k with Some x => x | None => d end).
Proof. unfold get_or. destruct (dict_get fields k); reflexivity. Qed.

Lemma get_or_not_dict (v : json) (k : string) (d : json) :
  is_dict v = false -> get_or v k d = None.
Proof. destruct v; simpl; try reflexivity. discriminate. Qed.

Ltac only_request :=
  (exists []; split; [|simpl; lia];
   unfold grow, on_world, record_request; simpl;
   rewrite ?app_nil_r, ?Nat.add_0_r; reflexivity).

Ltac request_then_quote :=
  (eexists [_]; split; [|simpl; lia];
   unfold grow, on_world, record_request, record_clock_read; simpl;
   rewrite ?Nat.add_1_r; reflexivity).

(** A market that is a dict costs exactly one request and never raises,
    whatever the answer. *)
Lemma Kalshi_market_dict (fields : list (string * json)) (s : Frame) :
  exists qs,
    Kalshi_market (JObj fields) s
    = (Some tt,
       grow s [orderbook_request Kalshi_base_url
                 (match dict_get fields "market_id" with
                  | Some x => x
                  | None => JStr ""
                  end)] qs) /\
    (List.length qs <= 1)%nat.
Proof.
  unfold Kalshi_market. unfold m_bind at 1. unfold py at 1.
  rewrite get_or_dict. unfold m_bind at 1. unfold py at 1.
  rewrite get_or_dict.
  unfold m_bind, py, try_except, http_get, resp_json,
    time_time, append_price, m_ret, orderbook_request.
  simpl.
  repeat (split_match; simpl); first [only_request | request_then_quote].
Qed.

Lemma Polymarket_market_dict (float_of_str : string -> option Q)
    (fields : list (string * json)) (s : Frame) :
  exists qs,
    Polymarket_market float_of_str (JObj fields) s
    = (Some tt,
       grow s [orderbook_request Polymarket_api_url
                 (match dict_get fields "condition_id" with
                  | Some x => x
                  | None => JStr ""
                  end)] qs) /\
    (List.length qs <= 1)%nat.
Proof.
  unfold Polymarket_market. unfold m_bind at 1. unfold py at 1.
  rewrite get_or_dict. unfold m_bind at 1. unfold py at 1.
  rewrite get_or_dict.
  unfold m_bind, py, try_except, http_get, resp_json,
    time_time, append_price, m_ret, orderbook_request.
  simpl.
  repeat (split_match; simpl); first [only_request | request_then_quote].
Qed.

Lemma Kalshi_market_not_dict (market : json) (s : Frame) :
  is_dict market = false -> Kalshi_market market s = (None, s).
Proof.
  intros H. unfold Kalshi_market, m_bind, py.
  rewrite (get_or_not_dict _ _ _ H). reflexivity.
Qed.

Lemma Polymarket_market_not_dict (float_of_str : string -> option Q)
    (market : json) (s : Frame) :
  is_dict market = false ->
  Polymarket_market float_of_str market s = (None, s).
Proof.
  intros H. unfold Polymarket_market, m_bind, py.
  rewrite (get_or_not_dict _ _ _ H). reflexivity.
Qed.

Section RequestLoop.
Variables base id_key : string.
Variable body : json -> M Frame unit.
Hypothesis body_dict :
  forall fields s,
  exists qs,
    body (JObj fields) s
    = (Some tt,
       grow s [orderbook_request base
                 (match dict_get fields id_key with
                  | Some x => x
                  | None => JStr ""
                  end)] qs) /\
    (List.length qs <= 1)%nat.
Hypothesis body_not_dict :
  forall market s, is_dict market = false -> body market s = (None, s).

(** The loop requests the order book of every market up to the first
    item that is not a dict, at which it raises. *)
Lemma m_for_requests (items : list json) :
  forall s,
  exists qs,
    m_for items body s
    = (if forallb is_dict items then Some tt else None,
       grow s (orderbook_requests base id_key (dict_prefix items)) qs) /\
    (List.length qs <= List.length (dict_prefix items))%nat.
Proof.
  induction items as [|x items IH]; intros s.
  - exists []. simpl. rewrite grow_nil. split; [reflexivity|lia].
  - cbn [m_for forallb dict_prefix]. unfold m_bind.
    destruct (is_dict x) eqn:Ex.
    + destruct x as [| | | | |fields]; try discriminate Ex.
      destruct (body_dict fields s) as (q1 & E1 & L1). rewrite E1.
      destruct (IH (grow s [orderbook_request base
                              (match dict_get fields id_key with
                               | Some x => x
                               | None => JStr ""
                               end)] q1)) as (q2 & E2 & L2).
      exists (q1 ++ q2). rewrite E2, grow_grow.
      unfold orderbook_requests. cbn [flat_map andb].
      rewrite get_or_dict, length_app. cbn [List.length].
      split; [reflexivity|lia].
    + rewrite (body_not_dict x s Ex). exists []. cbn [andb].
      unfold orderbook_requests. cbn [flat_map List.length].
      rewrite grow_nil. split; [reflexivity|lia].
Qed.
End RequestLoop.

Lemma Kalshi_try_listing (w : World) (items : list json) :
  Kalshi_listing w items ->
  Kalshi_try {| fr_world := w; fr_prices := [] |}
  = m_for items Kalshi_market
      (grow {| fr_world := w; fr_prices := [] |} [Kalshi_list_request] []).
Proof.
  intros (resp & data & markets & Er & Es & Ej & Em & Ei).
  unfold Kalshi_try, m_bind, http_get, resp_json, py.
  fold Kalshi_list_request. cbn [fr_world].
  rewrite Er. cbv beta iota. rewrite Es, Nat.eqb_refl, Ej. cbv beta iota.
  rewrite Em. cbv beta iota. rewrite Ei. cbv beta iota.
  rewrite request_grow. reflexivity.
Qed.

Lemma Polymarket_try_listing (float_of_str : string -> option Q)
    (w : World) (items : list json) :
  Polymarket_listing w items ->
  Polymarket_try float_of_str {| fr_world := w; fr_prices := [] |}
  = m_for items (Polymarket_market float_of_str)
      (grow {| fr_world := w; fr_prices := [] |} [Polymarket_list_request] []).
Proof.
  intros (resp & data & listed & markets & Er & Es & Ej & Em & Ec & Ei).
  unfold Polymarket_try, m_bind, http_get, resp_json, py.
  fold Polymarket_list_request. cbn [fr_world].
  rewrite Er. cbv beta iota. rewrite Es, Nat.eqb_refl, Ej. cbv beta iota.
  rewrite Em. cbv beta iota. rewrite Ec. cbv beta iota.
  rewrite Ei. cbv beta iota.
  rewrite request_grow. reflexivity.
Qed.

(** X19: when the server lists markets, a fetch requests the order book
    of every listed market that is a dict, once and in order, up to the
    first item that is not a dict: such an item ends the fetch with an
    error line and the later markets are not requested.  A failure of an
    order-book request is neither logged nor ends the fetch. *)
Theorem orderbook_requests_made (float_of_str : string -> option Q)
    (w : World) (items : list json) :
  (Kalshi_listing w items ->
   let '(qs, w') := KalshiCollector_fetch_markets w in
   sent w' = sent w ++ Kalshi_list_request
                       :: orderbook_requests Kalshi_base_url "market_id"
                            (dict_prefix items) /\
   (List.length qs <= List.length (dict_prefix items))%nat /\
   trace w' = trace w ++ (if forallb is_dict items then []
                          else [error_line "Kalshi"])
                      ++ [info_line "Kalshi" (List.length qs)]) /\
  (Polymarket_listing w items ->
   let '(qs, w') := PolymarketCollector_fetch_markets float_of_str w in
   sent w' = sent w ++ Polymarket_list_request
                       :: orderbook_requests Polymarket_api_url "condition_id"
                            (dict_prefix items) /\
   (List.length qs <= List.length (dict_prefix items))%nat /\
   trace w' = trace w ++ (if forallb is_dict items then []
                          else [error_line "Polymarket"])
                      ++ [info_line "Polymarket" (List.length qs)]).
Proof.
  split; intros Hl.
  - pose proof (Kalshi_try_listing w items Hl) as Et.
    destruct (m_for_requests Kalshi_base_url "market_id" Kalshi_market
                Kalshi_market_dict Kalshi_market_not_dict items
                (grow {| fr_world := w; fr_prices := [] |}
                      [Kalshi_list_request] []))
      as (qs & E & L).
    rewrite E, grow_grow in Et. simpl in Et.
    unfold KalshiCollector_fetch_markets.
    rewrite (fetch_with_spec "Kalshi" Kalshi_try w
               (Kalshi_list_request
                :: orderbook_requests Kalshi_base_url "market_id"
                     (dict_prefix items)) qs)
      by (rewrite Et; reflexivity).
    rewrite Et. simpl. split; [reflexivity|]. split; [exact L|].
    destruct (forallb is_dict items); reflexivity.
  - pose proof (Polymarket_try_listing float_of_str w items Hl) as Et.
    destruct (m_for_requests Polymarket_api_url "condition_id"
                (Polymarket_market float_of_str)
                (Polymarket_market_dict float_of_str)
                (Polymarket_market_not_dict float_of_str) items
                (grow {| fr_world := w; fr_prices := [] |}
                      [Polymarket_list_request] []))
      as (qs & E & L).
    rewrite E, grow_grow in Et. simpl in Et.
    unfold PolymarketCollector_fetch_markets.
    rewrite (fetch_with_spec "Polymarket" (Polymarket_try float_of_str) w
               (Polymarket_list_request
                :: orderbook_requests Polymarket_api_url "condition_id"
                     (dict_prefix items)) qs)
      by (rewrite Et; reflexivity).
    rewrite Et. simpl. split; [reflexivity|]. split; [exact L|].
    destruct (forallb is_dict items); reflexivity.
Qed.

Lemma orderbook_requests_made_witness :
  Kalshi_listing sample_world [sample_market] /\
  let '(qs, w') := KalshiCollector_fetch_markets sample_world in
  sent w' = sent sample_world ++ Kalshi_list_request
              :: orderbook_requests Kalshi_base_url "market_id"
                   (dict_prefix [sample_market]) /\
  (List.length qs <= List.length (dict_prefix [sample_market]))%nat /\
  trace w' = trace sample_world
             ++ (if forallb is_dict [sample_market] then []
                 else [error_line "Kalshi"])
             ++ [info_line "Kalshi" (List.length qs)].
Proof.
  assert (H : Kalshi_listing sample_world [sample_market]).
  { eexists. eexists. eexists. repeat split; reflexivity. }
  split; [exact H|].
  exact (proj1 (orderbook_requests_made sample_float_of_str sample_world
                  [sample_market]) H).
Defined.

(** X20: when the list request is answered with status 200 but gives no
    list of markets to iterate on (the body is not JSON, or is not a
    dict, or its value for [markets] is not iterable), a fetch of either
    collector returns no quote after this single request and logs one
    error line. *)
Theorem unusable_listing (float_of_str : string -> option Q) (w : World)
    (resp : response) :
  status resp = 200%nat ->
  (server w (List.length (sent w)) Kalshi_list_request = Some resp ->
   (forall items, ~ Kalshi_listing w items) ->
   KalshiCollector_fetch_markets w
   = ([], after_fetch w [Kalshi_list_request] 0
            [error_line "Kalshi"; info_line "Kalshi" 0])) /\
  (server w (List.length (sent w)) Polymarket_list_request = Some resp ->
   (forall items, ~ Polymarket_listing w items) ->
   PolymarketCollector_fetch_markets float_of_str w
   = ([], after_fetch w [Polymarket_list_request] 0
            [error_line "Polymarket"; info_line "Polymarket" 0])).
Proof.
  intros Es. split; intros Er Hno.
  - apply (fetch_with_failed "Kalshi" Kalshi_try w Kalshi_list_request None).
    unfold Kalshi_try, m_bind, http_get, resp_json, py.
    fold Kalshi_list_request. cbn [fr_world].
    rewrite Er. cbv beta iota. rewrite Es, Nat.eqb_refl.
    destruct (json_body resp) as [data|] eqn:Ej; [|reflexivity].
    cbv beta iota.
    destruct (get_or data "markets" (JArr [])) as [markets|] eqn:Em;
      [|reflexivity].
    cbv beta iota.
    destruct (iterate markets) as [items|] eqn:Ei; [|reflexivity].
    exfalso. apply (Hno items). exists resp, data, markets.
    repeat split; assumption.
  - apply (fetch_with_failed "Polymarket" (Polymarket_try float_of_str) w
             Polymarket_list_request None).
    unfold Polymarket_try, m_bind, http_get, resp_json, py.
    fold Polymarket_list_request. cbn [fr_world].
    rewrite Er. cbv beta iota. rewrite Es, Nat.eqb_refl.
    destruct (json_body resp) as [data|] eqn:Ej; [|reflexivity].
    cbv beta iota.
    destruct (get_or data "markets" (JArr [])) as [listed|] eqn:Em;
      [|reflexivity].
    cbv beta iota.
    destruct (slice30 listed) as [markets|] eqn:Ec; [|reflexivity].
    cbv beta iota.
    destruct (iterate markets) as [items|] eqn:Ei; [|reflexivity].
    exfalso. apply (Hno items). exists resp, data, listed, markets.
    repeat split; assumption.
Qed.

Lemma unusable_listing_witness :
  KalshiCollector_fetch_markets garbled_world
  = ([], after_fetch garbled_world [Kalshi_list_request] 0
           [error_line "Kalshi"; info_line "Kalshi" 0]).
Proof.
  apply (proj1 (unusable_listing sample_float_of_str garbled_world
                  {| status := 200; json_body := None |} eq_refl)).
  - reflexivity.
  - intros items (resp & data & markets & Er & _ & Ej & _).
    injection Er as <-. discriminate Ej.
Defined.

(** * The collectors with the engine, and the loop *)

Lemma NoDup_map_coarser {A B C : Type} (f : A -> B) (g : A -> C)
    (l : list A) :
  (forall x y, In x l -> In y l -> g x = g y -> f x = f y) ->
  NoDup (map f l) -> NoDup (map g l).
Proof.
  induction l as [|a l IH]; simpl; intros Hfg Hnd; [constructor|].
  inversion Hnd as [|? ? Ha Hl]; subst. constructor.
  - intros Hin. apply in_map_iff in Hin as (y & Ey & Hy). apply Ha.
    rewrite <- (Hfg y a (or_intror Hy) (or_introl eq_refl) Ey).
    apply in_map. exact Hy.
  - apply IH; [|exact Hl]. intros x y Hx Hy. apply Hfg; right; assumption.
Qed.

Lemma NoDup_map_filter {A B : Type} (g : A -> B) (p : A -> bool)
    (l : list A) :
  NoDup (map g l) -> NoDup (map g (filter p l)).
Proof.
  induction l as [|a l IH]; simpl; intros Hnd; [constructor|].
  inversion Hnd as [|? ? Ha Hl]; subst.
  destruct (p a); simpl; [|apply IH; exact Hl].
  constructor; [|apply IH; exact Hl].
  intros Hin. apply Ha. apply in_map_iff in Hin as (y & Ey & Hy).
  apply filter_In in Hy as [Hy _]. rewrite <- Ey. apply in_map. exact Hy.
Qed.

(** With quotes of the outcome YES from the two platforms only, a key has
    at most one comparison, between Kalshi and Polymarket. *)
Section TwoPlatforms.
Variable prices : list MarketPrice.
Hypothesis two_platforms :
  forall p, In p prices ->
    outcome p = "YES" /\ (platform p = "Kalshi" \/ platform p = "Polymarket").

Lemma two_platforms_names (k : string) (e1 e2 : string * MarketPrice) :
  In (k, e1, e2) (compared_pairs prices) ->
  (fst e1 = "Kalshi" /\ fst e2 = "Polymarket") \/
  (fst e1 = "Polymarket" /\ fst e2 = "Kalshi").
Proof.
  intros Hin.
  pose proof (compared_pairs_distinct _ _ _ _ Hin) as Hd.
  destruct (compared_pairs_quotes _ _ _ _ Hin)
    as [(I1 & _ & N1) (I2 & _ & N2)].
  destruct (two_platforms _ I1) as [_ [P1|P1]];
    destruct (two_platforms _ I2) as [_ [P2|P2]];
    rewrite N1 in P1; rewrite N2 in P2.
  - exfalso. apply Hd. congruence.
  - left. split; assumption.
  - right. split; assumption.
  - exfalso. apply Hd. congruence.
Qed.

Lemma two_platforms_one_comparison :
  NoDup (map (fun c : comparison => fst (fst c)) (compared_pairs prices)).
Proof.
  apply (NoDup_map_coarser comparison_names).
  - intros [[k e1] e2] [[k' e1'] e2'] Hx Hy. simpl. intros <-.
    destruct (two_platforms_names _ _ _ Hx) as [[A1 A2]|[A1 A2]];
      destruct (two_platforms_names _ _ _ Hy) as [[B1 B2]|[B1 B2]];
      try congruence; exfalso.
    + apply (comparison_names_asym prices k (fst e1) (fst e2)).
      * change (k, fst e1, fst e2) with (comparison_names (k, e1, e2)).
        apply in_map. exact Hx.
      * replace (k, fst e2, fst e1) with (comparison_names (k, e1', e2'))
          by (simpl; congruence).
        apply in_map. exact Hy.
    + apply (comparison_names_asym prices k (fst e1) (fst e2)).
      * change (k, fst e1, fst e2) with (comparison_names (k, e1, e2)).
        apply in_map. exact Hx.
      * replace (k, fst e2, fst e1) with (comparison_names (k, e1', e2'))
          by (simpl; congruence).
        apply in_map. exact Hy.
  - apply flat_comparisons_NoDup, group_prices_NoDup.
Qed.
End TwoPlatforms.

Lemma typed_quotes_In (raws : list RawQuote) (prices : list MarketPrice)
    (p : MarketPrice) :
  typed_quotes raws = Some prices -> In p prices ->
  exists r, In r raws /\ as_MarketPrice r = Some p.
Proof.
  revert prices. induction raws as [|r raws IH]; intros prices; simpl.
  - intros [= <-] [].
  - destruct (as_MarketPrice r) as [p0|] eqn:Er; [|discriminate].
    destruct (typed_quotes raws) as [ps|]; [|discriminate].
    intros [= <-] [<-|Hin].
    + exists r. split; [left; reflexivity|exact Er].
    + destruct (IH ps eq_refl Hin) as (r' & Hr & E).
      exists r'. split; [right; exact Hr|exact E].
Qed.

Lemma as_MarketPrice_labels (r : RawQuote) (p : MarketPrice) :
  as_MarketPrice r = Some p ->
  platform p = raw_platform r /\ outcome p = raw_outcome r.
Proof.
  unfold as_MarketPrice.
  destruct (raw_event_id r), (raw_event_name r), (raw_bid r), (raw_ask r);
    try discriminate.
  intros [= <-]. split; reflexivity.
Qed.

(** X21: one scan's worth of quotes, fetched by [KalshiCollector] and then
    by [PolymarketCollector] and well typed, gives the engine at most one
    record per key; every record is between Kalshi and Polymarket, one
    side each, on two quotes whose event names are equal without regard
    to case, and its key is that lower-cased name followed by "|YES". *)
Theorem collectors_feed_engine (float_of_str : string -> option Q)
    (w : World) (self : ArbitrageEngine)
    (prices : list MarketPrice) (opps : list Opportunity) :
  typed_quotes
    (fst (KalshiCollector_fetch_markets w)
     ++ fst (PolymarketCollector_fetch_markets float_of_str
               (snd (KalshiCollector_fetch_markets w))))
  = Some prices ->
  process_prices self prices = Ok opps ->
  NoDup (map event opps) /\
  forall o, In o opps ->
    ((buy_platform o = "Kalshi" /\ sell_platform o = "Polymarket") \/
     (buy_platform o = "Polymarket" /\ sell_platform o = "Kalshi")) /\
    exists p1 p2,
      In p1 prices /\ In p2 prices /\
      platform p1 <> platform p2 /\
      lower (event_name p1) = lower (event_name p2) /\
      event o = (lower (event_name p1) ++ "|YES")%string.
Proof.
  intros Htyped Hrun.
  assert (Htwo : forall p, In p prices ->
            outcome p = "YES" /\
            (platform p = "Kalshi" \/ platform p = "Polymarket")).
  { intros p Hp.
    destruct (typed_quotes_In _ _ _ Htyped Hp) as (r & Hr & Er).
    destruct (as_MarketPrice_labels _ _ Er) as [-> ->].
    apply in_app_or in Hr as [Hr|Hr].
    - destruct (Kalshi_fetch_spec w) as (rs & qs & lg & E & _ & [F _] & _).
      rewrite E in Hr. simpl in Hr. rewrite Forall_forall in F.
      destruct (F r Hr) as (_ & _ & _ & _ & [H1 H2] & _).
      split; [exact H2|left; exact H1].
    - destruct (Polymarket_fetch_spec float_of_str
                  (snd (KalshiCollector_fetch_markets w)))
        as (rs & qs & lg & E & _ & [F _] & _).
      rewrite E in Hr. simpl in Hr. rewrite Forall_forall in F.
      destruct (F r Hr) as (_ & _ & _ & _ & [H1 H2] & _).
      split; [exact H2|right; exact H1]. }
  apply process_prices_Ok in Hrun as [-> _]. split.
  - unfold emitted. rewrite map_map.
    rewrite (map_ext (fun c => event (opportunity_of self c))
                     (fun c : comparison => fst (fst c)))
      by (intros [[k e1] e2]; reflexivity).
    apply NoDup_map_filter, two_platforms_one_comparison. exact Htwo.
  - intros o Ho.
    apply emitted_In in Ho as ([[k [n1 p1]] [n2 p2]] & Hin & _ & ->).
    pose proof (two_platforms_names prices Htwo _ _ _ Hin) as Hn.
    pose proof (compared_pairs_distinct _ _ _ _ Hin) as Hd.
    destruct (compared_pairs_quotes _ _ _ _ Hin)
      as [(I1 & K1 & N1) (I2 & K2 & N2)].
    simpl in Hn, Hd, I1, I2, K1, K2, N1, N2.
    split.
    + unfold opportunity_of, buy_name, sell_name. simpl.
      destruct (gtb (mid p1) (mid p2)); destruct Hn as [[-> ->]|[-> ->]];
        [right|left|left|right]; split; reflexivity.
    + exists p1, p2. split; [exact I1|]. split; [exact I2|].
      split; [congruence|].
      destruct (Htwo p1 I1) as [O1 _]. destruct (Htwo p2 I2) as [O2 _].
      assert (K : key_of p1 = key_of p2) by congruence.
      unfold key_of in K. rewrite O1, O2 in K.
      destruct (key_split _ _ _ _ K eq_refl eq_refl) as [Hl _].
      split; [exact Hl|].
      simpl. rewrite <- K1. unfold key_of. rewrite O1. reflexivity.
Qed.

Lemma collectors_feed_engine_witness :
  exists prices opps,
    typed_quotes
      (fst (KalshiCollector_fetch_markets sample_world)
       ++ fst (PolymarketCollector_fetch_markets sample_float_of_str
                 (snd (KalshiCollector_fetch_markets sample_world))))
    = Some prices /\
    process_prices default_engine prices = Ok opps /\
    NoDup (map event opps).
Proof.
  eexists. eexists. split; [vm_compute; reflexivity|].
  split; [vm_compute; reflexivity|].
  refine (proj1 (collectors_feed_engine sample_float_of_str sample_world
                   default_engine _ _ eq_refl eq_refl)).
Defined.

(** ** The loop *)

Lemma sleeps_app (a b : list event_record) :
  sleeps (a ++ b) = sleeps a ++ sleeps b.
Proof. apply flat_map_app. Qed.

Lemma collect_quiet (collectors : list Collector) :
  Forall quiet collectors ->
  forall acc w, exists added,
    trace (snd (collect collectors acc w)) = trace w ++ added /\
    sleeps added = [].
Proof.
  induction 1 as [|c cs Hc Hcs IH]; intros acc w; simpl.
  - exists []. rewrite app_nil_r. split; reflexivity.
  - destruct (Hc w) as (a1 & E1 & S1).
    destruct (c w) as [prices w1]. simpl in E1.
    destruct (IH (acc ++ prices) w1) as (a2 & E2 & S2).
    exists (a1 ++ a2). rewrite E2, E1, app_assoc, sleeps_app, S1, S2.
    split; reflexivity.
Qed.

Lemma report_quiet (opps : list Opportunity) (w : World) :
  exists added,
    trace (report opps w) = trace w ++ added /\ sleeps added = [].
Proof.
  assert (Hfold : forall l w0, exists added,
             trace (fold_left report_opportunity l w0) = trace w0 ++ added /\
             sleeps added = []).
  { induction l as [|o l IH]; intros w0; simpl.
    - exists []. rewrite app_nil_r. split; reflexivity.
    - destruct (IH (report_opportunity w0 o)) as (a & E & S).
      eexists. rewrite E. unfold report_opportunity, print_line. simpl.
      rewrite <- !app_assoc. split; [reflexivity|].
      simpl. exact S. }
  destruct opps as [|o opps]; unfold report.
  - eexists. unfold print_line. simpl. split; reflexivity.
  - destruct (Hfold (o :: opps)
                (print_line (FoundLine (List.length (o :: opps))) w))
      as (a & E & S).
    eexists. rewrite E. unfold print_line. simpl.
    rewrite <- app_assoc. split; [reflexivity|]. simpl. exact S.
Qed.

Lemma scan_step (collectors : list Collector) (engine : ArbitrageEngine)
    (iteration : nat) (w : World) :
  Forall quiet collectors ->
  exists added seconds,
    fst (scan collectors engine iteration w) = (iteration + 1)%nat /\
    trace (snd (scan collectors engine iteration w))
    = trace w ++ added ++ [Slept seconds] /\
    sleeps added = [] /\
    (seconds = POLL_INTERVAL \/ seconds = 10%nat).
Proof.
  intros Hq. unfold scan.
  destruct (collect_quiet collectors Hq []
              (print_line (ScanHeader (iteration + 1)
                             (clock w (clock_reads w)))
                          (record_clock_read w)))
    as (a1 & E1 & S1).
  destruct (collect collectors [] _) as [prices w1]. simpl in E1.
  destruct (process_prices engine prices) as [opps|e]; simpl.
  - destruct (report_quiet opps w1) as (a2 & E2 & S2).
    exists (Printed (ScanHeader (iteration + 1) (clock w (clock_reads w)))
            :: a1 ++ a2), POLL_INTERVAL.
    rewrite E2, E1. split; [reflexivity|].
    split; [simpl; rewrite <- !app_assoc; reflexivity|].
    split; [simpl; rewrite sleeps_app, S1, S2; reflexivity|left; reflexivity].
  - exists (Printed (ScanHeader (iteration + 1) (clock w (clock_reads w)))
            :: a1 ++ [LoggedError "Error: "]), 10%nat.
    rewrite E1. split; [reflexivity|].
    split; [simpl; rewrite <- !app_assoc; reflexivity|].
    split; [simpl; rewrite sleeps_app, S1; reflexivity|right; reflexivity].
Qed.

(** X22: with collectors that only add to the trace and never sleep, [n]
    turns of the loop of [main] advance [iteration] by [n] and sleep
    exactly [n] times, each time 5 or 10 seconds: a turn always reaches
    its sleep, also when [process_prices] raises. *)
Theorem loop_sleeps_once_per_scan (collectors : list Collector)
    (engine : ArbitrageEngine) (n : nat) :
  Forall quiet collectors ->
  forall iteration w,
    fst (scans n collectors engine iteration w) = (iteration + n)%nat /\
    exists added,
      trace (snd (scans n collectors engine iteration w))
      = trace w ++ added /\
      List.length (sleeps added) = n /\
      Forall (fun seconds => seconds = 5%nat \/ seconds = 10%nat)
             (sleeps added).
Proof.
  intros Hq. induction n as [|n IH]; intros iteration w; simpl.
  - split; [lia|]. exists []. rewrite app_nil_r.
    split; [reflexivity|]. split; [reflexivity|constructor].
  - destruct (scan_step collectors engine iteration w Hq)
      as (a1 & secs & Ei & Et & Sa & Hsecs).
    destruct (scan collectors engine iteration w) as [i1 w1].
    simpl in Ei, Et. subst i1.
    destruct (IH (iteration + 1)%nat w1) as [Ei2 (a2 & Et2 & Ln & Fa)].
    split; [rewrite Ei2; lia|].
    exists (a1 ++ [Slept secs] ++ a2).
    rewrite Et2, Et, <- !app_assoc.
    split; [reflexivity|].
    rewrite !sleeps_app, Sa. simpl. split; [rewrite Ln; reflexivity|].
    constructor; [exact Hsecs|exact Fa].
Qed.

Lemma loop_sleeps_once_per_scan_witness :
  Forall quiet [zero_mid_collector] /\
  fst (scans 3 [zero_mid_collector] default_engine 0 (world_of sample_server))
  = (0 + 3)%nat.
Proof.
  assert (H : Forall quiet [zero_mid_collector]).
  { constructor; [|constructor]. intros w. exists [].
    simpl. rewrite app_nil_r. split; reflexivity. }
  split; [exact H|].
  exact (proj1 (loop_sleeps_once_per_scan [zero_mid_collector] default_engine
                  3 H 0%nat (world_of sample_server))).
Defined.
